(** * windgpx: the GPX-to-wind-exposure pipeline of [CyclistWindAnalyzer]

    A shallow embedding of the computational core of the analyzer class:
    track ingestion and validation, the kinematics pass, temporal
    interpolation of the wind samples, the relative-wind computation and
    the route statistics.

    Number model.  A JavaScript number is modelled as a real number: the
    arithmetic of the source is read exactly, without IEEE-754 rounding.
    A numeric field of an object that may be [undefined] (or hold [NaN])
    is an [option R]; [None] stands for both, which behave alike in
    arithmetic and in comparisons.  A [Date] is its epoch value in
    milliseconds, an integer; a [null] time is [None].  Where rounding
    decides a property, the code is given a second time on binary64
    floating-point numbers (module [Binary64]). *)

From Stdlib Require Import Reals Lra Lia ZArith List Bool Ascii String.
From Stdlib Require Import Sorting.Sorted Sorting.Permutation.
From Stdlib Require PrimFloat.
From Equations Require Import Equations.
Import ListNotations.

Local Open Scope R_scope.

(** ** JavaScript primitives used by the analyzer *)

Module JS.

(** A numeric value that may be [undefined] or [NaN]. *)
Definition num := option R.

(** Truncation toward zero, the quotient that [%] uses. *)
Definition trunc (x : R) : Z :=
  if Rle_dec 0 x then Zfloor x else Zceil x.

(** [x % y] on numbers, for [y <> 0]: the remainder has the sign of the
    dividend. *)
Definition rem (x y : R) : R := x - y * IZR (trunc (x / y)).

(** [a || b] on numbers: [a] unless it is falsy ([0], [NaN], [undefined]). *)
Definition or_num (a : num) (b : R) : R :=
  match a with
  | Some x => if Req_dec_T x 0 then b else x
  | None => b
  end.

(** The value of a parameter declared with a default: only [undefined]
    selects the default. *)
Definition param_default (d : R) (a : num) : R :=
  match a with Some x => x | None => d end.

(** [Math.atan2(y, x)] on real arguments. *)
Definition atan2 (y x : R) : R :=
  if Rlt_dec 0 x then atan (y / x)
  else if Rlt_dec x 0 then
         (if Rle_dec 0 y then atan (y / x) + PI else atan (y / x) - PI)
  else if Rlt_dec 0 y then PI / 2
  else if Rlt_dec y 0 then - (PI / 2)
  else 0.

(** [Math.max] applied to at least one argument. *)
Definition max_of (x : R) (xs : list R) : R := fold_left Rmax xs x.

(** [Math.min] applied to at least one argument. *)
Definition min_of (x : R) (xs : list R) : R := fold_left Rmin xs x.

(** Binary operations on possibly-[NaN] operands propagate [NaN]. *)
Definition lift2 (f : R -> R -> R) (a b : num) : num :=
  match a, b with
  | Some x, Some y => Some (f x y)
  | _, _ => None
  end.

(** [ToNumber] of a time value in arithmetic and relational comparison:
    a [Date] gives its epoch milliseconds and [null] gives [0]. *)
Definition time_value (t : option Z) : Z :=
  match t with Some ms => ms | None => 0%Z end.

End JS.

(** ** The analyzer's constants *)

Module CONSTANTS.
Definition MAX_REALISTIC_SPEED : R := 100.
Definition MIN_MOVEMENT_THRESHOLD : R := 1.
Definition WIND_FETCH_INTERVAL : Z := 30 * 60 * 1000.
Definition DEFAULT_WIND_SPEED : R := 10.
Definition DEFAULT_WIND_DIRECTION : R := 180.
End CONSTANTS.

(** ** Geodesy *)

Definition toRadians (degrees : R) : R := degrees * (PI / 180).

Definition toDegrees (radians : R) : R := radians * (180 / PI).

Definition haversineDistance (lat1 lon1 lat2 lon2 : R) : R :=
  let R0 := 6371000 in
  let dLat := toRadians (lat2 - lat1) in
  let dLon := toRadians (lon2 - lon1) in
  let a := sin (dLat / 2) * sin (dLat / 2) +
           cos (toRadians lat1) * cos (toRadians lat2) *
           sin (dLon / 2) * sin (dLon / 2) in
  let c := 2 * JS.atan2 (sqrt a) (sqrt (1 - a)) in
  R0 * c.

Definition calculateBearing (lat1 lon1 lat2 lon2 : R) : R :=
  let dLon := toRadians (lon2 - lon1) in
  let lat1Rad := toRadians lat1 in
  let lat2Rad := toRadians lat2 in
  let y := sin dLon * cos lat2Rad in
  let x := cos lat1Rad * sin lat2Rad -
           sin lat1Rad * cos lat2Rad * cos dLon in
  let bearing := toDegrees (JS.atan2 y x) in
  JS.rem (bearing + 360) 360.

(** ** Data model *)

(** A track point: created by ingestion with coordinates, elevation and
    time; the kinematics pass adds speed, bearing and cumulative distance;
    wind enrichment adds the wind fields. *)
Record Point := mkPoint {
  lat : R;
  lon : R;
  elevation : R;
  time : option Z;
  speed_kmh : JS.num;
  bearing : JS.num;
  distance_km : JS.num;
  wind_speed : JS.num;
  wind_direction : JS.num;
  wind_faced : JS.num
}.

(** One entry of [windData]. *)
Record WindSample := mkWindSample {
  w_time : Z;
  w_lat : R;
  w_lon : R;
  w_wind_speed : R;
  w_wind_direction : R
}.

(** What a point element of the parsed document offers: the [parseFloat]
    of its [lat] and [lon] attributes, and the text of its [ele] and
    [time] children when present. *)
Record RawPoint := mkRawPoint {
  raw_lat : JS.num;
  raw_lon : JS.num;
  raw_ele : option JS.num;
  raw_time : option string
}.

(** The three point collections a GPX document may hold. *)
Record XmlDoc := mkXmlDoc {
  trkpt : list RawPoint;
  rtept : list RawPoint;
  wpt : list RawPoint
}.

Inductive Error :=
| NoGPSPointsFound
| NoValidGPSPoints
| MissingTimestamps
| TypeError.

(** ** Track ingestion and validation *)

Definition truthy (x : R) : bool := if Req_dec_T x 0 then false else true.
Definition Rleb (x y : R) : bool := if Rle_dec x y then true else false.

Definition isValidCoordinate (lat lon : JS.num) : bool :=
  match lat, lon with
  | Some lat, Some lon =>
      truthy lat && truthy lon &&
      Rleb (-90) lat && Rleb lat 90 &&
      Rleb (-180) lon && Rleb lon 180
  | _, _ => false
  end.

Definition extractElevation (point : RawPoint) : R :=
  match raw_ele point with
  | Some (Some eleValue) => eleValue
  | _ => 0
  end.

Fixpoint includes (c : ascii) (s : string) : bool :=
  match s with
  | EmptyString => false
  | String a s' => Ascii.eqb a c || includes c s'
  end.

(** [s.replace(c, d)] for one-character strings: the first occurrence. *)
Fixpoint replace_first (c d : ascii) (s : string) : string :=
  match s with
  | EmptyString => EmptyString
  | String a s' => if Ascii.eqb a c then String d s'
                   else String a (replace_first c d s')
  end.

Definition is_digit (a : ascii) : bool :=
  let n := nat_of_ascii a in (48 <=? n)%nat && (n <=? 57)%nat.

(** One step of the pattern: [None] is [\d], [Some c] the literal [c]. *)
Fixpoint matches_pattern (pat : list (option ascii)) (s : string) : bool :=
  match pat, s with
  | [], EmptyString => true
  | None :: pat', String a s' => is_digit a && matches_pattern pat' s'
  | Some c :: pat', String a s' => Ascii.eqb a c && matches_pattern pat' s'
  | _, _ => false
  end.

(** [/^\d{4}-\d{2}-\d{2} \d{2}:\d{2}:\d{2}$/] *)
Definition space_separated_pattern : list (option ascii) :=
  let d := None in
  let l c := Some c in
  [d; d; d; d; l "-"; d; d; l "-"; d; d; l " ";
   d; d; l ":"; d; d; l ":"; d; d]%char.

Section Ingestion.

(** The host's [Date]: [new Date(s)] as epoch milliseconds ([None] for an
    invalid date), the local calendar year of an epoch value, and
    [String.prototype.trim]. *)
Variable Date_parse : string -> option Z.
Variable getFullYear : Z -> Z.
Variable trim : string -> string.

Definition parseAlternativeTimeFormats (timeString : string) : option Z :=
  if includes "T" timeString && negb (includes "Z" timeString)
       && negb (includes "+" timeString)
  then Date_parse (timeString ++ "Z")
  else if matches_pattern space_separated_pattern timeString
  then Date_parse (replace_first " " "T" timeString ++ "Z")
  else None.

Definition extractTimestamp (point : RawPoint) : option Z :=
  match raw_time point with
  | None => None
  | Some EmptyString => None
  | Some textContent =>
      let timeString := trim textContent in
      match Date_parse timeString with
      | Some time => Some time
      | None => parseAlternativeTimeFormats timeString
      end
  end.

(** The first of [trkpt], [rtept], [wpt] that is not empty. *)
Definition selectTrackPoints (xmlDoc : XmlDoc) : list RawPoint :=
  match trkpt xmlDoc with
  | _ :: _ => trkpt xmlDoc
  | [] => match rtept xmlDoc with
          | _ :: _ => rtept xmlDoc
          | [] => wpt xmlDoc
          end
  end.

Definition newPoint (point : RawPoint) (lat lon : R) : Point :=
  mkPoint lat lon (extractElevation point) (extractTimestamp point)
          None None None None None None.

Fixpoint extractLoop (trackPoints : list RawPoint) : list Point :=
  match trackPoints with
  | [] => []
  | point :: rest =>
      if isValidCoordinate (raw_lat point) (raw_lon point)
      then match raw_lat point, raw_lon point with
           | Some lat, Some lon => newPoint point lat lon :: extractLoop rest
           | _, _ => extractLoop rest
           end
      else extractLoop rest
  end.

Definition extractGPXPoints (xmlDoc : XmlDoc) : Error + list Point :=
  match selectTrackPoints xmlDoc with
  | [] => inl NoGPSPointsFound
  | trackPoints => inr (extractLoop trackPoints)
  end.

Definition hasValidTime (p : Point) : bool :=
  match time p with
  | Some t => (2000 <? getFullYear t)%Z
  | None => false
  end.

(** [validateTimestamps]: [inl] is the thrown error. *)
Definition validateTimestamps (points : list Point) : Error + unit :=
  let hasValidTimes := existsb hasValidTime points in
  if negb hasValidTimes then inl MissingTimestamps else inr tt.

End Ingestion.

(** ** Kinematics derivation *)

Definition calculateSpeed (distance timeDiff : R) (prevSpeed : JS.num) : R :=
  let prevSpeed := JS.param_default 0 prevSpeed in
  if Rle_dec timeDiff 0 then prevSpeed
  else if Rle_dec distance 0 then 0
  else
    let speedMs := distance / timeDiff in
    let speedKmh := speedMs * 3.6 in
    if Rgt_dec speedKmh CONSTANTS.MAX_REALISTIC_SPEED
    then JS.or_num (Some prevSpeed) 20
    else speedKmh.

Definition calculatePointBearing (prev curr : Point) (distance : R) : R :=
  if Rgt_dec distance CONSTANTS.MIN_MOVEMENT_THRESHOLD
  then calculateBearing (lat prev) (lon prev) (lat curr) (lon curr)
  else JS.or_num (bearing prev) 0.

(** [Object.assign(p, {speed_kmh, bearing, distance_km})] and the three
    assignments of [calculatePointMetrics]: the other fields are kept. *)
Definition setKinematics (p : Point) (s b d : JS.num) : Point :=
  mkPoint (lat p) (lon p) (elevation p) (time p) s b d
          (wind_speed p) (wind_direction p) (wind_faced p).

(** The point [curr] as [calculatePointMetrics] leaves it. *)
Definition calculatePointMetrics (prev curr : Point)
    (cumulativeDistance : JS.num) : Point :=
  let distance :=
    haversineDistance (lat prev) (lon prev) (lat curr) (lon curr) in
  let cumulativeDistance :=
    JS.lift2 Rplus cumulativeDistance (Some distance) in
  let distance_km' := JS.lift2 Rdiv cumulativeDistance (Some 1000) in
  let timeDiff :=
    IZR (JS.time_value (time curr) - JS.time_value (time prev)) / 1000 in
  let speed_kmh' := calculateSpeed distance timeDiff (speed_kmh prev) in
  let bearing' := calculatePointBearing prev curr distance in
  setKinematics curr (Some speed_kmh') (Some bearing') distance_km'.

(** The iterations [i >= 1] of the loop: [prev] is the element [i - 1] of
    the array as already rewritten by the pass. *)
Fixpoint kinematicsLoop (prev : Point) (cumulativeDistance : JS.num)
    (rest : list Point) : list Point :=
  match rest with
  | [] => []
  | curr :: rest' =>
      let curr' := calculatePointMetrics prev curr cumulativeDistance in
      let cumulativeDistance' :=
        JS.lift2 Rmult (distance_km curr') (Some 1000) in
      curr' :: kinematicsLoop curr' cumulativeDistance' rest'
  end.

(** [calculateSpeedAndBearing]: the array [gpxData] after the pass. *)
Definition calculateSpeedAndBearing (gpxData : list Point) : list Point :=
  match gpxData with
  | [] => []
  | first :: rest =>
      let first' := setKinematics first (Some 0) (Some 0) (Some 0) in
      first' :: kinematicsLoop first' (Some 0) rest
  end.

(** ** Sorting and the whole of [readGPXFile] *)

Definition compareTime (a b : Point) : Z :=
  (JS.time_value (time a) - JS.time_value (time b))%Z.

(** [Array.prototype.sort] is stable; with this comparator its result is
    the stable ordering by time value, computed here by insertion: [p]
    comes from earlier in the array than the elements of [sorted], and
    goes behind those that compare strictly below it only. *)
Fixpoint insertByTime (p : Point) (sorted : list Point) : list Point :=
  match sorted with
  | [] => [p]
  | q :: rest => if (compareTime q p <? 0)%Z
                 then q :: insertByTime p rest
                 else p :: q :: rest
  end.

Definition sortByTime (points : list Point) : list Point :=
  fold_right (fun p acc => insertByTime p acc) [] points.

Section ReadGPXFile.

Variable Date_parse : string -> option Z.
Variable getFullYear : Z -> Z.
Variable trim : string -> string.

(** [readGPXFile] from the parsed document on: [inl] is the error thrown,
    [inr] the array stored in [gpxData]. *)
Definition readGPXFile (xmlDoc : XmlDoc) : Error + list Point :=
  match extractGPXPoints Date_parse trim xmlDoc with
  | inl e => inl e
  | inr points =>
      match points with
      | [] => inl NoValidGPSPoints
      | _ :: _ =>
          match validateTimestamps getFullYear points with
          | inl e => inl e
          | inr _ =>
              let gpxData := sortByTime points in
              (* the log line calls [toISOString] on the first and last time *)
              match gpxData with
              | first :: _ =>
                  match time first, time (last gpxData first) with
                  | Some _, Some _ => inr (calculateSpeedAndBearing gpxData)
                  | _, _ => inl TypeError
                  end
              | [] => inl TypeError
              end
          end
      end
  end.

End ReadGPXFile.

(** ** Temporal interpolation of the wind samples *)

Record WindValues := mkWindValues {
  wv_wind_speed : R;
  wv_wind_direction : R
}.

Definition valuesOf (w : WindSample) : WindValues :=
  mkWindValues (w_wind_speed w) (w_wind_direction w).

(** The first adjacent pair that brackets [targetTime]; both components
    are [None] when the loop ends without a [break]. *)
Fixpoint findSurroundingWindData (windData : list WindSample)
    (targetTime : Z) : option WindSample * option WindSample :=
  match windData with
  | wi :: ((wi1 :: _) as rest) =>
      if (w_time wi <=? targetTime)%Z && (w_time wi1 >=? targetTime)%Z
      then (Some wi, Some wi1)
      else findSurroundingWindData rest targetTime
  | _ => (None, None)
  end.

Definition interpolateBetweenWindPoints (before after : WindSample)
    (targetTime : Z) : WindValues :=
  let totalTime := (w_time after - w_time before)%Z in
  let pointTime := (targetTime - w_time before)%Z in
  let ratio := if (totalTime >? 0)%Z then IZR pointTime / IZR totalTime
               else 0 in
  mkWindValues
    (w_wind_speed before +
       (w_wind_speed after - w_wind_speed before) * ratio)
    (w_wind_direction before +
       (w_wind_direction after - w_wind_direction before) * ratio).

(** [a || b] on object references. *)
Definition or_ref {A : Type} (a b : option A) : option A :=
  match a with Some _ => a | None => b end.

Definition interpolateWindForPoint (windData : list WindSample)
    (gpxPoint : Point) : WindValues :=
  match windData with
  | [] => mkWindValues CONSTANTS.DEFAULT_WIND_SPEED
                       CONSTANTS.DEFAULT_WIND_DIRECTION
  | [w0] => valuesOf w0
  | w0 :: _ =>
      match findSurroundingWindData windData
              (JS.time_value (time gpxPoint)) with
      | (Some before, Some after) =>
          interpolateBetweenWindPoints before after
            (JS.time_value (time gpxPoint))
      | (before, after) =>
          match or_ref (or_ref before after) (Some w0) with
          | Some closest => valuesOf closest
          | None => valuesOf w0
          end
      end
  end.

(** ** Wind exposure *)

(** [Object.assign(gpxPoint, windData)] *)
Definition assignWind (p : Point) (w : WindValues) : Point :=
  mkPoint (lat p) (lon p) (elevation p) (time p)
          (speed_kmh p) (bearing p) (distance_km p)
          (Some (wv_wind_speed w)) (Some (wv_wind_direction w))
          (wind_faced p).

Definition setWindFaced (p : Point) (windComponent : JS.num) : Point :=
  mkPoint (lat p) (lon p) (elevation p) (time p)
          (speed_kmh p) (bearing p) (distance_km p)
          (wind_speed p) (wind_direction p) windComponent.

(** The body of the loop of [calculateRelativeWind]. *)
Definition relativeWind (point : Point) : Point :=
  let windComponent :=
    match wind_direction point, bearing point, wind_speed point with
    | Some windFromDeg, Some cyclistDirection, Some windSpeed =>
        let relativeAngle :=
          JS.rem (windFromDeg - cyclistDirection + 180) 360 - 180 in
        Some (windSpeed * cos (toRadians relativeAngle))
    | _, _, _ => None
    end in
  setWindFaced point windComponent.

Definition calculateRelativeWind (gpxData : list Point) : list Point :=
  map relativeWind gpxData.

Definition interpolateWindAlongRoute (windData : list WindSample)
    (gpxData : list Point) : list Point :=
  calculateRelativeWind
    (map (fun gpxPoint =>
            assignWind gpxPoint (interpolateWindForPoint windData gpxPoint))
         gpxData).

(** ** Aggregate statistics *)

Record RouteStatistics := mkRouteStatistics {
  totalDistance : R;
  totalTime : R;
  avgSpeed : R;
  avgWindFaced : JS.num;
  maxHeadwind : JS.num;
  maxTailwind : JS.num;
  avgWindSpeed : JS.num;
  headwindPercentage : R
}.

(** The loop of [calculateTotalDistance] from index [i] on, [prev] being
    the element [i - 1]. *)
Fixpoint totalDistanceLoop (prev : Point) (rest : list Point)
    (totalDistance : R) : R :=
  match rest with
  | [] => totalDistance
  | curr :: rest' =>
      totalDistanceLoop curr rest'
        (totalDistance +
         haversineDistance (lat prev) (lon prev) (lat curr) (lon curr))
  end.

Definition calculateTotalDistance (gpxData : list Point) : R :=
  match gpxData with
  | [] => 0 / 1000
  | first :: rest => totalDistanceLoop first rest 0 / 1000
  end.

(** [values.reduce((sum, v) => sum + v, 0)] *)
Definition sumNum (values : list JS.num) : JS.num :=
  fold_left (JS.lift2 Rplus) values (Some 0).

Definition sumR (values : list R) : R := fold_left Rplus values 0.

(** The numbers of a list, unless one of them is [NaN]. *)
Fixpoint allNumbers (values : list JS.num) : option (list R) :=
  match values with
  | [] => Some []
  | Some v :: rest =>
      match allNumbers rest with
      | Some vs => Some (v :: vs)
      | None => None
      end
  | None :: _ => None
  end.

(** [p.speed_kmh] for the points where [s > 0] holds. *)
Definition positiveSpeeds (gpxData : list Point) : list R :=
  flat_map (fun p => match speed_kmh p with
                     | Some s => if Rgt_dec s 0 then [s] else []
                     | None => []
                     end) gpxData.

(** The number of values [w] with [w >= 0]. *)
Definition countNonNegative (values : list JS.num) : nat :=
  List.length (filter (fun w => match w with
                           | Some w => if Rge_dec w 0 then true else false
                           | None => false
                           end) values).

Definition calculateRouteStatistics (gpxData : list Point)
    : Error + RouteStatistics :=
  match gpxData with
  | [] => inl TypeError
  | first :: _ =>
      let totalDistance := calculateTotalDistance gpxData in
      let totalTime :=
        IZR (JS.time_value (time (last gpxData first)) -
             JS.time_value (time first)) / (1000 * 60 * 60) in
      let speeds := positiveSpeeds gpxData in
      let windFacedValues := map wind_faced gpxData in
      let windSpeedValues := map wind_speed gpxData in
      let n := INR (List.length windFacedValues) in
      inr (mkRouteStatistics
        totalDistance
        totalTime
        (if (0 <? List.length speeds)%nat
         then sumR speeds / INR (List.length speeds) else 0)
        (JS.lift2 Rdiv (sumNum windFacedValues) (Some n))
        (match allNumbers windFacedValues with
         | Some (w :: ws) => Some (JS.max_of (Rmax 0 w) (map (Rmax 0) ws))
         | _ => None
         end)
        (match allNumbers windFacedValues with
         | Some (w :: ws) =>
             Some (Rabs (JS.min_of (Rmin 0 w) (map (Rmin 0) ws)))
         | _ => None
         end)
        (JS.lift2 Rdiv (sumNum windSpeedValues)
                  (Some (INR (List.length windSpeedValues))))
        (INR (countNonNegative windFacedValues) / n * 100))
  end.

(** ** Wind sampling *)

(** One iteration of the scan of [findClosestGPXPoint]: the pair is
    [closestPoint] and [minTimeDiff]. *)
Definition closerPoint (targetTime : Z) (acc : Point * Z) (point : Point)
    : Point * Z :=
  let timeDiff := Z.abs (targetTime - JS.time_value (time point)) in
  if (timeDiff <? snd acc)%Z then (point, timeDiff) else acc.

(** The scan, started from the first element of a non-empty [gpxData]. *)
Definition closestFrom (first : Point) (gpxData : list Point)
    (targetTime : Z) : Point :=
  let closestPoint := first in
  let minTimeDiff :=
    Z.abs (targetTime - JS.time_value (time closestPoint)) in
  fst (fold_left (closerPoint targetTime) gpxData (closestPoint, minTimeDiff)).

(** [findClosestGPXPoint]: on an empty [gpxData] the read of
    [closestPoint.time] throws. *)
Definition findClosestGPXPoint (gpxData : list Point) (targetTime : Z)
    : Error + Point :=
  match gpxData with
  | [] => inl TypeError
  | first :: _ => inr (closestFrom first gpxData targetTime)
  end.

Definition createDefaultWindData (time : Z) (point : Point) : WindSample :=
  mkWindSample time (lat point) (lon point)
               CONSTANTS.DEFAULT_WIND_SPEED CONSTANTS.DEFAULT_WIND_DIRECTION.

(** The [hourly] object of an archive response: each array may be
    missing; an entry of [time] is the [Date] made of its string, [None]
    when that date is invalid; an entry of the other arrays is a number
    or [null]. *)
Record Hourly := mkHourly {
  h_time : option (list (option Z));
  h_wind_speed_10m : option (list JS.num);
  h_wind_direction_10m : option (list JS.num)
}.

Record WeatherData := mkWeatherData {
  hourly : option Hourly
}.

Inductive WeatherError :=
| HttpError
| NoHourlyData
| WeatherTypeError.

(** The loop that finds the closest hour: [i] is the index of the head
    of [times]; [minDiff] is [None] while it is [Infinity]. *)
Fixpoint closestHourLoop (times : list (option Z)) (timestamp : Z)
    (i closestIdx : nat) (minDiff : option Z) : nat :=
  match times with
  | [] => closestIdx
  | apiTime :: rest =>
      match apiTime with
      | Some apiTime =>
          let diff := Z.abs (apiTime - timestamp) in
          if match minDiff with
             | None => true
             | Some m => (diff <? m)%Z
             end
          then closestHourLoop rest timestamp (S i) i (Some diff)
          else closestHourLoop rest timestamp (S i) closestIdx minDiff
      | None => closestHourLoop rest timestamp (S i) closestIdx minDiff
      end
  end.

(** [array[idx]]: [undefined] out of range. *)
Definition at_index (array : list JS.num) (idx : nat) : JS.num :=
  match nth_error array idx with
  | Some v => v
  | None => None
  end.

Definition parseWeatherData (data : WeatherData) (timestamp : Z)
    : WeatherError + WindValues :=
  match hourly data with
  | None => inl NoHourlyData
  | Some h =>
      match h_time h with
      | None | Some [] => inl NoHourlyData
      | Some times =>
          let closestIdx := closestHourLoop times timestamp 0 0 None in
          match h_wind_speed_10m h, h_wind_direction_10m h with
          | Some speeds, Some directions =>
              let windSpeed10m :=
                JS.or_num (at_index speeds closestIdx) 0 * 3.6 in
              let windDirection :=
                JS.or_num (at_index directions closestIdx) 0 in
              let windSpeed :=
                windSpeed10m * (ln (1.5 / 0.1) / ln (10 / 0.1)) in
              inr (mkWindValues windSpeed windDirection)
          | _, _ => inl WeatherTypeError
          end
      end
  end.

Section WindSampling.

(** The archive service: the response to the request made for a
    location and a time, [None] when the request fails or the response
    is not OK. *)
Variable fetchArchive : R -> R -> Z -> option WeatherData.

Definition getHistoricalWeatherOpenMeteo (lat lon : R) (timestamp : Z)
    : WeatherError + WindValues :=
  match fetchArchive lat lon timestamp with
  | None => inl HttpError
  | Some data => parseWeatherData data timestamp
  end.

(** The body of the [while] loop: the sample pushed at [currentTime]. *)
Definition sampleAt (first : Point) (gpxData : list Point)
    (currentTime : Z) : WindSample :=
  let closestPoint := closestFrom first gpxData currentTime in
  match getHistoricalWeatherOpenMeteo (lat closestPoint) (lon closestPoint)
          currentTime with
  | inr windInfo =>
      mkWindSample currentTime (lat closestPoint) (lon closestPoint)
                   (wv_wind_speed windInfo) (wv_wind_direction windInfo)
  | inl _ => createDefaultWindData currentTime closestPoint
  end.

(** The [while (currentTime <= endTime)] loop: each step yields the
    sample pushed and the arguments of its [updateProgress] call. *)
Equations? samplingLoop (first : Point) (gpxData : list Point)
    (endTime totalSteps currentTime currentStep : Z)
    : list (WindSample * (Z * Z))
    by wf (Z.to_nat (endTime - currentTime + 1)) lt :=
  samplingLoop first gpxData endTime totalSteps currentTime currentStep
    with Z_le_gt_dec currentTime endTime := {
    | left _ =>
        (sampleAt first gpxData currentTime,
         ((currentStep + 1)%Z, totalSteps))
        :: samplingLoop first gpxData endTime totalSteps
             (currentTime + CONSTANTS.WIND_FETCH_INTERVAL)%Z
             (currentStep + 1)%Z;
    | right _ => []
    }.
Proof.
  unfold CONSTANTS.WIND_FETCH_INTERVAL. lia.
Qed.

(** [Math.ceil(a / b)] for integers [a] and [b > 0]. *)
Definition ceilDiv (a b : Z) : Z := (- ((- a) / b))%Z.

(** [getWindDataEvery30Min]: the array [windData] and the calls of
    [updateProgress], in order. *)
Definition getWindDataEvery30Min (gpxData : list Point)
    : Error + (list WindSample * list (Z * Z)) :=
  match gpxData with
  | [] => inl TypeError
  | first :: _ =>
      let startTime := JS.time_value (time first) in
      let endTime := JS.time_value (time (last gpxData first)) in
      let interval := CONSTANTS.WIND_FETCH_INTERVAL in
      let totalSteps := ceilDiv (endTime - startTime) interval in
      let steps :=
        samplingLoop first gpxData endTime totalSteps startTime 0 in
      inr (map fst steps,
           [(0, 1)%Z] ++ map snd steps ++ [(totalSteps, totalSteps)])
  end.

End WindSampling.

(** ** Route rendering *)

(** The object that [interpolatePoint] builds: it has no elevation and no
    cumulative distance. *)
Record InterpolatedPoint := mkInterpolatedPoint {
  i_lat : R;
  i_lon : R;
  i_wind_faced : JS.num;
  i_time : Z;
  i_speed_kmh : JS.num;
  i_wind_speed : JS.num;
  i_wind_direction : JS.num;
  i_bearing : JS.num
}.

(** An element of [smoothedPoints]: a track point itself, or a point
    made up between two of them. *)
Inductive RoutePoint :=
| TrackPoint (p : Point)
| Interpolated (q : InterpolatedPoint).

(** [a + (b - a) * ratio] on fields that may be unset. *)
Definition blend (a b : JS.num) (ratio : R) : JS.num :=
  JS.lift2 Rplus a (JS.lift2 Rmult (JS.lift2 Rminus b a) (Some ratio)).

(** [current.time.getTime()] throws when the time is [null]; in
    [next.time - current.time] a [null] counts as 0.  [new Date(x)] cuts
    the fraction of [x] off. *)
Definition interpolatePoint (current next : Point) (ratio : R)
    : Error + InterpolatedPoint :=
  match time current with
  | None => inl TypeError
  | Some t =>
      inr (mkInterpolatedPoint
             (lat current + (lat next - lat current) * ratio)
             (lon current + (lon next - lon current) * ratio)
             (blend (wind_faced current) (wind_faced next) ratio)
             (JS.trunc (IZR t + IZR (JS.time_value (time next) - t) * ratio))
             (blend (speed_kmh current) (speed_kmh next) ratio)
             (blend (wind_speed current) (wind_speed next) ratio)
             (blend (wind_direction current) (wind_direction next) ratio)
             (blend (bearing current) (bearing next) ratio))
  end.

(** The results of a run of calls, unless one of them throws. *)
Fixpoint collect {A : Type} (calls : list (Error + A)) : Error + list A :=
  match calls with
  | [] => inr []
  | inl e :: _ => inl e
  | inr a :: rest =>
      match collect rest with
      | inl e => inl e
      | inr others => inr (a :: others)
      end
  end.

(** [for (let step = 1; step < steps; step++)] of
    [createSmoothedRoutePoints]. *)
Definition interpolatedBetween (current next : Point) (steps : Z)
    : Error + list RoutePoint :=
  collect
    (map (fun step =>
            let ratio := INR step / IZR steps in
            match interpolatePoint current next ratio with
            | inl e => inl e
            | inr q => inr (Interpolated q)
            end)
         (seq 1 (Z.to_nat steps - 1))).

Fixpoint createSmoothedRoutePoints (gpxData : list Point)
    : Error + list RoutePoint :=
  match gpxData with
  | [] => inr []
  | current :: following =>
      let added :=
        match following with
        | [] => inr []
        | next :: _ =>
            let distance :=
              haversineDistance (lat current) (lon current)
                                (lat next) (lon next) in
            if Rgt_dec distance 50
            then let steps := Z.min 5 (Zfloor (distance / 50)) in
                 interpolatedBetween current next steps
            else inr []
        end in
      match added with
      | inl e => inl e
      | inr added =>
          match createSmoothedRoutePoints following with
          | inl e => inl e
          | inr others => inr (TrackPoint current :: added ++ others)
          end
      end
  end.

(** ** Chart interaction *)

(** The [x] of a chart datum: a track point's time (a [Date] or [null])
    or its cumulative distance (a number, maybe unset). *)
Inductive XValue :=
| XDate (ms : Z)
| XNumber (x : JS.num)
| XNull.

(** [d.getTime()]: only a [Date] has the method. *)
Definition getTime (d : XValue) : Error + Z :=
  match d with
  | XDate ms => inr ms
  | _ => inl TypeError
  end.

(** The value in arithmetic and in [Math.min] and [Math.max]. *)
Definition toNumber (d : XValue) : JS.num :=
  match d with
  | XDate ms => Some (IZR ms)
  | XNumber x => x
  | XNull => Some 0
  end.

(** [a < b] on numbers: false as soon as one of them is [NaN]. *)
Definition lt_num (a b : JS.num) : bool :=
  match a, b with
  | Some x, Some y => if Rlt_dec x y then true else false
  | _, _ => false
  end.

(** [Math.abs(x - targetX)] *)
Definition distanceTo (targetX x : JS.num) : JS.num :=
  option_map Rabs (JS.lift2 Rminus x targetX).

(** The scan [for (let i = 1; i < xValues.length; i++)]. *)
Fixpoint closestIndexLoop (values : list JS.num) (targetX : JS.num)
    (i closestIndex : nat) (minDistance : JS.num) : nat :=
  match values with
  | [] => closestIndex
  | x :: rest =>
      let distance := distanceTo targetX x in
      if lt_num distance minDistance
      then closestIndexLoop rest targetX (S i) i distance
      else closestIndexLoop rest targetX (S i) closestIndex minDistance
  end.

(** [Math.min(...values)] and [Math.max(...values)] of at least one
    value: [NaN] as soon as one of them is. *)
Definition min_num (first : JS.num) (rest : list JS.num) : JS.num :=
  match allNumbers (first :: rest) with
  | Some (x :: xs) => Some (JS.min_of x xs)
  | _ => None
  end.

Definition max_num (first : JS.num) (rest : list JS.num) : JS.num :=
  match allNumbers (first :: rest) with
  | Some (x :: xs) => Some (JS.max_of x xs)
  | _ => None
  end.

(** What the two branches of [findClosestDataIndex] do once the values
    are numbers. *)
Definition closestValueIndex (first : JS.num) (rest : list JS.num)
    (relativeX : R) : nat :=
  let minX := min_num first rest in
  let maxX := max_num first rest in
  let targetX :=
    JS.lift2 Rplus minX
      (JS.lift2 Rmult (Some relativeX) (JS.lift2 Rminus maxX minX)) in
  let closestIndex := 0%nat in
  let minDistance := distanceTo targetX first in
  closestIndexLoop rest targetX 1 closestIndex minDistance.

(** [data] is [None] when it is [null] or [undefined]; of each datum only
    [x] is read. *)
Definition findClosestDataIndex (data : option (list XValue))
    (relativeX : R) : Error + Z :=
  match data with
  | None => inr (-1)%Z
  | Some [] => inr (-1)%Z
  | Some (XDate ms :: others) =>
      match collect (map getTime others) with
      | inl e => inl e
      | inr times =>
          inr (Z.of_nat
                 (closestValueIndex (Some (IZR ms))
                    (map (fun t => Some (IZR t)) times) relativeX))
      end
  | Some (first :: others) =>
      inr (Z.of_nat
             (closestValueIndex (toNumber first) (map toNumber others)
                relativeX))
  end.

(** ** The distance sums in double arithmetic *)

(** The definitions above read numbers as real numbers.  The two loops
    that add up distances are given here once more on IEEE 754 doubles,
    with the additions, multiplications and divisions of the source in
    the source's order.  [distances] holds what [haversineDistance]
    returned for the consecutive pairs of a track with at least one
    point: both loops call it with the same arguments in the same
    order. *)
Module Binary64.
Import PrimFloat.
Local Open Scope float_scope.

(** [calculateTotalDistance] *)
Definition calculateTotalDistance (distances : list float) : float :=
  let totalDistance :=
    fold_left (fun totalDistance distance => totalDistance + distance)
              distances 0 in
  totalDistance / 1000.

(** The [distance_km] that the iterations [i >= 1] of the pass assign:
    [cumulativeDistance += distance] and the division in
    [calculatePointMetrics], then the conversion back to metres in
    [calculateSpeedAndBearing]. *)
Fixpoint kinematicsLoop (cumulativeDistance : float)
    (distances : list float) : list float :=
  match distances with
  | [] => []
  | distance :: rest =>
      let cumulativeDistance := cumulativeDistance + distance in
      let distance_km := cumulativeDistance / 1000 in
      let cumulativeDistance := distance_km * 1000 in
      distance_km :: kinematicsLoop cumulativeDistance rest
  end.

(** The [distance_km] of every point after [calculateSpeedAndBearing]. *)
Definition calculateSpeedAndBearing (distances : list float) : list float :=
  0 :: kinematicsLoop 0 distances.

End Binary64.

(** * Specification-side notions and sample inputs *)

(** ** Kinematics *)

Definition speedInRange (p : Point) : Prop :=
  exists s, speed_kmh p = Some s /\ 0 <= s <= 100.

Definition impliedDistance (prev curr : Point) : R :=
  haversineDistance (lat prev) (lon prev) (lat curr) (lon curr).

Definition timeDiffSeconds (prev curr : Point) : R :=
  IZR (JS.time_value (time curr) - JS.time_value (time prev)) / 1000.

Definition impliedSpeed (prev curr : Point) : R :=
  impliedDistance prev curr / timeDiffSeconds prev curr * 3.6.

(** Two points are the same fix: same place and same time. *)
Definition sameFix (p q : Point) : Prop :=
  lat p = lat q /\ lon p = lon q /\ time p = time q.

(** The three fields that the kinematics pass writes. *)
Definition kinematicFields (p : Point) : JS.num * JS.num * JS.num :=
  (distance_km p, speed_kmh p, bearing p).

Definition bearingInRange (p : Point) : Prop :=
  exists b, bearing p = Some b /\ 0 <= b < 360.

(** The fields that the kinematics pass leaves alone. *)
Definition keptFields (p : Point)
    : R * R * R * option Z * JS.num * JS.num * JS.num :=
  (lat p, lon p, elevation p, time p,
   wind_speed p, wind_direction p, wind_faced p).

(** The rule in the words of the specification: above the ceiling the
    speed is the previous point's, and 20 only when that one is unset. *)
Definition speedRuleAsSpecified (gpxData : list Point) : Prop :=
  forall (i : nat) (prev curr : Point),
    nth_error (calculateSpeedAndBearing gpxData) i = Some prev ->
    nth_error (calculateSpeedAndBearing gpxData) (S i) = Some curr ->
    (timeDiffSeconds prev curr <= 0 -> speed_kmh curr = speed_kmh prev) /\
    (0 < timeDiffSeconds prev curr ->
       (impliedSpeed prev curr <= 100 ->
          speed_kmh curr = Some (impliedSpeed prev curr)) /\
       (100 < impliedSpeed prev curr ->
          speed_kmh curr =
            Some (match speed_kmh prev with Some sp => sp | None => 20 end))).

(** Two fixes one second apart and a thousandth of a degree of latitude
    (about 111 m) away from each other. *)
Definition fix_before_jump : Point :=
  mkPoint 46 7 500 (Some 1700000000000%Z) None None None None None None.

Definition fix_after_jump : Point :=
  mkPoint 46.001 7 500 (Some 1700000001000%Z) None None None None None None.

Definition gps_jump_track : list Point := [fix_before_jump; fix_after_jump].

(** The two points as the kinematics pass leaves them. *)
Definition jump_prev : Point :=
  setKinematics fix_before_jump (Some 0) (Some 0) (Some 0).

Definition jump_curr : Point :=
  calculatePointMetrics jump_prev fix_after_jump (Some 0).

(** A second fix at the place of the first one, five seconds later, and
    that fix as the kinematics pass leaves it. *)
Definition fix_waiting : Point :=
  mkPoint 46 7 500 (Some 1700000005000%Z) None None None None None None.

Definition waiting_track : list Point := [fix_before_jump; fix_waiting].

Definition waiting_curr : Point :=
  calculatePointMetrics jump_prev fix_waiting (Some 0).

(** ** Ingestion *)

(** The number a point is sorted by. *)
Definition timeKey (p : Point) : Z := JS.time_value (time p).

(** What ingestion reads of a point from the document. *)
Definition fixOf (p : Point) : R * R * R * option Z :=
  (lat p, lon p, elevation p, time p).

(** Coordinates that pass the coordinate check. *)
Definition coordinatesAccepted (p : Point) : Prop :=
  -90 <= lat p <= 90 /\ lat p <> 0 /\ -180 <= lon p <= 180 /\ lon p <> 0.

Definition coordinateValid (r : RawPoint) : bool :=
  isValidCoordinate (raw_lat r) (raw_lon r).

Section IngestionSpecification.

Variable Date_parse : string -> option Z.
Variable getFullYear : Z -> Z.
Variable trim : string -> string.

(** A point element whose time text yields a date in a year after 2000. *)
Definition usableTimestamp (r : RawPoint) : bool :=
  match extractTimestamp Date_parse trim r with
  | Some t => (2000 <? getFullYear t)%Z
  | None => false
  end.

(** The point that ingestion makes of a point element. *)
Definition madeFrom (p : Point) (r : RawPoint) : Prop :=
  raw_lat r = Some (lat p) /\ raw_lon r = Some (lon p) /\
  elevation p = extractElevation r /\
  time p = extractTimestamp Date_parse trim r.

End IngestionSpecification.

(** A host whose [Date] reads one ISO string, with the mean Gregorian
    year for the calendar and an identity [trim]. *)
Definition host_Date_parse (s : string) : option Z :=
  if String.eqb s "2023-11-14T22:13:20Z" then Some 1700000000000%Z else None.

Definition host_getFullYear (ms : Z) : Z := (1970 + ms / 31556952000)%Z.

Definition host_trim (s : string) : string := s.

(** A single fix at latitude 95 with a good timestamp. *)
Definition off_range_point : RawPoint :=
  mkRawPoint (Some 95) (Some 10) None (Some "2023-11-14T22:13:20Z"%string).

Definition off_range_doc : XmlDoc := mkXmlDoc [off_range_point] [] [].

(** Five fixes with good coordinates and no time element. *)
Definition untimed_point (la lo : R) : RawPoint :=
  mkRawPoint (Some la) (Some lo) (Some (Some 400)) None.

Definition untimed_doc : XmlDoc :=
  mkXmlDoc [ untimed_point 46 7; untimed_point 46.001 7.001;
             untimed_point 46.002 7.002; untimed_point 46.003 7.003;
             untimed_point 46.004 7.004 ] [] [].

(** A fix with a good timestamp followed by a fix without a time
    element. *)
Definition timed_point : RawPoint :=
  mkRawPoint (Some 46) (Some 7) None (Some "2023-11-14T22:13:20Z"%string).

Definition partly_timed_doc : XmlDoc :=
  mkXmlDoc [timed_point; untimed_point 46.001 7.001] [] [].

(** A document with two timed fixes, and the track loaded from it. *)
Definition timed_point_next : RawPoint :=
  mkRawPoint (Some 46.001) (Some 7) None
             (Some "2023-11-14T22:13:20Z"%string).

Definition timed_doc : XmlDoc :=
  mkXmlDoc [timed_point; timed_point_next] [] [].

Definition timed_track : list Point :=
  calculateSpeedAndBearing
    [ newPoint host_Date_parse host_trim timed_point 46 7;
      newPoint host_Date_parse host_trim timed_point_next 46.001 7 ].

(** A fix whose time is written with a space instead of the "T". *)
Definition space_timed_point : RawPoint :=
  mkRawPoint (Some 46) (Some 7) None (Some "2023-11-14 22:13:20"%string).

(** Two fixes, one on the equator and one on the prime meridian. *)
Definition equator_point : RawPoint :=
  mkRawPoint (Some 0) (Some 10.5) None (Some "2023-11-14T22:13:20Z"%string).

Definition meridian_point : RawPoint :=
  mkRawPoint (Some 51.5) (Some 0) None (Some "2023-11-14T22:13:20Z"%string).

Definition zero_line_doc : XmlDoc :=
  mkXmlDoc [equator_point; meridian_point] [] [].

(** ** Wind *)

(** A point heading north at 25 km/h in a 20 km/h wind from the north. *)
Definition northbound_point : Point :=
  mkPoint 47 8 400 (Some 1700000000000%Z)
          (Some 25) (Some 0) (Some 1) (Some 20) (Some 0) None.


(** How far the time of a point is from a target time, in ms. *)
Definition timeGap (targetTime : Z) (p : Point) : Z :=
  Z.abs (targetTime - JS.time_value (time p)).

(** The number of grid times from [currentTime] up to [endTime], one
    every [WIND_FETCH_INTERVAL]. *)
Definition gridCount (currentTime endTime : Z) : Z :=
  if (currentTime <=? endTime)%Z
  then ((endTime - currentTime) / CONSTANTS.WIND_FETCH_INTERVAL + 1)%Z
  else 0%Z.

(** Where and when a sample was taken. *)
Definition samplePlace (w : WindSample) : Z * R * R :=
  (w_time w, w_lat w, w_lon w).

(** Orderings of wind samples by their time. *)
Definition earlier (a b : WindSample) : Prop := (w_time a < w_time b)%Z.

Definition notLater (a b : WindSample) : Prop := (w_time a <= w_time b)%Z.

(** Two samples half an hour apart, and a track point five minutes after
    the second one. *)
Definition sample_start : WindSample :=
  mkWindSample 1700000000000 47 8 5 100.

Definition sample_half_hour : WindSample :=
  mkWindSample 1700001800000 47 8 7 200.

Definition point_after_samples : Point :=
  mkPoint 47 8 400 (Some 1700002100000%Z)
          (Some 25) (Some 0) (Some 12) None None None.

(** A ride of 35 minutes: its first and its last point. *)
Definition point_at_start : Point :=
  mkPoint 47 8 400 (Some 1700000000000%Z)
          (Some 0) (Some 0) (Some 0) None None None.

Definition short_ride : list Point := [point_at_start; point_after_samples].

(** A ride of exactly one hour. *)
Definition point_after_hour : Point :=
  mkPoint 47.1 8 400 (Some 1700003600000%Z)
          (Some 25) (Some 0) (Some 12) None None None.

Definition hour_ride : list Point := [point_at_start; point_after_hour].

(** An archive service that is down. *)
Definition service_down (lat lon : R) (timestamp : Z)
    : option WeatherData := None.

(** An archive response with the hours 22:00 and 23:00 of the day of the
    sample times above. *)
Definition evening_hours : Hourly :=
  mkHourly (Some [Some 1699999200000%Z; Some 1700002800000%Z])
           (Some [Some 5; Some 8]) (Some [Some 270; Some 300]).

Definition evening_response : WeatherData := mkWeatherData (Some evening_hours).

(** A track point at the time of the second sample. *)
Definition point_at_half_hour : Point :=
  mkPoint 47 8 400 (Some 1700001800000%Z)
          (Some 25) (Some 0) (Some 12) None None None.

(** The number of values that are at least 0, in the specification's
    reading of the headwind share. *)
Definition headwindCount (ws : list R) : nat :=
  List.length (filter (fun w => Rleb 0 w) ws).

(** Two fixes of a rider standing still, first in a 5 km/h headwind and
    then in a 3 km/h tailwind. *)
Definition standing_first : Point :=
  mkPoint 46 7 500 (Some 1700000000000%Z)
          (Some 0) (Some 0) (Some 0) (Some 5) (Some 0) (Some 5).

Definition standing_second : Point :=
  mkPoint 46 7 500 (Some 1700000020000%Z)
          (Some 0) (Some 0) (Some 0) (Some 3) (Some 180) (Some (-3)).

Definition windy_track : list Point := [standing_first; standing_second].

(** ** Route rendering *)

(** The track points among the points of a smoothed route, in order. *)
Fixpoint trackPointsOf (smoothedPoints : list RoutePoint) : list Point :=
  match smoothedPoints with
  | [] => []
  | TrackPoint p :: rest => p :: trackPointsOf rest
  | Interpolated _ :: rest => trackPointsOf rest
  end.

Definition distanceBetween (a b : Point) : R :=
  haversineDistance (lat a) (lon a) (lat b) (lon b).

(** The second point of the track follows the first one directly. *)
Definition neighbours (gpxData : list Point) (a b : Point) : Prop :=
  exists i, nth_error gpxData i = Some a /\ nth_error gpxData (S i) = Some b.

Definition between (x y v : R) : Prop := Rmin x y <= v <= Rmax x y.

(** A fix without a time, followed by one about 111 m to the north. *)
Definition fix_untimed : Point :=
  mkPoint 46 7 500 None None None None None None None.

Definition untimed_jump_track : list Point := [fix_untimed; fix_after_jump].

(** ** Chart interaction *)

Definition isDate (d : XValue) : Prop :=
  match d with XDate _ => True | _ => False end.

(** The values of an axis are all of one kind as far as the lookup can
    tell: after a [Date] come only [Date]s. *)
Definition uniformAxis (data : list XValue) : Prop :=
  match data with
  | XDate _ :: others => Forall isDate others
  | _ => True
  end.

(** The place on the axis that a relative position stands for. *)
Definition axisTarget (first : R) (rest : list R) (relativeX : R) : R :=
  JS.min_of first rest +
  relativeX * (JS.max_of first rest - JS.min_of first rest).

(** ** Distances in double arithmetic *)

Module Binary64Samples.
Import PrimFloat.
Local Open Scope float_scope.









End Binary64Samples.

(** * Properties *)

(** ** Facts about the primitives *)

Lemma rem_by_whole_turns (x y : R) :
  exists k : Z, JS.rem x y = x - y * IZR k.
Proof. exists (JS.trunc (x / y)). reflexivity. Qed.

Lemma cos_minus_turns_nat (x : R) (n : nat) :
  cos (x - 2 * INR n * PI) = cos x.
Proof.
  rewrite <- (cos_period (x - 2 * INR n * PI) n).
  f_equal. ring.
Qed.

Lemma cos_whole_turns (x : R) (k : Z) : cos (x - 2 * IZR k * PI) = cos x.
Proof.
  destruct (Z_le_gt_dec 0 k) as [Hk | Hk].
  - rewrite <- (Z2Nat.id k Hk), <- INR_IZR_INZ.
    apply cos_minus_turns_nat.
  - assert (Hn : (0 <= - k)%Z) by lia.
    replace (x - 2 * IZR k * PI) with (x + 2 * IZR (- k) * PI)
      by (rewrite opp_IZR; ring).
    rewrite <- (Z2Nat.id (- k) Hn), <- INR_IZR_INZ.
    apply cos_period.
Qed.

Lemma cos_relative_angle (d : R) :
  cos (toRadians (JS.rem (d + 180) 360 - 180)) = cos (toRadians d).
Proof.
  destruct (rem_by_whole_turns (d + 180) 360) as [k ->].
  unfold toRadians.
  replace ((d + 180 - 360 * IZR k - 180) * (PI / 180))
    with (d * (PI / 180) - 2 * IZR k * PI) by field.
  apply cos_whole_turns.
Qed.

Lemma trunc_of_Z (z : Z) : JS.trunc (IZR z) = z.
Proof.
  unfold JS.trunc. destruct (Rle_dec 0 (IZR z)).
  - apply ZfloorZ.
  - unfold Zceil. rewrite <- opp_IZR, ZfloorZ. lia.
Qed.

Lemma atan2_nonneg (y x : R) : 0 <= y -> 0 <= x -> 0 <= JS.atan2 y x.
Proof.
  intros Hy Hx. unfold JS.atan2.
  assert (HPI := PI_RGT_0).
  destruct (Rlt_dec 0 x) as [Hpos | Hnpos].
  - destruct Hy as [Hy | <-].
    + left. rewrite <- atan_0. apply atan_increasing.
      apply Rdiv_lt_0_compat; assumption.
    + unfold Rdiv. rewrite Rmult_0_l, atan_0. lra.
  - destruct (Rlt_dec x 0); [lra |].
    destruct (Rlt_dec 0 y); [lra |].
    destruct (Rlt_dec y 0); lra.
Qed.

Lemma haversineDistance_nonneg (lat1 lon1 lat2 lon2 : R) :
  0 <= haversineDistance lat1 lon1 lat2 lon2.
Proof.
  unfold haversineDistance. cbv zeta.
  match goal with
  | |- 0 <= _ * (2 * JS.atan2 (sqrt ?a) (sqrt ?b)) =>
      pose proof (atan2_nonneg (sqrt a) (sqrt b) (sqrt_pos a) (sqrt_pos b))
  end.
  nra.
Qed.

Lemma toRadians_range (x : R) :
  -90 <= x <= 90 -> - (PI / 2) <= toRadians x <= PI / 2.
Proof.
  intros [Hlo Hhi]. pose proof PI_RGT_0 as HPI. unfold toRadians.
  split; nra.
Qed.

(** On latitudes of the valid range both square roots of
    [haversineDistance] are taken of numbers between 0 and 1: the formula
    never leaves the domain of [Math.sqrt]. *)
Lemma haversine_argument_range (lat1 lon1 lat2 lon2 : R) :
  -90 <= lat1 <= 90 -> -90 <= lat2 <= 90 ->
  0 <= sin (toRadians (lat2 - lat1) / 2) * sin (toRadians (lat2 - lat1) / 2) +
       cos (toRadians lat1) * cos (toRadians lat2) *
       sin (toRadians (lon2 - lon1) / 2) * sin (toRadians (lon2 - lon1) / 2)
    <= 1.
Proof.
  intros H1 H2.
  destruct (toRadians_range _ H1) as [H1lo H1hi].
  destruct (toRadians_range _ H2) as [H2lo H2hi].
  set (p1 := toRadians lat1) in *. set (p2 := toRadians lat2) in *.
  set (g := toRadians (lon2 - lon1) / 2).
  replace (toRadians (lat2 - lat1) / 2) with ((p2 - p1) / 2)
    by (unfold p1, p2, toRadians; field).
  set (h := (p2 - p1) / 2). set (m := (p1 + p2) / 2).
  assert (Hc1 : 0 <= cos p1) by (apply cos_ge_0; assumption).
  assert (Hc2 : 0 <= cos p2) by (apply cos_ge_0; assumption).
  assert (E1 : cos p1 = cos m * cos h + sin m * sin h).
  { rewrite <- cos_minus. f_equal. unfold m, h. field. }
  assert (E2 : cos p2 = cos m * cos h - sin m * sin h).
  { rewrite <- cos_plus. f_equal. unfold m, h. field. }
  pose proof (sin2_cos2 m) as Sm. pose proof (sin2_cos2 h) as Sh.
  pose proof (sin2_cos2 g) as Sg. unfold Rsqr in Sm, Sh, Sg.
  assert (Hg0 : 0 <= sin g * sin g) by nra.
  assert (Hg1 : sin g * sin g <= 1) by nra.
  assert (Hprod : 0 <= cos p1 * cos p2) by nra.
  assert (Hsum : sin h * sin h + cos p1 * cos p2 = cos m * cos m).
  { rewrite E1, E2. nra. }
  split.
  - assert (0 <= cos p1 * cos p2 * (sin g * sin g)) by nra. nra.
  - assert (cos p1 * cos p2 * (sin g * sin g) <= cos p1 * cos p2) by nra.
    nra.
Qed.

(** Along a meridian the distance is the arc of the latitude difference. *)
Lemma haversineDistance_meridian (lat1 lat2 lon0 : R) :
  0 <= lat2 - lat1 < 180 ->
  haversineDistance lat1 lon0 lat2 lon0 = 6371000 * toRadians (lat2 - lat1).
Proof.
  intros [Hlo Hhi].
  assert (HPI := PI_RGT_0).
  unfold haversineDistance. cbv zeta.
  set (t := toRadians (lat2 - lat1) / 2).
  assert (Ht : 0 <= t < PI / 2).
  { unfold t, toRadians. split.
    - apply Rmult_le_pos; [| lra]. apply Rmult_le_pos; lra.
    - apply Rmult_lt_reg_r with (r := 360 / PI).
      + apply Rdiv_lt_0_compat; lra.
      + replace ((lat2 - lat1) * (PI / 180) / 2 * (360 / PI))
          with (lat2 - lat1) by (field; lra).
        replace (PI / 2 * (360 / PI)) with 180 by (field; lra).
        exact Hhi. }
  replace (toRadians (lon0 - lon0) / 2) with 0
    by (unfold toRadians; field).
  rewrite sin_0.
  assert (Hc : 0 < cos t) by (apply cos_gt_0; lra).
  assert (Hs : 0 <= sin t) by (apply sin_ge_0; lra).
  replace (sin t * sin t +
           cos (toRadians lat1) * cos (toRadians lat2) * 0 * 0)
    with (sin t * sin t) by ring.
  replace (1 - sin t * sin t) with (cos t * cos t).
  2:{ pose proof (sin2_cos2 t) as H. unfold Rsqr in H. lra. }
  rewrite (sqrt_square (sin t) Hs), (sqrt_square (cos t)) by lra.
  unfold JS.atan2. destruct (Rlt_dec 0 (cos t)); [| lra].
  change (sin t / cos t) with (tan t).
  rewrite atan_tan by lra.
  unfold t. field.
Qed.

(** ** Wind exposure *)

Lemma toRadians_0 : toRadians 0 = 0.
Proof. unfold toRadians. ring. Qed.

Lemma toRadians_180 : toRadians 180 = PI.
Proof. unfold toRadians. field. Qed.

Lemma toRadians_90 : toRadians 90 = PI / 2.
Proof. unfold toRadians. field. Qed.

Lemma relativeWind_wind_faced (p : Point) (ws wd b : R) :
  wind_speed p = Some ws -> wind_direction p = Some wd ->
  bearing p = Some b ->
  wind_faced (relativeWind p) = Some (ws * cos (toRadians (wd - b))).
Proof.
  intros Hs Hd Hb. unfold relativeWind. simpl.
  rewrite Hs, Hd, Hb. rewrite cos_relative_angle. reflexivity.
Qed.

(** C1: every point that [calculateRelativeWind] leaves with a wind speed,
    a wind direction and a bearing has [wind_faced] equal to the wind
    speed times the cosine of (wind direction - bearing), in radians.
    With bearing 0 and wind speed 20 this is 20 for a wind from 0 degrees
    (headwind), -20 for a wind from 180 degrees (tailwind) and 0 for a
    wind from 90 degrees (crosswind). *)
Theorem wind_faced_cosine_component
    (gpxData : list Point) (i : nat) (q : Point) (ws wd b : R) :
  nth_error (calculateRelativeWind gpxData) i = Some q ->
  wind_speed q = Some ws ->
  wind_direction q = Some wd ->
  bearing q = Some b ->
  wind_faced q = Some (ws * cos (toRadians (wd - b))) /\
  (b = 0 -> ws = 20 ->
     (wd = 0 -> wind_faced q = Some 20) /\
     (wd = 180 -> wind_faced q = Some (-20)) /\
     (wd = 90 -> wind_faced q = Some 0)).
Proof.
  intros Hq Hs Hd Hb.
  unfold calculateRelativeWind in Hq.
  rewrite nth_error_map in Hq.
  destruct (nth_error gpxData i) as [p |]; [| discriminate].
  simpl in Hq. injection Hq as <-.
  simpl in Hs, Hd, Hb.
  assert (Hgen := relativeWind_wind_faced p ws wd b Hs Hd Hb).
  split; [exact Hgen |].
  intros -> ->. rewrite Hgen. repeat split; intros ->; f_equal.
  - replace (0 - 0) with 0 by ring. rewrite toRadians_0, cos_0. ring.
  - replace (180 - 0) with 180 by ring. rewrite toRadians_180, cos_PI. ring.
  - replace (90 - 0) with 90 by ring. rewrite toRadians_90, cos_PI2. ring.
Qed.

Lemma wind_faced_cosine_component_witness :
  wind_faced (relativeWind northbound_point) =
    Some (20 * cos (toRadians (0 - 0))) /\
  wind_faced (relativeWind northbound_point) = Some 20.
Proof.
  destruct (wind_faced_cosine_component [northbound_point] 0
              (relativeWind northbound_point) 20 0 0
              eq_refl eq_refl eq_refl eq_refl) as [Hgen Hcases].
  split; [exact Hgen |].
  apply (Hcases eq_refl eq_refl). reflexivity.
Defined.

(** ** Temporal interpolation *)

(** The loop of [findSurroundingWindData] sets both results or neither. *)
Lemma findSurroundingWindData_both_or_none
    (windData : list WindSample) (targetTime : Z) :
  (exists before after,
      findSurroundingWindData windData targetTime =
        (Some before, Some after) /\
      (w_time before <= targetTime <= w_time after)%Z) \/
  findSurroundingWindData windData targetTime = (None, None).
Proof.
  induction windData as [| wi rest IH]; [right; reflexivity |].
  destruct rest as [| wi1 rest']; [right; reflexivity |].
  cbn [findSurroundingWindData].
  destruct ((w_time wi <=? targetTime)%Z && (w_time wi1 >=? targetTime)%Z)
    eqn:Hb.
  - left. exists wi, wi1. split; [reflexivity |].
    apply andb_true_iff in Hb. destruct Hb as [H1 H2].
    apply Z.leb_le in H1. apply Z.geb_le in H2. lia.
  - exact IH.
Qed.

Lemma interpolateWindForPoint_bracket
    (w0 w1 : WindSample) (rest : list WindSample) (gpxPoint : Point)
    (before after : WindSample) :
  findSurroundingWindData (w0 :: w1 :: rest)
    (JS.time_value (time gpxPoint)) = (Some before, Some after) ->
  interpolateWindForPoint (w0 :: w1 :: rest) gpxPoint =
  interpolateBetweenWindPoints before after (JS.time_value (time gpxPoint)).
Proof.
  intros H. unfold interpolateWindForPoint. rewrite H. reflexivity.
Qed.

(** No pair brackets a time that lies after every sample. *)
Lemma findSurroundingWindData_after_all
    (windData : list WindSample) (targetTime : Z) :
  Forall (fun w => (w_time w < targetTime)%Z) windData ->
  findSurroundingWindData windData targetTime = (None, None).
Proof.
  induction windData as [| wi rest IH]; intros Hall; [reflexivity |].
  destruct rest as [| wi1 rest']; [reflexivity |].
  cbn [findSurroundingWindData].
  inversion Hall as [| ? ? _ Hrest]; subst.
  inversion Hrest as [| ? ? Hwi1 _]; subst.
  rewrite Z.geb_leb.
  replace (targetTime <=? w_time wi1)%Z with false
    by (symmetry; apply Z.leb_gt; exact Hwi1).
  rewrite andb_false_r. apply IH. exact Hrest.
Qed.

(** Without a bracketing pair and with at least two samples, the point
    gets the values of the first sample of [windData]. *)
Lemma interpolateWindForPoint_no_bracket
    (w0 w1 : WindSample) (rest : list WindSample) (gpxPoint : Point) :
  findSurroundingWindData (w0 :: w1 :: rest)
    (JS.time_value (time gpxPoint)) = (None, None) ->
  interpolateWindForPoint (w0 :: w1 :: rest) gpxPoint = valuesOf w0.
Proof.
  intros H. unfold interpolateWindForPoint. rewrite H. reflexivity.
Qed.

(** C2: at a track point later than every sample the nearest preceding
    sample exists (the last one, with speed 7 from 200 degrees), no pair
    brackets the point, and [interpolateWindForPoint] returns the values
    of the first sample (speed 5 from 100 degrees) instead. *)
Theorem interpolateWindForPoint_after_last_sample :
  (w_time sample_start < w_time sample_half_hour
     < JS.time_value (time point_after_samples))%Z /\
  findSurroundingWindData [sample_start; sample_half_hour]
    (JS.time_value (time point_after_samples)) = (None, None) /\
  interpolateWindForPoint [sample_start; sample_half_hour]
    point_after_samples = mkWindValues 5 100 /\
  valuesOf sample_half_hour = mkWindValues 7 200 /\
  interpolateWindForPoint [sample_start; sample_half_hour]
    point_after_samples <> valuesOf sample_half_hour.
Proof.
  assert (Hnone : findSurroundingWindData [sample_start; sample_half_hour]
            (JS.time_value (time point_after_samples)) = (None, None))
    by reflexivity.
  assert (Hres : interpolateWindForPoint [sample_start; sample_half_hour]
            point_after_samples = mkWindValues 5 100).
  { rewrite interpolateWindForPoint_no_bracket by exact Hnone.
    reflexivity. }
  repeat split; try assumption; try reflexivity.
  rewrite Hres. unfold valuesOf. simpl. intros Heq.
  injection Heq as H5 _. lra.
Qed.

(** ** Kinematics pass: structure of the output *)

Lemma calculatePointMetrics_keeps (prev curr : Point) (cum : JS.num) :
  lat (calculatePointMetrics prev curr cum) = lat curr /\
  lon (calculatePointMetrics prev curr cum) = lon curr /\
  time (calculatePointMetrics prev curr cum) = time curr.
Proof. repeat split. Qed.

Lemma calculatePointMetrics_speed (prev curr : Point) (cum : JS.num) :
  speed_kmh (calculatePointMetrics prev curr cum) =
  Some (calculateSpeed
          (haversineDistance (lat prev) (lon prev) (lat curr) (lon curr))
          (IZR (JS.time_value (time curr) - JS.time_value (time prev)) / 1000)
          (speed_kmh prev)).
Proof. reflexivity. Qed.

Lemma calculatePointMetrics_distance (prev curr : Point) (c : R) :
  distance_km (calculatePointMetrics prev curr (Some c)) =
  Some ((c + haversineDistance (lat prev) (lon prev) (lat curr) (lon curr))
        / 1000).
Proof. reflexivity. Qed.

(** Every element the loop writes comes from [calculatePointMetrics],
    applied to the rewritten predecessor and the element of the input. *)
Lemma kinematicsLoop_nth (rest : list Point) :
  forall (prev : Point) (cum : JS.num) (i : nat) (q : Point),
    nth_error (kinematicsLoop prev cum rest) i = Some q ->
    exists p c cum',
      nth_error (prev :: kinematicsLoop prev cum rest) i = Some p /\
      nth_error rest i = Some c /\
      q = calculatePointMetrics p c cum'.
Proof.
  induction rest as [| curr rest' IH]; intros prev cum i q Hq.
  - destruct i; discriminate.
  - destruct i as [| j].
    + simpl in Hq. injection Hq as <-.
      exists prev, curr, cum. repeat split.
    + cbn [kinematicsLoop nth_error] in Hq.
      destruct (IH _ _ _ _ Hq) as (p & c & cum' & Hp & Hc & Heq).
      exists p, c, cum'. repeat split; assumption.
Qed.

Lemma calculateSpeedAndBearing_nth (gpxData : list Point) (i : nat)
    (prev curr : Point) :
  nth_error (calculateSpeedAndBearing gpxData) i = Some prev ->
  nth_error (calculateSpeedAndBearing gpxData) (S i) = Some curr ->
  exists c cum',
    nth_error gpxData (S i) = Some c /\
    curr = calculatePointMetrics prev c cum'.
Proof.
  destruct gpxData as [| first rest]; [destruct i; discriminate |].
  cbn [calculateSpeedAndBearing]. intros Hp Hc.
  cbn [nth_error] in Hc.
  destruct (kinematicsLoop_nth _ _ _ _ _ Hc) as (p & c & cum' & Hp' & Hc' & ->).
  rewrite Hp in Hp'. injection Hp' as <-.
  exists c, cum'. split; [exact Hc' | reflexivity].
Qed.

(** ** Speed bounds (C9) *)

Lemma calculateSpeed_bounds (distance timeDiff sp : R) :
  0 <= distance -> 0 <= sp <= 100 ->
  0 <= calculateSpeed distance timeDiff (Some sp) <= 100.
Proof.
  intros Hd Hsp. unfold calculateSpeed, CONSTANTS.MAX_REALISTIC_SPEED.
  cbn [JS.param_default JS.or_num].
  destruct (Rle_dec timeDiff 0); [lra |].
  destruct (Rle_dec distance 0); [lra |].
  destruct (Rgt_dec (distance / timeDiff * 3.6) 100).
  - destruct (Req_dec_T sp 0); lra.
  - split; [| lra].
    assert (0 < distance / timeDiff) by (apply Rdiv_lt_0_compat; lra).
    lra.
Qed.

Lemma kinematicsLoop_speedInRange (rest : list Point) :
  forall (prev : Point) (cum : JS.num),
    speedInRange prev ->
    Forall speedInRange (kinematicsLoop prev cum rest).
Proof.
  induction rest as [| curr rest' IH]; intros prev cum [sp [Hsp Hb]].
  - constructor.
  - cbn [kinematicsLoop].
    assert (Hcurr : speedInRange (calculatePointMetrics prev curr cum)).
    { eexists. split; [apply calculatePointMetrics_speed |].
      rewrite Hsp. apply calculateSpeed_bounds;
        [apply haversineDistance_nonneg | exact Hb]. }
    constructor; [exact Hcurr | apply IH; exact Hcurr].
Qed.

Lemma calculateSpeedAndBearing_speedInRange (gpxData : list Point) :
  Forall speedInRange (calculateSpeedAndBearing gpxData).
Proof.
  destruct gpxData as [| first rest]; [constructor |].
  cbn [calculateSpeedAndBearing].
  assert (H0 : speedInRange (setKinematics first (Some 0) (Some 0) (Some 0))).
  { exists 0. split; [reflexivity | lra]. }
  constructor; [exact H0 |].
  apply kinematicsLoop_speedInRange. exact H0.
Qed.


(** ** Cumulative distance (C5) *)



(** ** Idempotence of the pass (C6) *)

Lemma calculatePointMetrics_again (prev curr : Point) (cum cum0 : JS.num) :
  calculatePointMetrics prev (calculatePointMetrics prev curr cum0) cum =
  calculatePointMetrics prev curr cum.
Proof. reflexivity. Qed.

Lemma kinematicsLoop_again (rest : list Point) :
  forall (prev : Point) (cum : JS.num),
    kinematicsLoop prev cum (kinematicsLoop prev cum rest) =
    kinematicsLoop prev cum rest.
Proof.
  induction rest as [| curr rest' IH]; intros prev cum; [reflexivity |].
  cbn [kinematicsLoop].
  rewrite calculatePointMetrics_again.
  f_equal. apply IH.
Qed.

(** The pass reads the place and time of the points only. *)
Lemma calculatePointMetrics_sameFix (prev prev' curr curr' : Point)
    (cum : JS.num) :
  sameFix prev prev' -> kinematicFields prev = kinematicFields prev' ->
  sameFix curr curr' ->
  sameFix (calculatePointMetrics prev curr cum)
          (calculatePointMetrics prev' curr' cum) /\
  kinematicFields (calculatePointMetrics prev curr cum) =
  kinematicFields (calculatePointMetrics prev' curr' cum).
Proof.
  intros (Hlat & Hlon & Htime) Hkin (Glat & Glon & Gtime).
  unfold kinematicFields in Hkin. injection Hkin as _ Hspeed Hbearing.
  split; [repeat split; assumption |].
  unfold kinematicFields, calculatePointMetrics, calculatePointBearing.
  cbn [setKinematics distance_km speed_kmh bearing].
  rewrite Hlat, Hlon, Htime, Glat, Glon, Gtime, Hspeed, Hbearing.
  reflexivity.
Qed.

Lemma kinematicsLoop_sameFix (rest rest' : list Point) :
  Forall2 sameFix rest rest' ->
  forall (prev prev' : Point) (cum : JS.num),
    sameFix prev prev' -> kinematicFields prev = kinematicFields prev' ->
    map kinematicFields (kinematicsLoop prev cum rest) =
    map kinematicFields (kinematicsLoop prev' cum rest').
Proof.
  induction 1 as [| curr curr' rest rest' Hcurr _ IH];
    intros prev prev' cum Hfix Hkin; [reflexivity |].
  cbn [kinematicsLoop map].
  destruct (calculatePointMetrics_sameFix prev prev' curr curr' cum
              Hfix Hkin Hcurr) as [Hfix1 Hkin1].
  rewrite Hkin1. f_equal.
  assert (Hd : distance_km (calculatePointMetrics prev curr cum) =
               distance_km (calculatePointMetrics prev' curr' cum)).
  { unfold kinematicFields in Hkin1. injection Hkin1 as Hd _ _. exact Hd. }
  rewrite Hd. apply IH; assumption.
Qed.

Lemma calculateSpeedAndBearing_sameFix (gpxData gpxData' : list Point) :
  Forall2 sameFix gpxData gpxData' ->
  map kinematicFields (calculateSpeedAndBearing gpxData) =
  map kinematicFields (calculateSpeedAndBearing gpxData').
Proof.
  intros [| first first' rest rest' Hfirst Hrest]; [reflexivity |].
  cbn [calculateSpeedAndBearing map]. f_equal.
  apply kinematicsLoop_sameFix;
    [exact Hrest | exact Hfirst | reflexivity].
Qed.

Lemma interpolateWindAlongRoute_sameFix
    (windData : list WindSample) (gpxData : list Point) :
  Forall2 sameFix (interpolateWindAlongRoute windData gpxData) gpxData.
Proof.
  unfold interpolateWindAlongRoute, calculateRelativeWind.
  rewrite map_map.
  induction gpxData as [| p rest IH]; constructor.
  - repeat split.
  - exact IH.
Qed.

(** C6: running the kinematics pass on its own output changes nothing:
    every point keeps its cumulative distance, speed and bearing; the
    same holds when the wind fields have been added in between. *)
Theorem calculateSpeedAndBearing_idempotent (gpxData : list Point) :
  calculateSpeedAndBearing (calculateSpeedAndBearing gpxData) =
    calculateSpeedAndBearing gpxData /\
  map kinematicFields
      (calculateSpeedAndBearing (calculateSpeedAndBearing gpxData)) =
    map kinematicFields (calculateSpeedAndBearing gpxData) /\
  forall windData,
    map kinematicFields
        (calculateSpeedAndBearing
           (interpolateWindAlongRoute windData
              (calculateSpeedAndBearing gpxData))) =
    map kinematicFields (calculateSpeedAndBearing gpxData).
Proof.
  assert (H : calculateSpeedAndBearing (calculateSpeedAndBearing gpxData) =
              calculateSpeedAndBearing gpxData).
  { destruct gpxData as [| first rest]; [reflexivity |].
    cbn [calculateSpeedAndBearing].
    change (setKinematics (setKinematics first (Some 0) (Some 0) (Some 0))
              (Some 0) (Some 0) (Some 0))
      with (setKinematics first (Some 0) (Some 0) (Some 0)).
    f_equal. apply kinematicsLoop_again. }
  split; [exact H |]. split; [rewrite H; reflexivity |].
  intros windData.
  rewrite (calculateSpeedAndBearing_sameFix _ _
             (interpolateWindAlongRoute_sameFix windData
                (calculateSpeedAndBearing gpxData))).
  rewrite H. reflexivity.
Qed.

(** ** Total distance (C10) *)


Lemma last_cons {A : Type} (a d : A) (l : list A) :
  last (a :: l) d = last l a.
Proof.
  revert a d. induction l as [| b l IH]; intros a d; [reflexivity |].
  change (last (a :: b :: l) d) with (last (b :: l) d).
  rewrite (IH b d), (IH b a). reflexivity.
Qed.





Module Binary64Facts.
Import PrimFloat.
Local Open Scope float_scope.



End Binary64Facts.



(** ** The speed rule (C3) *)

Lemma calculateSpeed_above_ceiling (distance timeDiff sp : R) :
  0 < timeDiff -> 100 < distance / timeDiff * 3.6 ->
  calculateSpeed distance timeDiff (Some sp) =
    if Req_dec_T sp 0 then 20 else sp.
Proof.
  intros Hdt Hs. unfold calculateSpeed, CONSTANTS.MAX_REALISTIC_SPEED.
  cbn [JS.param_default JS.or_num].
  destruct (Rle_dec timeDiff 0); [lra |].
  destruct (Rle_dec distance 0) as [Hz |].
  - exfalso.
    assert (distance / timeDiff <= 0).
    { unfold Rdiv. assert (0 < / timeDiff) by (apply Rinv_0_lt_compat; lra).
      nra. }
    lra.
  - destruct (Rgt_dec (distance / timeDiff * 3.6) 100); [reflexivity | lra].
Qed.

Lemma gps_jump_track_output :
  calculateSpeedAndBearing gps_jump_track = [jump_prev; jump_curr].
Proof. reflexivity. Qed.

Lemma gps_jump_timeDiff : timeDiffSeconds jump_prev jump_curr = 1.
Proof.
  unfold timeDiffSeconds.
  change (JS.time_value (time jump_curr)) with 1700000001000%Z.
  change (JS.time_value (time jump_prev)) with 1700000000000%Z.
  replace (1700000001000 - 1700000000000)%Z with 1000%Z by reflexivity.
  field.
Qed.

Lemma gps_jump_impliedSpeed : 100 < impliedSpeed jump_prev jump_curr.
Proof.
  assert (Hd : impliedDistance jump_prev jump_curr =
               6371000 * toRadians (46.001 - 46)).
  { change (impliedDistance jump_prev jump_curr)
      with (haversineDistance 46 7 46.001 7).
    apply haversineDistance_meridian. lra. }
  assert (HPI : 3 < PI) by (pose proof PI2_3_2; lra).
  unfold impliedSpeed. rewrite gps_jump_timeDiff, Hd. unfold toRadians. lra.
Qed.

Lemma gps_jump_speed :
  speed_kmh jump_prev = Some 0 /\ speed_kmh jump_curr = Some 20.
Proof.
  split; [reflexivity |].
  unfold jump_curr. rewrite calculatePointMetrics_speed.
  change (speed_kmh jump_prev) with (Some 0).
  change (calculateSpeed _ _ (Some 0))
    with (calculateSpeed (impliedDistance jump_prev jump_curr)
            (timeDiffSeconds jump_prev jump_curr) (Some 0)).
  rewrite calculateSpeed_above_ceiling.
  - destruct (Req_dec_T 0 0); [reflexivity | lra].
  - rewrite gps_jump_timeDiff. lra.
  - exact gps_jump_impliedSpeed.
Qed.

(** C3 as specified fails on the jump: the second fix is given 20 km/h
    although the previous speed is set (to 0). *)
Lemma speedRuleAsSpecified_fails : ~ speedRuleAsSpecified gps_jump_track.
Proof.
  intros Hrule.
  destruct gps_jump_speed as [Hp Hc].
  destruct (Hrule 0%nat jump_prev jump_curr) as [_ H].
  - rewrite gps_jump_track_output. reflexivity.
  - rewrite gps_jump_track_output. reflexivity.
  - destruct H as [_ H]; [rewrite gps_jump_timeDiff; lra |].
    specialize (H gps_jump_impliedSpeed). rewrite Hp, Hc in H.
    injection H as H. lra.
Qed.

(** C3, amended: for consecutive points of the pass output, a time
    difference of at most 0 carries the previous speed over; otherwise
    the speed is (d/dt) x 3.6 when that is at most 100, and above the
    ceiling it is the previous speed when that is not 0, and 20 km/h
    when the previous speed is 0. *)
Theorem kinematics_speed_rule
    (gpxData : list Point) (i : nat) (prev curr : Point) :
  nth_error (calculateSpeedAndBearing gpxData) i = Some prev ->
  nth_error (calculateSpeedAndBearing gpxData) (S i) = Some curr ->
  exists sp,
    speed_kmh prev = Some sp /\
    (timeDiffSeconds prev curr <= 0 -> speed_kmh curr = Some sp) /\
    (0 < timeDiffSeconds prev curr -> impliedSpeed prev curr <= 100 ->
       speed_kmh curr = Some (impliedSpeed prev curr)) /\
    (0 < timeDiffSeconds prev curr -> 100 < impliedSpeed prev curr ->
       sp <> 0 -> speed_kmh curr = Some sp) /\
    (0 < timeDiffSeconds prev curr -> 100 < impliedSpeed prev curr ->
       sp = 0 -> speed_kmh curr = Some 20).
Proof.
  intros Hp Hc.
  destruct (calculateSpeedAndBearing_nth _ _ _ _ Hp Hc)
    as (c & cum' & _ & ->).
  pose proof (calculateSpeedAndBearing_speedInRange gpxData) as Hall.
  rewrite Forall_forall in Hall.
  destruct (Hall prev (nth_error_In _ _ Hp)) as (sp & Hsp & _).
  exists sp. split; [exact Hsp |].
  rewrite calculatePointMetrics_speed, Hsp.
  unfold impliedSpeed, impliedDistance, timeDiffSeconds.
  cbn [lat lon time calculatePointMetrics setKinematics].
  set (d := haversineDistance (lat prev) (lon prev) (lat c) (lon c)).
  set (dt := IZR (JS.time_value (time c) - JS.time_value (time prev)) / 1000).
  assert (Hd : 0 <= d) by apply haversineDistance_nonneg.
  unfold calculateSpeed, CONSTANTS.MAX_REALISTIC_SPEED.
  cbn [JS.param_default JS.or_num].
  repeat split.
  - intros Hdt. destruct (Rle_dec dt 0); [reflexivity | lra].
  - intros Hdt Hs. destruct (Rle_dec dt 0); [lra |].
    destruct (Rle_dec d 0) as [Hz |].
    + f_equal. replace d with 0 by lra. field. lra.
    + destruct (Rgt_dec (d / dt * 3.6) 100); [lra | reflexivity].
  - intros Hdt Hs Hne. destruct (Rle_dec dt 0); [lra |].
    destruct (Rle_dec d 0) as [Hz |].
    + exfalso. replace d with 0 in Hs by lra.
      replace (0 / dt * 3.6) with 0 in Hs by (field; lra). lra.
    + destruct (Rgt_dec (d / dt * 3.6) 100); [| lra].
      destruct (Req_dec_T sp 0); [contradiction | reflexivity].
  - intros Hdt Hs Hz0. destruct (Rle_dec dt 0); [lra |].
    destruct (Rle_dec d 0) as [Hz |].
    + exfalso. replace d with 0 in Hs by lra.
      replace (0 / dt * 3.6) with 0 in Hs by (field; lra). lra.
    + destruct (Rgt_dec (d / dt * 3.6) 100); [| lra].
      destruct (Req_dec_T sp 0); [reflexivity | contradiction].
Qed.

Lemma kinematics_speed_rule_witness :
  nth_error (calculateSpeedAndBearing gps_jump_track) 0 = Some jump_prev /\
  nth_error (calculateSpeedAndBearing gps_jump_track) 1 = Some jump_curr /\
  0 < timeDiffSeconds jump_prev jump_curr /\
  100 < impliedSpeed jump_prev jump_curr /\
  speed_kmh jump_prev = Some 0 /\
  speed_kmh jump_curr = Some 20.
Proof.
  assert (Hdt : 0 < timeDiffSeconds jump_prev jump_curr)
    by (rewrite gps_jump_timeDiff; lra).
  repeat split; try reflexivity; try exact Hdt;
    try exact gps_jump_impliedSpeed.
  destruct (kinematics_speed_rule gps_jump_track 0 jump_prev jump_curr
              eq_refl eq_refl) as (sp & Hsp & _ & _ & _ & H20).
  apply (H20 Hdt gps_jump_impliedSpeed).
  change (speed_kmh jump_prev) with (Some 0) in Hsp.
  injection Hsp as <-. reflexivity.
Defined.

(** ** Ingestion (C4, C8) *)

Lemma isValidCoordinate_numbers (la lo : JS.num) :
  isValidCoordinate la lo = true ->
  exists a b, la = Some a /\ lo = Some b /\ a <> 0 /\ b <> 0.
Proof.
  destruct la as [a |], lo as [b |]; try discriminate.
  unfold isValidCoordinate, truthy. intros H.
  exists a, b.
  destruct (Req_dec_T a 0); [discriminate |].
  destruct (Req_dec_T b 0); [discriminate |].
  repeat split; assumption.
Qed.

Lemma isValidCoordinate_zero (la lo : JS.num) :
  la = Some 0 \/ lo = Some 0 -> isValidCoordinate la lo = false.
Proof.
  intros Hz. destruct (isValidCoordinate la lo) eqn:Hv; [| reflexivity].
  destruct (isValidCoordinate_numbers _ _ Hv) as (a & b & -> & -> & Ha & Hb).
  destruct Hz as [Hz | Hz]; injection Hz as ->; contradiction.
Qed.

Section IngestionProperties.

Variable Date_parse : string -> option Z.
Variable getFullYear : Z -> Z.
Variable trim : string -> string.

Lemma extractLoop_skip (r : RawPoint) (rest : list RawPoint) :
  coordinateValid r = false ->
  extractLoop Date_parse trim (r :: rest) = extractLoop Date_parse trim rest.
Proof.
  unfold coordinateValid. intros H. cbn [extractLoop]. rewrite H. reflexivity.
Qed.

Lemma extractLoop_keep (r : RawPoint) (rest : list RawPoint) :
  coordinateValid r = true ->
  exists p, extractLoop Date_parse trim (r :: rest) =
              p :: extractLoop Date_parse trim rest /\
            time p = extractTimestamp Date_parse trim r /\
            raw_lat r = Some (lat p) /\ raw_lon r = Some (lon p).
Proof.
  unfold coordinateValid. intros H. cbn [extractLoop]. rewrite H.
  destruct (isValidCoordinate_numbers _ _ H) as (a & b & Ha & Hb & _).
  rewrite Ha, Hb. eexists. repeat split.
Qed.

Lemma extractLoop_hasValidTime (l : list RawPoint) :
  existsb (hasValidTime getFullYear) (extractLoop Date_parse trim l) =
  existsb (fun r => coordinateValid r &&
                    usableTimestamp Date_parse getFullYear trim r) l.
Proof.
  induction l as [| r rest IH]; [reflexivity |].
  destruct (coordinateValid r) eqn:Hv.
  - destruct (extractLoop_keep r rest Hv) as (p & -> & Ht & _).
    cbn [existsb]. rewrite Hv, IH. f_equal.
    unfold hasValidTime, usableTimestamp. rewrite Ht. reflexivity.
  - rewrite (extractLoop_skip r rest Hv). cbn [existsb]. rewrite Hv. exact IH.
Qed.

Lemma extractLoop_nil (l : list RawPoint) :
  extractLoop Date_parse trim l = [] <->
  (forall r, In r l -> coordinateValid r = false).
Proof.
  induction l as [| r rest IH].
  - split; [intros _ r [] | reflexivity].
  - destruct (coordinateValid r) eqn:Hv.
    + destruct (extractLoop_keep r rest Hv) as (p & -> & _).
      split; [discriminate |].
      intros H. specialize (H r (or_introl eq_refl)). congruence.
    + rewrite (extractLoop_skip r rest Hv), IH. split.
      * intros H r' [<- | Hin]; [exact Hv | apply H; exact Hin].
      * intros H r' Hin. apply H. right. exact Hin.
Qed.

(** The three outcomes of the first half of [readGPXFile]. *)
Lemma readGPXFile_cases (xmlDoc : XmlDoc) :
  let trackPoints := selectTrackPoints xmlDoc in
  let points := extractLoop Date_parse trim trackPoints in
  (trackPoints = [] /\
   readGPXFile Date_parse getFullYear trim xmlDoc = inl NoGPSPointsFound) \/
  (trackPoints <> [] /\ points = [] /\
   readGPXFile Date_parse getFullYear trim xmlDoc = inl NoValidGPSPoints) \/
  (points <> [] /\ existsb (hasValidTime getFullYear) points = false /\
   readGPXFile Date_parse getFullYear trim xmlDoc = inl MissingTimestamps) \/
  (points <> [] /\ existsb (hasValidTime getFullYear) points = true /\
   readGPXFile Date_parse getFullYear trim xmlDoc <> inl MissingTimestamps).
Proof.
  intros trackPoints points. subst points trackPoints.
  unfold readGPXFile, extractGPXPoints.
  destruct (selectTrackPoints xmlDoc) as [| r0 rest] eqn:Hsel.
  { left. split; reflexivity. }
  right.
  destruct (extractLoop Date_parse trim (r0 :: rest)) as [| p0 ps] eqn:Hpts.
  { left. repeat split. discriminate. }
  right. unfold validateTimestamps.
  destruct (existsb (hasValidTime getFullYear) (p0 :: ps)) eqn:Hex.
  - right. repeat split; [discriminate |]. cbn [negb].
    destruct (sortByTime (p0 :: ps)) as [| f fs]; [discriminate |].
    destruct (time f); [| discriminate].
    destruct (time (last (f :: fs) f)); discriminate.
  - left. repeat split. discriminate.
Qed.

Lemma existsb_false_forall {A : Type} (f : A -> bool) (l : list A) :
  existsb f l = false <-> (forall x, In x l -> f x = false).
Proof.
  induction l as [| a l IH]; cbn [existsb].
  - split; [intros _ x [] | reflexivity].
  - rewrite orb_false_iff, IH. split.
    + intros [Ha Hl] x [<- | Hin]; [exact Ha | apply Hl; exact Hin].
    + intros H. split; [apply H; left; reflexivity |].
      intros x Hin. apply H. right. exact Hin.
Qed.

Lemma missing_timestamps_iff (xmlDoc : XmlDoc) :
  readGPXFile Date_parse getFullYear trim xmlDoc = inl MissingTimestamps <->
  (exists r, In r (selectTrackPoints xmlDoc) /\ coordinateValid r = true) /\
  (forall r, In r (selectTrackPoints xmlDoc) ->
             coordinateValid r = true ->
             usableTimestamp Date_parse getFullYear trim r = false).
Proof.
  assert (Hsome : extractLoop Date_parse trim (selectTrackPoints xmlDoc)
                    <> [] ->
            exists r, In r (selectTrackPoints xmlDoc) /\
                      coordinateValid r = true).
  { intros Hne.
    destruct (existsb coordinateValid (selectTrackPoints xmlDoc)) eqn:Hex.
    - apply existsb_exists in Hex. exact Hex.
    - exfalso. apply Hne. apply extractLoop_nil.
      apply existsb_false_forall. exact Hex. }
  assert (Hnone : forall l,
            existsb (fun r => coordinateValid r &&
                       usableTimestamp Date_parse getFullYear trim r) l
              = false <->
            (forall r, In r l -> coordinateValid r = true ->
                       usableTimestamp Date_parse getFullYear trim r = false)).
  { intros l. rewrite existsb_false_forall. split.
    - intros H r Hin Hv. specialize (H r Hin). rewrite Hv in H. exact H.
    - intros H r Hin. destruct (coordinateValid r) eqn:Hv; [| reflexivity].
      cbn [andb]. apply H; assumption. }
  destruct (readGPXFile_cases xmlDoc)
    as [[Hsel ->] | [(Hsel & Hpts & ->) | [(Hpts & Hex & ->) |
                                           (Hpts & Hex & Hneq)]]].
  - split; [discriminate |].
    intros [(r & Hin & _) _]. rewrite Hsel in Hin. destruct Hin.
  - split; [discriminate |].
    intros [(r & Hin & Hv) _].
    rewrite extractLoop_nil in Hpts. rewrite (Hpts r Hin) in Hv.
    discriminate.
  - split; [| reflexivity]. intros _. split; [apply Hsome; exact Hpts |].
    apply Hnone. rewrite <- extractLoop_hasValidTime. exact Hex.
  - split; [intros H; contradiction |].
    intros [_ Hall]. apply Hnone in Hall.
    rewrite <- extractLoop_hasValidTime in Hall. congruence.
Qed.

(** C4: on a document with at least one coordinate-valid point, ingestion
    raises the missing-timestamps error exactly when none of the
    coordinate-valid points has a parseable timestamp in a year after
    2000, and it does not raise it when one of them has such a timestamp.
    A document without a coordinate-valid point does not reach that
    check: it is rejected before it, for having no point elements or no
    valid GPS points.  In particular a non-empty track whose points all
    have valid coordinates and no time element raises the
    missing-timestamps error. *)
Theorem missing_timestamps_error (xmlDoc : XmlDoc) :
  ((exists r, In r (selectTrackPoints xmlDoc) /\ coordinateValid r = true) ->
   (readGPXFile Date_parse getFullYear trim xmlDoc = inl MissingTimestamps <->
    forall r, In r (selectTrackPoints xmlDoc) ->
              coordinateValid r = true ->
              usableTimestamp Date_parse getFullYear trim r = false)) /\
  ((exists r, In r (selectTrackPoints xmlDoc) /\ coordinateValid r = true /\
              usableTimestamp Date_parse getFullYear trim r = true) ->
   readGPXFile Date_parse getFullYear trim xmlDoc <> inl MissingTimestamps) /\
  ((forall r, In r (selectTrackPoints xmlDoc) -> coordinateValid r = false) ->
   readGPXFile Date_parse getFullYear trim xmlDoc =
     inl (match selectTrackPoints xmlDoc with
          | [] => NoGPSPointsFound
          | _ :: _ => NoValidGPSPoints
          end)) /\
  (selectTrackPoints xmlDoc <> [] ->
   Forall (fun r => coordinateValid r = true /\ raw_time r = None)
          (selectTrackPoints xmlDoc) ->
   readGPXFile Date_parse getFullYear trim xmlDoc = inl MissingTimestamps).
Proof.
  pose proof (missing_timestamps_iff xmlDoc) as Hiff.
  split; [| split; [| split]].
  - intros Hvalid. rewrite Hiff. split.
    + intros [_ Hall]. exact Hall.
    + intros Hall. split; assumption.
  - intros (r & Hin & Hv & Husable) Hread.
    apply Hiff in Hread. destruct Hread as [_ Hall].
    rewrite (Hall r Hin Hv) in Husable. discriminate.
  - intros Hnone.
    destruct (readGPXFile_cases xmlDoc)
      as [[Hsel ->] | [(Hsel & Hpts & ->) | [(Hpts & _) | (Hpts & _)]]].
    + rewrite Hsel. reflexivity.
    + destruct (selectTrackPoints xmlDoc); [contradiction | reflexivity].
    + exfalso. apply Hpts. apply extractLoop_nil. exact Hnone.
    + exfalso. apply Hpts. apply extractLoop_nil. exact Hnone.
  - intros Hne Hall. apply Hiff. rewrite Forall_forall in Hall. split.
    + destruct (selectTrackPoints xmlDoc) as [| r0 rest]; [contradiction |].
      exists r0. split; [left; reflexivity |].
      apply (Hall r0). left. reflexivity.
    + intros r Hin _. destruct (Hall r Hin) as [_ Htime].
      unfold usableTimestamp, extractTimestamp. rewrite Htime. reflexivity.
Qed.

(** C8: a point element whose latitude is exactly 0 or whose longitude is
    exactly 0 fails the coordinate check, whatever the other coordinate,
    and is left out of the extracted points; a track that has only such
    points is rejected for holding no valid GPS points. *)
Theorem zero_coordinates_dropped :
  (forall r, raw_lat r = Some 0 \/ raw_lon r = Some 0 ->
     isValidCoordinate (raw_lat r) (raw_lon r) = false /\
     forall before after,
       extractLoop Date_parse trim (before ++ r :: after) =
       extractLoop Date_parse trim (before ++ after)) /\
  (forall xmlDoc,
     selectTrackPoints xmlDoc <> [] ->
     Forall (fun r => raw_lat r = Some 0 \/ raw_lon r = Some 0)
            (selectTrackPoints xmlDoc) ->
     extractGPXPoints Date_parse trim xmlDoc = inr [] /\
     readGPXFile Date_parse getFullYear trim xmlDoc = inl NoValidGPSPoints).
Proof.
  split.
  - intros r Hz.
    assert (Hinv := isValidCoordinate_zero _ _ Hz).
    split; [exact Hinv |].
    intros before after. induction before as [| b before IH].
    + apply extractLoop_skip. exact Hinv.
    + cbn [app extractLoop]. rewrite IH. reflexivity.
  - intros xmlDoc Hne Hall.
    assert (Hnil : extractLoop Date_parse trim (selectTrackPoints xmlDoc)
                   = []).
    { apply extractLoop_nil. rewrite Forall_forall in Hall.
      intros r Hin. apply isValidCoordinate_zero. apply Hall. exact Hin. }
    unfold readGPXFile, extractGPXPoints.
    destruct (selectTrackPoints xmlDoc) as [| r0 rest]; [contradiction |].
    rewrite Hnil. split; reflexivity.
Qed.

End IngestionProperties.

(** ** Concrete documents for the ingestion properties *)

Ltac decide_reals :=
  repeat match goal with
  | |- context [Rle_dec ?a ?b] => destruct (Rle_dec a b); try lra
  | |- context [Req_dec_T ?a ?b] => destruct (Req_dec_T a b); try lra
  end.

Lemma off_range_point_invalid : coordinateValid off_range_point = false.
Proof.
  unfold coordinateValid, isValidCoordinate, truthy, Rleb.
  cbn [raw_lat raw_lon off_range_point].
  decide_reals.
Qed.

Lemma untimed_point_valid (la lo : R) :
  0 < la <= 90 -> 0 < lo <= 180 -> coordinateValid (untimed_point la lo) = true.
Proof.
  intros Hla Hlo.
  unfold coordinateValid, isValidCoordinate, truthy, Rleb.
  cbn [raw_lat raw_lon untimed_point].
  decide_reals.
Qed.

Lemma missing_timestamps_error_witness :
  readGPXFile host_Date_parse host_getFullYear host_trim untimed_doc
    = inl MissingTimestamps /\
  readGPXFile host_Date_parse host_getFullYear host_trim off_range_doc
    = inl NoValidGPSPoints.
Proof.
  split.
  - apply (proj2 (proj2 (proj2
             (missing_timestamps_error host_Date_parse host_getFullYear
                host_trim untimed_doc)))).
    + discriminate.
    + cbn [selectTrackPoints untimed_doc trkpt].
      repeat constructor; apply untimed_point_valid; lra.
  - apply (proj1 (proj2 (proj2
             (missing_timestamps_error host_Date_parse host_getFullYear
                host_trim off_range_doc)))).
    intros r [<- | []]. exact off_range_point_invalid.
Defined.

Lemma zero_coordinates_dropped_witness :
  isValidCoordinate (raw_lat equator_point) (raw_lon equator_point) = false /\
  extractGPXPoints host_Date_parse host_trim zero_line_doc = inr [] /\
  readGPXFile host_Date_parse host_getFullYear host_trim zero_line_doc
    = inl NoValidGPSPoints.
Proof.
  pose proof (zero_coordinates_dropped host_Date_parse host_getFullYear
                host_trim) as [Hpoint Hdoc].
  split.
  - apply (Hpoint equator_point). left. reflexivity.
  - apply (Hdoc zero_line_doc).
    + discriminate.
    + cbn [selectTrackPoints zero_line_doc trkpt].
      constructor; [left; reflexivity |].
      constructor; [right; reflexivity | constructor].
Defined.

(** ** Route statistics (C7) *)

Lemma allNumbers_map_Some (ws : list R) : allNumbers (map Some ws) = Some ws.
Proof.
  induction ws as [| w ws IH]; [reflexivity |].
  cbn [map allNumbers]. rewrite IH. reflexivity.
Qed.

Lemma Rmax_0_distr (a b : R) : Rmax (Rmax 0 a) (Rmax 0 b) = Rmax 0 (Rmax a b).
Proof.
  unfold Rmax. repeat (destruct (Rle_dec _ _)); lra.
Qed.

Lemma Rmin_0_distr (a b : R) : Rmin (Rmin 0 a) (Rmin 0 b) = Rmin 0 (Rmin a b).
Proof.
  unfold Rmin. repeat (destruct (Rle_dec _ _)); lra.
Qed.

Lemma max_of_clamped (ws : list R) :
  forall w, JS.max_of (Rmax 0 w) (map (Rmax 0) ws) = Rmax 0 (JS.max_of w ws).
Proof.
  unfold JS.max_of.
  induction ws as [| a ws IH]; intros w; [reflexivity |].
  cbn [map fold_left]. rewrite Rmax_0_distr. apply IH.
Qed.

Lemma min_of_clamped (ws : list R) :
  forall w, JS.min_of (Rmin 0 w) (map (Rmin 0) ws) = Rmin 0 (JS.min_of w ws).
Proof.
  unfold JS.min_of.
  induction ws as [| a ws IH]; intros w; [reflexivity |].
  cbn [map fold_left]. rewrite Rmin_0_distr. apply IH.
Qed.

Lemma max_of_is_maximum (ws : list R) :
  forall w, In (JS.max_of w ws) (w :: ws) /\
            (forall x, In x (w :: ws) -> x <= JS.max_of w ws).
Proof.
  unfold JS.max_of.
  induction ws as [| a ws IH]; intros w.
  - split; [left; reflexivity |]. intros x [<- | []]. cbn. lra.
  - cbn [fold_left]. destruct (IH (Rmax w a)) as [Hin Hub]. split.
    + destruct Hin as [Heq | Hin]; [| right; right; exact Hin].
      rewrite <- Heq. unfold Rmax. destruct (Rle_dec w a).
      * right; left; reflexivity.
      * left; reflexivity.
    + intros x [<- | [<- | Hx]].
      * eapply Rle_trans; [apply (Rmax_l w a) |]. apply Hub. left. reflexivity.
      * eapply Rle_trans; [apply (Rmax_r w a) |]. apply Hub. left. reflexivity.
      * apply Hub. right. exact Hx.
Qed.

Lemma min_of_is_minimum (ws : list R) :
  forall w, In (JS.min_of w ws) (w :: ws) /\
            (forall x, In x (w :: ws) -> JS.min_of w ws <= x).
Proof.
  unfold JS.min_of.
  induction ws as [| a ws IH]; intros w.
  - split; [left; reflexivity |]. intros x [<- | []]. cbn. lra.
  - cbn [fold_left]. destruct (IH (Rmin w a)) as [Hin Hlb]. split.
    + destruct Hin as [Heq | Hin]; [| right; right; exact Hin].
      rewrite <- Heq. unfold Rmin. destruct (Rle_dec w a).
      * left; reflexivity.
      * right; left; reflexivity.
    + intros x [<- | [<- | Hx]].
      * eapply Rle_trans; [| apply (Rmin_l w a)]. apply Hlb. left. reflexivity.
      * eapply Rle_trans; [| apply (Rmin_r w a)]. apply Hlb. left. reflexivity.
      * apply Hlb. right. exact Hx.
Qed.

Lemma Rabs_Rmin_0 (m : R) : Rabs (Rmin 0 m) = Rmax 0 (- m).
Proof.
  unfold Rmin, Rmax. destruct (Rle_dec 0 m), (Rle_dec 0 (- m));
    try (rewrite Rabs_R0; lra); try lra.
  rewrite Rabs_left; lra.
Qed.

Lemma countNonNegative_map_Some (ws : list R) :
  countNonNegative (map Some ws) = headwindCount ws.
Proof.
  unfold countNonNegative, headwindCount.
  induction ws as [| w ws IH]; [reflexivity |].
  cbn [map filter]. unfold Rleb at 1.
  destruct (Rge_dec w 0), (Rle_dec 0 w); try lra; cbn [List.length];
    rewrite IH; reflexivity.
Qed.

Lemma headwindCount_le_length (ws : list R) :
  (headwindCount ws <= List.length ws)%nat.
Proof. apply filter_length_le. Qed.

Lemma positiveSpeeds_nil (gpxData : list Point) :
  (forall p s, In p gpxData -> speed_kmh p = Some s -> s <= 0) ->
  positiveSpeeds gpxData = [].
Proof.
  unfold positiveSpeeds.
  induction gpxData as [| p rest IH]; intros H; [reflexivity |].
  cbn [flat_map]. rewrite IH by (intros q s Hin; apply H; right; exact Hin).
  destruct (speed_kmh p) as [s |] eqn:Hs; [| reflexivity].
  specialize (H p s (or_introl eq_refl) Hs).
  destruct (Rgt_dec s 0); [lra | reflexivity].
Qed.

(** C7: for a non-empty track whose points all carry a wind component,
    the statistics are computed, the maximum headwind is the larger of 0
    and the greatest wind component, the maximum tailwind is the larger of
    0 and minus the smallest wind component (both at least 0), the
    headwind percentage is 100 times the share of points with a
    non-negative wind component (between 0 and 100), and the average
    speed is 0 when no point has a positive speed. *)
Theorem route_statistics_summary
    (first : Point) (rest : list Point) (ws : list R) :
  map wind_faced (first :: rest) = map Some ws ->
  exists st mx mn,
    calculateRouteStatistics (first :: rest) = inr st /\
    (In mx ws /\ forall w, In w ws -> w <= mx) /\
    (In mn ws /\ forall w, In w ws -> mn <= w) /\
    maxHeadwind st = Some (Rmax 0 mx) /\
    maxTailwind st = Some (Rmax 0 (- mn)) /\
    0 <= Rmax 0 mx /\ 0 <= Rmax 0 (- mn) /\
    headwindPercentage st =
      100 * INR (headwindCount ws) / INR (List.length (first :: rest)) /\
    0 <= headwindPercentage st <= 100 /\
    ((forall p s, In p (first :: rest) -> speed_kmh p = Some s -> s <= 0) ->
     avgSpeed st = 0).
Proof.
  intros Hws.
  destruct ws as [| w0 ws']; [discriminate |].
  assert (Hlen : List.length (first :: rest) = List.length (w0 :: ws')).
  { rewrite <- (length_map wind_faced), Hws. apply length_map. }
  assert (Hn : 0 < INR (List.length (w0 :: ws'))).
  { apply lt_0_INR. cbn [List.length]. lia. }
  assert (Hc : INR (headwindCount (w0 :: ws'))
               <= INR (List.length (w0 :: ws'))).
  { apply le_INR. apply headwindCount_le_length. }
  assert (Hc0 : 0 <= INR (headwindCount (w0 :: ws'))) by apply pos_INR.
  unfold calculateRouteStatistics. cbv zeta.
  eexists. exists (JS.max_of w0 ws'), (JS.min_of w0 ws').
  split; [reflexivity |].
  cbn [maxHeadwind maxTailwind headwindPercentage avgSpeed].
  rewrite Hws, allNumbers_map_Some, countNonNegative_map_Some.
  rewrite max_of_clamped, min_of_clamped, Rabs_Rmin_0.
  rewrite !length_map, Hlen.
  split; [apply max_of_is_maximum |].
  split; [apply min_of_is_minimum |].
  split; [reflexivity |].
  split; [reflexivity |].
  split; [apply Rmax_l |].
  split; [apply Rmax_l |].
  set (c := INR (headwindCount (w0 :: ws'))) in *.
  set (n := INR (List.length (w0 :: ws'))) in *.
  split; [field; lra |].
  split.
  - split.
    + apply Rmult_le_pos; [| lra].
      apply Rmult_le_pos; [exact Hc0 |].
      left. apply Rinv_0_lt_compat. exact Hn.
    + apply Rmult_le_reg_r with (r := n); [exact Hn |].
      replace (c / n * 100 * n) with (100 * c) by (field; lra).
      lra.
  - intros Hspeeds. rewrite (positiveSpeeds_nil _ Hspeeds). reflexivity.
Qed.

Lemma headwindCount_windy : headwindCount [5; -3] = 1%nat.
Proof.
  unfold headwindCount, Rleb. cbn [filter].
  destruct (Rle_dec 0 5); [| lra].
  destruct (Rle_dec 0 (-3)); [lra | reflexivity].
Qed.

Lemma route_statistics_summary_witness :
  exists st,
    calculateRouteStatistics windy_track = inr st /\
    maxHeadwind st = Some 5 /\
    maxTailwind st = Some 3 /\
    headwindPercentage st = 50 /\
    avgSpeed st = 0.
Proof.
  destruct (route_statistics_summary standing_first [standing_second]
              [5; -3] eq_refl)
    as (st & mx & mn & Hst & [Hmx Hub] & [Hmn Hlb] & Hhead & Htail &
        _ & _ & Hpct & _ & Havg).
  assert (Emx : mx = 5).
  { pose proof (Hub 5 (or_introl eq_refl)) as H5.
    destruct Hmx as [<- | [<- | []]]; [reflexivity | lra]. }
  assert (Emn : mn = -3).
  { pose proof (Hlb (-3) (or_intror (or_introl eq_refl))) as H3.
    destruct Hmn as [<- | [<- | []]]; [lra | reflexivity]. }
  exists st. split; [exact Hst |].
  split; [rewrite Hhead, Emx; f_equal; apply Rmax_right; lra |].
  split; [rewrite Htail, Emn; f_equal; rewrite Rmax_right; lra |].
  split.
  - rewrite Hpct, headwindCount_windy. cbn [List.length INR]. lra.
  - apply Havg. intros p s [<- | [<- | []]] Hs; injection Hs as <-; lra.
Defined.

(** ** The enrichment pipeline *)

Lemma kinematicsLoop_bearing (rest : list Point) :
  forall (prev : Point) (cum : JS.num),
    Forall (fun p => exists b, bearing p = Some b)
           (kinematicsLoop prev cum rest).
Proof.
  induction rest as [| curr rest' IH]; intros prev cum; constructor.
  - eexists. reflexivity.
  - apply IH.
Qed.

Lemma calculateSpeedAndBearing_bearing (gpxData : list Point) :
  Forall (fun p => exists b, bearing p = Some b)
         (calculateSpeedAndBearing gpxData).
Proof.
  destruct gpxData as [| first rest]; constructor.
  - exists 0. reflexivity.
  - apply kinematicsLoop_bearing.
Qed.

(** Kinematics followed by wind interpolation leaves every point with a
    wind speed, a wind direction, a bearing and the cosine component. *)
Lemma interpolateWindAlongRoute_enriched
    (windData : list WindSample) (gpxData : list Point) :
  Forall (fun q => exists ws wd b,
            wind_speed q = Some ws /\ wind_direction q = Some wd /\
            bearing q = Some b /\
            wind_faced q = Some (ws * cos (toRadians (wd - b))))
         (interpolateWindAlongRoute windData
            (calculateSpeedAndBearing gpxData)).
Proof.
  unfold interpolateWindAlongRoute, calculateRelativeWind.
  rewrite map_map. apply Forall_map.
  eapply Forall_impl; [| apply calculateSpeedAndBearing_bearing].
  intros p [b Hb].
  exists (wv_wind_speed (interpolateWindForPoint windData p)),
         (wv_wind_direction (interpolateWindForPoint windData p)), b.
  repeat split; try assumption.
  apply relativeWind_wind_faced; [reflexivity | reflexivity | exact Hb].
Qed.

(** ** Worked evaluations *)

Example rem_of_450 : JS.rem 450 360 = 90.
Proof.
  unfold JS.rem, JS.trunc.
  destruct (Rle_dec 0 (450 / 360)) as [_ | Hneg]; [| lra].
  rewrite (Zfloor_eq 1 (450 / 360)) by lra. lra.
Qed.

Example rem_of_minus_90 : JS.rem (-90) 360 = -90.
Proof.
  unfold JS.rem, JS.trunc.
  destruct (Rle_dec 0 (-90 / 360)) as [Hpos | _]; [lra |].
  rewrite (Zceil_eq 0 (-90 / 360)) by lra. lra.
Qed.

Example calculateSpeed_ordinary : calculateSpeed 50 10 (Some 7) = 18.
Proof.
  unfold calculateSpeed, CONSTANTS.MAX_REALISTIC_SPEED.
  cbn [JS.param_default].
  destruct (Rle_dec 10 0); [lra |].
  destruct (Rle_dec 50 0); [lra |].
  destruct (Rgt_dec (50 / 10 * 3.6) 100); lra.
Qed.

Example calculateSpeed_clock_anomaly : calculateSpeed 50 0 (Some 7) = 7.
Proof.
  unfold calculateSpeed. cbn [JS.param_default].
  destruct (Rle_dec 0 0); [reflexivity | lra].
Qed.

Example calculateSpeed_stationary : calculateSpeed 0 10 (Some 7) = 0.
Proof.
  unfold calculateSpeed. cbn [JS.param_default].
  destruct (Rle_dec 10 0); [lra |].
  destruct (Rle_dec 0 0); [reflexivity | lra].
Qed.

Example interpolate_at_quarter_hour :
  interpolateWindForPoint [sample_start; sample_half_hour]
    (mkPoint 47 8 400 (Some 1700000900000%Z)
             None None None None None None)
  = mkWindValues 6 150.
Proof.
  rewrite (interpolateWindForPoint_bracket _ _ _ _
             sample_start sample_half_hour) by reflexivity.
  unfold interpolateBetweenWindPoints. cbv zeta.
  cbn [time JS.time_value].
  replace (w_time sample_half_hour - w_time sample_start)%Z
    with 1800000%Z by reflexivity.
  replace (1700000900000 - w_time sample_start)%Z
    with 900000%Z by reflexivity.
  replace (1800000 >? 0)%Z with true by reflexivity.
  cbv iota.
  unfold sample_start, sample_half_hour.
  cbn [w_wind_speed w_wind_direction].
  f_equal; field.
Qed.

Example sortByTime_is_stable :
  map elevation
    (sortByTime
       [ mkPoint 46 7 1 (Some 30%Z) None None None None None None;
         mkPoint 46 7 2 (Some 10%Z) None None None None None None;
         mkPoint 46 7 3 None None None None None None None;
         mkPoint 46 7 4 (Some 10%Z) None None None None None None ])
  = [3; 2; 4; 1].
Proof. reflexivity. Qed.

(** * Further properties of the analyzer *)

(** ** Geodesy *)

Lemma toRadians_opp (x : R) : toRadians (- x) = - toRadians x.
Proof. unfold toRadians. ring. Qed.

(** X1: the great-circle distance does not depend on the direction of
    travel: from A to B it is what it is from B to A. *)
Theorem haversineDistance_symmetric (lat1 lon1 lat2 lon2 : R) :
  haversineDistance lat1 lon1 lat2 lon2 =
  haversineDistance lat2 lon2 lat1 lon1.
Proof.
  unfold haversineDistance. cbv zeta.
  replace (toRadians (lat1 - lat2)) with (- toRadians (lat2 - lat1))
    by (rewrite <- toRadians_opp; f_equal; ring).
  replace (toRadians (lon1 - lon2)) with (- toRadians (lon2 - lon1))
    by (rewrite <- toRadians_opp; f_equal; ring).
  replace (- toRadians (lat2 - lat1) / 2)
    with (- (toRadians (lat2 - lat1) / 2)) by field.
  replace (- toRadians (lon2 - lon1) / 2)
    with (- (toRadians (lon2 - lon1) / 2)) by field.
  rewrite !sin_neg.
  set (s := sin (toRadians (lat2 - lat1) / 2)).
  set (t := sin (toRadians (lon2 - lon1) / 2)).
  set (c1 := cos (toRadians lat1)). set (c2 := cos (toRadians lat2)).
  replace (- s * - s + c2 * c1 * - t * - t)
    with (s * s + c1 * c2 * t * t) by ring.
  reflexivity.
Qed.


Lemma haversineDistance_same_point (lat0 lon0 : R) :
  haversineDistance lat0 lon0 lat0 lon0 = 0.
Proof.
  unfold haversineDistance. cbv zeta.
  replace (toRadians (lat0 - lat0) / 2) with 0 by (unfold toRadians; field).
  replace (toRadians (lon0 - lon0) / 2) with 0 by (unfold toRadians; field).
  rewrite sin_0.
  replace (0 * 0 + cos (toRadians lat0) * cos (toRadians lat0) * 0 * 0)
    with 0 by ring.
  replace (1 - 0) with 1 by ring.
  rewrite sqrt_0, sqrt_1.
  unfold JS.atan2. destruct (Rlt_dec 0 1); [| lra].
  replace (0 / 1) with 0 by field. rewrite atan_0. ring.
Qed.


Lemma rem_range (x y : R) : 0 <= x -> 0 < y -> 0 <= JS.rem x y < y.
Proof.
  intros Hx Hy. unfold JS.rem, JS.trunc.
  assert (Hq : 0 <= x / y).
  { unfold Rdiv. apply Rmult_le_pos; [exact Hx |].
    left. apply Rinv_0_lt_compat. exact Hy. }
  destruct (Rle_dec 0 (x / y)); [| contradiction].
  destruct (Zfloor_bound (x / y)) as [Hlo Hhi].
  assert (Hxy : x = x / y * y) by (field; lra).
  set (k := IZR (Zfloor (x / y))) in *.
  split; nra.
Qed.

Lemma atan2_range (y x : R) : - PI < JS.atan2 y x <= PI.
Proof.
  assert (HPI := PI_RGT_0). unfold JS.atan2.
  destruct (Rlt_dec 0 x) as [Hx |].
  { pose proof (atan_bound (y / x)). lra. }
  destruct (Rlt_dec x 0) as [Hx |].
  - assert (Hinv : / x < 0) by (apply Rinv_lt_0_compat; exact Hx).
    destruct (Rle_dec 0 y) as [Hy | Hy].
    + assert (Hq : y / x <= 0) by (unfold Rdiv; nra).
      pose proof (atan_bound (y / x)).
      assert (atan (y / x) <= 0).
      { destruct Hq as [Hq | Hq].
        - left. rewrite <- atan_0. apply atan_increasing. exact Hq.
        - rewrite Hq, atan_0. lra. }
      lra.
    + assert (Hq : 0 < y / x) by (unfold Rdiv; nra).
      pose proof (atan_bound (y / x)).
      assert (0 < atan (y / x))
        by (rewrite <- atan_0; apply atan_increasing; exact Hq).
      lra.
  - destruct (Rlt_dec 0 y); [lra |].
    destruct (Rlt_dec y 0); lra.
Qed.

Lemma calculateBearing_bounds (lat1 lon1 lat2 lon2 : R) :
  0 <= calculateBearing lat1 lon1 lat2 lon2 < 360.
Proof.
  unfold calculateBearing. cbv zeta.
  apply rem_range; [| lra].
  match goal with
  | |- 0 <= toDegrees (JS.atan2 ?y ?x) + 360 =>
      pose proof (atan2_range y x) as [Hlo _];
      set (a := JS.atan2 y x) in *
  end.
  unfold toDegrees. assert (HPI := PI_RGT_0).
  assert (Ha : - 180 < a * (180 / PI)).
  { apply Rmult_lt_reg_r with (r := PI / 180); [lra |].
    replace (a * (180 / PI) * (PI / 180)) with a by (field; lra).
    lra. }
  lra.
Qed.

(** X3: the bearing from one point to another is always at least 0 and
    less than 360 degrees. *)
Theorem calculateBearing_range (lat1 lon1 lat2 lon2 : R) :
  0 <= calculateBearing lat1 lon1 lat2 lon2 < 360.
Proof. apply calculateBearing_bounds. Qed.

(** ** The kinematics pass, point by point *)

(** Consecutive elements of the output, with the running distance that
    the loop holds between them. *)
Lemma kinematicsLoop_pairs (rest : list Point) :
  forall (prev : Point) (c : R),
    distance_km prev = Some (c / 1000) ->
    forall (i : nat) (p q : Point),
      nth_error (prev :: kinematicsLoop prev (Some c) rest) i = Some p ->
      nth_error (kinematicsLoop prev (Some c) rest) i = Some q ->
      exists cin c',
        nth_error rest i = Some cin /\
        distance_km p = Some (c' / 1000) /\
        q = calculatePointMetrics p cin (Some c').
Proof.
  induction rest as [| curr rest' IH]; intros prev c Hprev i p q Hp Hq.
  - destruct i; discriminate.
  - destruct i as [| j].
    + cbn in Hp, Hq. injection Hp as <-. injection Hq as <-.
      exists curr, c. repeat split. exact Hprev.
    + cbn [kinematicsLoop nth_error] in Hp, Hq.
      rewrite calculatePointMetrics_distance in Hp, Hq.
      cbn [JS.lift2] in Hp, Hq.
      set (d := haversineDistance (lat prev) (lon prev) (lat curr) (lon curr))
        in *.
      apply (IH (calculatePointMetrics prev curr (Some c))
                ((c + d) / 1000 * 1000)); try assumption.
      rewrite calculatePointMetrics_distance. fold d. f_equal. field.
Qed.

Lemma calculateSpeedAndBearing_pairs (gpxData : list Point) (i : nat)
    (prev curr : Point) :
  nth_error (calculateSpeedAndBearing gpxData) i = Some prev ->
  nth_error (calculateSpeedAndBearing gpxData) (S i) = Some curr ->
  exists cin c',
    nth_error gpxData (S i) = Some cin /\
    distance_km prev = Some (c' / 1000) /\
    curr = calculatePointMetrics prev cin (Some c').
Proof.
  destruct gpxData as [| first rest]; [destruct i; discriminate |].
  cbn [calculateSpeedAndBearing]. intros Hp Hc. cbn [nth_error] in Hc.
  apply (kinematicsLoop_pairs rest
           (setKinematics first (Some 0) (Some 0) (Some 0)) 0);
    try assumption.
  cbn. f_equal. field.
Qed.

Lemma calculatePointBearing_range (prev curr : Point) (distance : R) :
  bearingInRange prev ->
  0 <= calculatePointBearing prev curr distance < 360.
Proof.
  intros (b & Hb & Hrange). unfold calculatePointBearing.
  destruct (Rgt_dec distance CONSTANTS.MIN_MOVEMENT_THRESHOLD).
  - apply calculateBearing_bounds.
  - rewrite Hb. cbn [JS.or_num]. destruct (Req_dec_T b 0); lra.
Qed.

Lemma kinematicsLoop_bearingInRange (rest : list Point) :
  forall (prev : Point) (cum : JS.num),
    bearingInRange prev ->
    Forall bearingInRange (kinematicsLoop prev cum rest).
Proof.
  induction rest as [| curr rest' IH]; intros prev cum Hprev.
  - constructor.
  - cbn [kinematicsLoop].
    assert (Hcurr : bearingInRange (calculatePointMetrics prev curr cum)).
    { eexists. split; [reflexivity |].
      apply calculatePointBearing_range. exact Hprev. }
    constructor; [exact Hcurr | apply IH; exact Hcurr].
Qed.

(** X5: after the kinematics pass every point has a bearing of at least
    0 and less than 360 degrees, also where the bearing is inherited
    because the movement was too small. *)
Theorem bearing_within_compass (gpxData : list Point) :
  Forall (fun p => exists b, bearing p = Some b /\ 0 <= b < 360)
         (calculateSpeedAndBearing gpxData).
Proof.
  destruct gpxData as [| first rest]; [constructor |].
  cbn [calculateSpeedAndBearing].
  assert (H0 : bearingInRange
                 (setKinematics first (Some 0) (Some 0) (Some 0))).
  { exists 0. split; [reflexivity | lra]. }
  constructor; [exact H0 |].
  apply kinematicsLoop_bearingInRange. exact H0.
Qed.

Lemma kinematicsLoop_keptFields (rest : list Point) :
  forall (prev : Point) (cum : JS.num),
    map keptFields (kinematicsLoop prev cum rest) = map keptFields rest.
Proof.
  induction rest as [| curr rest' IH]; intros prev cum; [reflexivity |].
  cbn [kinematicsLoop map]. rewrite IH. reflexivity.
Qed.

(** X6: the kinematics pass neither drops, adds nor reorders points, and
    it leaves position, elevation, time and the wind fields of every
    point as they were. *)
Theorem calculateSpeedAndBearing_keeps_points (gpxData : list Point) :
  List.length (calculateSpeedAndBearing gpxData) = List.length gpxData /\
  map keptFields (calculateSpeedAndBearing gpxData) = map keptFields gpxData.
Proof.
  assert (H : map keptFields (calculateSpeedAndBearing gpxData) =
              map keptFields gpxData).
  { destruct gpxData as [| first rest]; [reflexivity |].
    cbn [calculateSpeedAndBearing map]. rewrite kinematicsLoop_keptFields.
    reflexivity. }
  split; [| exact H].
  rewrite <- (length_map keptFields), H. apply length_map.
Qed.

Lemma calculatePointMetrics_bearing (prev curr : Point) (cum : JS.num) :
  bearing (calculatePointMetrics prev curr cum) =
  Some (calculatePointBearing prev curr
          (haversineDistance (lat prev) (lon prev) (lat curr) (lon curr))).
Proof. reflexivity. Qed.

(** X7: between consecutive points of the pass output that lie at most
    1 m apart the bearing is carried over unchanged; when the two points
    coincide, the cumulative distance is unchanged as well, and the
    speed is 0 if time advanced and the previous speed if it did not. *)
Theorem small_movement_keeps_bearing
    (gpxData : list Point) (i : nat) (prev curr : Point) :
  nth_error (calculateSpeedAndBearing gpxData) i = Some prev ->
  nth_error (calculateSpeedAndBearing gpxData) (S i) = Some curr ->
  (impliedDistance prev curr <= 1 -> bearing curr = bearing prev) /\
  (lat curr = lat prev -> lon curr = lon prev ->
     distance_km curr = distance_km prev /\
     (0 < timeDiffSeconds prev curr -> speed_kmh curr = Some 0) /\
     (timeDiffSeconds prev curr <= 0 -> speed_kmh curr = speed_kmh prev)).
Proof.
  intros Hp Hc.
  destruct (calculateSpeedAndBearing_pairs _ _ _ _ Hp Hc)
    as (cin & c' & _ & Hdist & ->).
  pose proof (calculateSpeedAndBearing_bearing gpxData) as Hb.
  rewrite Forall_forall in Hb.
  destruct (Hb prev (nth_error_In _ _ Hp)) as [b Hbear].
  pose proof (calculateSpeedAndBearing_speedInRange gpxData) as Hs.
  rewrite Forall_forall in Hs.
  destruct (Hs prev (nth_error_In _ _ Hp)) as (sp & Hsp & _).
  unfold impliedDistance, timeDiffSeconds.
  change (lat (calculatePointMetrics prev cin (Some c'))) with (lat cin).
  change (lon (calculatePointMetrics prev cin (Some c'))) with (lon cin).
  change (time (calculatePointMetrics prev cin (Some c'))) with (time cin).
  rewrite calculatePointMetrics_bearing, calculatePointMetrics_distance,
    calculatePointMetrics_speed.
  set (d := haversineDistance (lat prev) (lon prev) (lat cin) (lon cin)).
  set (dt := IZR (JS.time_value (time cin) - JS.time_value (time prev))
             / 1000).
  split.
  - intros Hsmall.
    unfold calculatePointBearing, CONSTANTS.MIN_MOVEMENT_THRESHOLD.
    destruct (Rgt_dec d 1); [lra |].
    rewrite Hbear. cbn [JS.or_num].
    destruct (Req_dec_T b 0) as [-> |]; reflexivity.
  - intros Hlat Hlon.
    assert (Hd : d = 0).
    { unfold d. rewrite Hlat, Hlon. apply haversineDistance_same_point. }
    rewrite Hd, Hdist, Hsp.
    split; [f_equal; field |].
    unfold calculateSpeed. cbn [JS.param_default].
    split; intros Hdt.
    + destruct (Rle_dec dt 0); [lra |].
      destruct (Rle_dec 0 0); [reflexivity | lra].
    + destruct (Rle_dec dt 0); [reflexivity | lra].
Qed.

Lemma small_movement_keeps_bearing_witness :
  bearing waiting_curr = bearing jump_prev /\
  distance_km waiting_curr = distance_km jump_prev /\
  speed_kmh waiting_curr = Some 0.
Proof.
  destruct (small_movement_keeps_bearing waiting_track 0 jump_prev
              waiting_curr eq_refl eq_refl) as [Hbearing Hsame].
  destruct (Hsame eq_refl eq_refl) as (Hdist & Hspeed & _).
  split; [| split; [exact Hdist |]].
  - apply Hbearing.
    change (impliedDistance jump_prev waiting_curr)
      with (haversineDistance 46 7 46 7).
    rewrite haversineDistance_same_point. lra.
  - apply Hspeed. unfold timeDiffSeconds.
    change (JS.time_value (time waiting_curr)) with 1700000005000%Z.
    change (JS.time_value (time jump_prev)) with 1700000000000%Z.
    replace (1700000005000 - 1700000000000)%Z with 5000%Z by reflexivity.
    lra.
Defined.

(** ** Wind exposure: size and sign *)



(** ** Temporal interpolation: brackets and fallback *)

Lemma findSurroundingWindData_members
    (windData : list WindSample) (targetTime : Z)
    (before after : WindSample) :
  findSurroundingWindData windData targetTime = (Some before, Some after) ->
  In before windData /\ In after windData /\
  (w_time before <= targetTime <= w_time after)%Z.
Proof.
  induction windData as [| wi rest IH]; [discriminate |].
  destruct rest as [| wi1 rest']; [discriminate |].
  cbn [findSurroundingWindData].
  destruct ((w_time wi <=? targetTime)%Z && (w_time wi1 >=? targetTime)%Z)
    eqn:Hb.
  - intros H. injection H as <- <-.
    apply andb_true_iff in Hb. destruct Hb as [H1 H2].
    apply Z.leb_le in H1. apply Z.geb_le in H2.
    repeat split; [left; reflexivity | right; left; reflexivity | lia | lia].
  - intros H. destruct (IH H) as (Hin1 & Hin2 & Ht).
    repeat split; try (right; assumption); lia.
Qed.

Lemma between_endpoints (a b r : R) :
  0 <= r <= 1 -> Rmin a b <= a + (b - a) * r <= Rmax a b.
Proof.
  intros [H0 H1]. unfold Rmin, Rmax. destruct (Rle_dec a b); split; nra.
Qed.

Lemma findSurroundingWindData_before_all
    (windData : list WindSample) (targetTime : Z) :
  Forall (fun w => (targetTime < w_time w)%Z) windData ->
  findSurroundingWindData windData targetTime = (None, None).
Proof.
  induction windData as [| wi rest IH]; intros Hall; [reflexivity |].
  destruct rest as [| wi1 rest']; [reflexivity |].
  cbn [findSurroundingWindData].
  inversion Hall as [| ? ? Hwi Hrest]; subst.
  replace (w_time wi <=? targetTime)%Z with false
    by (symmetry; apply Z.leb_gt; exact Hwi).
  cbn [andb]. apply IH. exact Hrest.
Qed.

Lemma findSurroundingWindData_within_span (windData : list WindSample) :
  Sorted notLater windData ->
  forall (first : WindSample) (rest : list WindSample) (targetTime : Z),
    windData = first :: rest -> rest <> [] ->
    (w_time first <= targetTime <= w_time (last windData first))%Z ->
    exists before after,
      findSurroundingWindData windData targetTime =
        (Some before, Some after).
Proof.
  induction windData as [| wi tail IH];
    intros Hsorted first rest t Heq Hne Hspan; [discriminate |].
  injection Heq as <- <-.
  destruct tail as [| wi1 rest']; [contradiction |].
  cbn [findSurroundingWindData].
  destruct ((w_time wi <=? t)%Z && (w_time wi1 >=? t)%Z) eqn:Hb.
  { exists wi, wi1. reflexivity. }
  assert (Hwi1 : (w_time wi1 < t)%Z).
  { apply andb_false_iff in Hb. destruct Hb as [Hb | Hb].
    - apply Z.leb_gt in Hb. lia.
    - rewrite Z.geb_leb in Hb. apply Z.leb_gt in Hb. exact Hb. }
  inversion Hsorted as [| ? ? Htail _]; subst.
  change (last (wi :: wi1 :: rest') wi) with (last (wi1 :: rest') wi)
    in Hspan.
  rewrite last_cons in Hspan.
  destruct rest' as [| wi2 rest''].
  { cbn in Hspan. lia. }
  apply (IH Htail wi1 (wi2 :: rest'') t eq_refl); [discriminate |].
  rewrite last_cons. lia.
Qed.

Lemma sorted_up_to_last (windData : list WindSample) :
  StronglySorted notLater windData ->
  forall d w, In w windData ->
    (w_time w <= w_time (last windData d))%Z.
Proof.
  induction windData as [| wi rest IH]; intros Hsorted d w Hin.
  { destruct Hin. }
  inversion Hsorted as [| ? ? Htail Hhead]; subst.
  rewrite last_cons.
  destruct Hin as [<- | Hin].
  - destruct rest as [| wi1 rest']; [cbn; lia |].
    rewrite Forall_forall in Hhead.
    assert (Hl : In (last (wi1 :: rest') wi) (wi1 :: rest')).
    { destruct (exists_last (l := wi1 :: rest') ltac:(discriminate))
        as (l' & x & Heq).
      rewrite Heq, last_last. apply in_or_app. right. left. reflexivity. }
    apply (Hhead _ Hl).
  - destruct rest as [| wi1 rest']; [destruct Hin |].
    rewrite (last_cons wi1 wi rest'), <- (last_cons wi1 d rest').
    apply IH; assumption.
Qed.

(** X11: with two or more samples in ascending time order, a track
    point whose time lies within the span of the samples is interpolated
    between two samples that bracket it, and a point before the first or
    after the last sample is given the values of the first sample. *)
Theorem interpolation_or_fallback
    (w0 w1 : WindSample) (rest : list WindSample) (gpxPoint : Point) :
  Sorted notLater (w0 :: w1 :: rest) ->
  let t := JS.time_value (time gpxPoint) in
  let lastSample := last (w0 :: w1 :: rest) w0 in
  ((w_time w0 <= t <= w_time lastSample)%Z ->
     exists before after,
       In before (w0 :: w1 :: rest) /\ In after (w0 :: w1 :: rest) /\
       (w_time before <= t <= w_time after)%Z /\
       interpolateWindForPoint (w0 :: w1 :: rest) gpxPoint =
         interpolateBetweenWindPoints before after t) /\
  ((t < w_time w0 \/ w_time lastSample < t)%Z ->
     interpolateWindForPoint (w0 :: w1 :: rest) gpxPoint = valuesOf w0).
Proof.
  intros Hsorted t lastSample.
  assert (Hss : StronglySorted notLater (w0 :: w1 :: rest)).
  { apply Sorted_StronglySorted; [| exact Hsorted].
    intros a b c. unfold notLater. lia. }
  split.
  - intros Hspan.
    destruct (findSurroundingWindData_within_span _ Hsorted w0 (w1 :: rest) t
                eq_refl ltac:(discriminate) Hspan)
      as (before & after & Hfind).
    destruct (findSurroundingWindData_members _ _ _ _ Hfind)
      as (Hin1 & Hin2 & Ht).
    exists before, after. repeat split; try assumption; try lia.
    apply interpolateWindForPoint_bracket. exact Hfind.
  - intros Hout. apply interpolateWindForPoint_no_bracket.
    destruct Hout as [Hbefore | Hafter].
    + apply findSurroundingWindData_before_all.
      inversion Hss as [| ? ? _ Hhead]; subst.
      constructor; [exact Hbefore |].
      eapply Forall_impl; [| exact Hhead].
      intros w Hw. unfold notLater in Hw. fold t. lia.
    + apply findSurroundingWindData_after_all.
      apply Forall_forall. intros w Hin.
      pose proof (sorted_up_to_last _ Hss w0 w Hin) as Hle.
      fold lastSample in Hle. fold t. lia.
Qed.

Lemma interpolation_or_fallback_witness :
  (exists before after,
     In before [sample_start; sample_half_hour] /\
     In after [sample_start; sample_half_hour] /\
     (w_time before <= 1700001800000 <= w_time after)%Z /\
     interpolateWindForPoint [sample_start; sample_half_hour]
       point_at_half_hour =
     interpolateBetweenWindPoints before after 1700001800000) /\
  interpolateWindForPoint [sample_start; sample_half_hour]
    point_after_samples = valuesOf sample_start.
Proof.
  assert (Hsorted : Sorted notLater [sample_start; sample_half_hour]).
  { constructor; [constructor; constructor |].
    constructor. unfold notLater. cbn. lia. }
  split.
  - apply (proj1 (interpolation_or_fallback sample_start sample_half_hour []
                    point_at_half_hour Hsorted)).
    cbn. lia.
  - apply (proj2 (interpolation_or_fallback sample_start sample_half_hour []
                    point_after_samples Hsorted)).
    right. cbn. lia.
Defined.

(** ** Wind sampling: the closest track point *)

Lemma closerPoint_scan (t : Z) (l : list Point) :
  forall (c c' : Point) (m m' : Z),
    m = timeGap t c ->
    fold_left (closerPoint t) l (c, m) = (c', m') ->
    m' = timeGap t c' /\
    (forall q, In q l -> (m' <= timeGap t q)%Z) /\
    ((c' = c /\ m' = m) \/
     (exists l1 l2, l = l1 ++ c' :: l2 /\ (timeGap t c' < m)%Z /\
                    forall q, In q l1 -> (timeGap t c' < timeGap t q)%Z)).
Proof.
  induction l as [| q0 l' IH]; intros c c' m m' Hm Hfold.
  - cbn in Hfold. injection Hfold as <- <-.
    split; [exact Hm |]. split; [intros q [] |]. left. split; reflexivity.
  - cbn [fold_left] in Hfold. unfold closerPoint at 2 in Hfold.
    cbn [snd] in Hfold. fold (timeGap t q0) in Hfold.
    destruct (timeGap t q0 <? m)%Z eqn:Hlt.
    + apply Z.ltb_lt in Hlt.
      destruct (IH q0 c' (timeGap t q0) m' eq_refl Hfold)
        as (Hm' & Hall & Hcase).
      assert (Hle : (m' <= timeGap t q0)%Z).
      { destruct Hcase as [[_ ->] | (l1 & l2 & _ & Hlt' & _)]; lia. }
      split; [exact Hm' |]. split.
      * intros q [<- | Hin]; [exact Hle | apply Hall; exact Hin].
      * right. destruct Hcase as [[-> _] | (l1 & l2 & -> & Hlt' & Hl1)].
        -- exists [], l'. split; [reflexivity |]. split; [exact Hlt |].
           intros q [].
        -- exists (q0 :: l1), l2. split; [reflexivity |].
           split; [lia |].
           intros q [<- | Hin]; [exact Hlt' | apply Hl1; exact Hin].
    + apply Z.ltb_ge in Hlt.
      destruct (IH c c' m m' Hm Hfold) as (Hm' & Hall & Hcase).
      assert (Hle : (m' <= m)%Z).
      { destruct Hcase as [[_ ->] | (l1 & l2 & _ & Hlt' & _)]; lia. }
      split; [exact Hm' |]. split.
      * intros q [<- | Hin]; [lia | apply Hall; exact Hin].
      * destruct Hcase as [Hsame | (l1 & l2 & -> & Hlt' & Hl1)];
          [left; exact Hsame | right].
        exists (q0 :: l1), l2. split; [reflexivity |].
        split; [exact Hlt' |].
        intros q [<- | Hin]; [lia | apply Hl1; exact Hin].
Qed.

Lemma closestFrom_first_minimum
    (first : Point) (rest : list Point) (t : Z) :
  let p := closestFrom first (first :: rest) t in
  exists i,
    nth_error (first :: rest) i = Some p /\
    (forall q, In q (first :: rest) -> (timeGap t p <= timeGap t q)%Z) /\
    (forall j q, (j < i)%nat -> nth_error (first :: rest) j = Some q ->
                 (timeGap t p < timeGap t q)%Z).
Proof.
  cbv zeta. unfold closestFrom. cbv zeta.
  fold (timeGap t first).
  destruct (fold_left (closerPoint t) (first :: rest)
              (first, timeGap t first)) as [c' m'] eqn:Hfold.
  destruct (closerPoint_scan t _ _ _ _ _ eq_refl Hfold)
    as (Hm' & Hall & Hcase).
  cbn [fst]. rewrite Hm' in Hall.
  destruct Hcase as [[-> _] | (l1 & l2 & Hsplit & Hlt & Hl1)].
  - exists 0%nat. split; [reflexivity |]. split; [exact Hall |].
    intros j q Hj. lia.
  - exists (List.length l1). rewrite Hsplit. split.
    + rewrite nth_error_app2 by lia. rewrite Nat.sub_diag. reflexivity.
    + split; [rewrite <- Hsplit; exact Hall |].
      intros j q Hj Hq. rewrite nth_error_app1 in Hq by exact Hj.
      apply Hl1. eapply nth_error_In. exact Hq.
Qed.

(** X12: on a non-empty track [findClosestGPXPoint] returns the track
    point whose time is nearest to the target time, and among several
    equally near points the first one in the track; on an empty track it
    throws. *)
Theorem findClosestGPXPoint_nearest (gpxData : list Point) (t : Z) :
  (gpxData = [] -> findClosestGPXPoint gpxData t = inl TypeError) /\
  (gpxData <> [] ->
   exists p i,
     findClosestGPXPoint gpxData t = inr p /\
     nth_error gpxData i = Some p /\
     (forall q, In q gpxData -> (timeGap t p <= timeGap t q)%Z) /\
     (forall j q, (j < i)%nat -> nth_error gpxData j = Some q ->
                  (timeGap t p < timeGap t q)%Z)).
Proof.
  split; [intros ->; reflexivity |].
  intros Hne. destruct gpxData as [| first rest]; [contradiction |].
  exists (closestFrom first (first :: rest) t).
  destruct (closestFrom_first_minimum first rest t) as (i & Hi & Hmin & Hfst).
  exists i. repeat split; assumption.
Qed.

Lemma findClosestGPXPoint_nearest_witness :
  exists p i,
    findClosestGPXPoint short_ride 1700000400000 = inr p /\
    nth_error short_ride i = Some p /\
    (forall q, In q short_ride ->
       (timeGap 1700000400000 p <= timeGap 1700000400000 q)%Z).
Proof.
  destruct (proj2 (findClosestGPXPoint_nearest short_ride 1700000400000))
    as (p & i & Hfind & Hnth & Hmin & _).
  - discriminate.
  - exists p, i. repeat split; assumption.
Defined.

(** ** Wind sampling: the half-hour grid *)

Lemma interval_value : CONSTANTS.WIND_FETCH_INTERVAL = 1800000%Z.
Proof. reflexivity. Qed.

Lemma gridCount_step (c e : Z) :
  (c <= e)%Z ->
  gridCount c e = (gridCount (c + CONSTANTS.WIND_FETCH_INTERVAL) e + 1)%Z.
Proof.
  intros Hle. unfold gridCount. rewrite interval_value.
  replace (c <=? e)%Z with true by (symmetry; apply Z.leb_le; exact Hle).
  destruct (c + 1800000 <=? e)%Z eqn:Hnext.
  - apply Z.leb_le in Hnext.
    replace (e - (c + 1800000))%Z with (e - c + (-1) * 1800000)%Z by lia.
    rewrite Z.div_add by lia. lia.
  - apply Z.leb_gt in Hnext.
    rewrite Z.div_small by lia. lia.
Qed.

Lemma gridCount_nonneg (c e : Z) : (0 <= gridCount c e)%Z.
Proof.
  unfold gridCount. rewrite interval_value.
  destruct (c <=? e)%Z eqn:Hle; [| lia].
  apply Z.leb_le in Hle.
  assert (0 <= (e - c) / 1800000)%Z by (apply Z.div_pos; lia). lia.
Qed.

Section WindSamplingProperties.

Variable fetchArchive : R -> R -> Z -> option WeatherData.

Lemma samplingLoop_body (first : Point) (gpxData : list Point)
    (e T c k : Z) :
  samplingLoop fetchArchive first gpxData e T c k =
  if (c <=? e)%Z
  then (sampleAt fetchArchive first gpxData c, ((k + 1)%Z, T))
       :: samplingLoop fetchArchive first gpxData e T
            (c + CONSTANTS.WIND_FETCH_INTERVAL)%Z (k + 1)%Z
  else [].
Proof.
  rewrite samplingLoop_equation_1.
  destruct (Z_le_gt_dec c e) as [Hle | Hgt].
  - rewrite samplingLoop_clause_1_equation_1.
    replace (c <=? e)%Z with true by (symmetry; apply Z.leb_le; exact Hle).
    reflexivity.
  - replace (c <=? e)%Z with false by (symmetry; apply Z.leb_gt; lia).
    reflexivity.
Qed.

(** The steps of the loop, listed by their index. *)
Lemma samplingLoop_steps (first : Point) (gpxData : list Point) (e T : Z) :
  forall (n : nat) (c k : Z),
    (Z.to_nat (e - c + 1) <= n)%nat ->
    samplingLoop fetchArchive first gpxData e T c k =
    map (fun j =>
           (sampleAt fetchArchive first gpxData
              (c + Z.of_nat j * CONSTANTS.WIND_FETCH_INTERVAL)%Z,
            ((k + 1 + Z.of_nat j)%Z, T)))
        (seq 0 (Z.to_nat (gridCount c e))).
Proof.
  induction n as [| n IH]; intros c k Hn.
  - rewrite samplingLoop_body.
    assert (Hgt : (c > e)%Z) by lia.
    replace (c <=? e)%Z with false by (symmetry; apply Z.leb_gt; lia).
    unfold gridCount.
    replace (c <=? e)%Z with false by (symmetry; apply Z.leb_gt; lia).
    reflexivity.
  - rewrite samplingLoop_body.
    destruct (c <=? e)%Z eqn:Hle.
    + apply Z.leb_le in Hle.
      rewrite (gridCount_step c e Hle).
      pose proof (gridCount_nonneg (c + CONSTANTS.WIND_FETCH_INTERVAL) e).
      rewrite Z2Nat.inj_add by lia.
      replace (Z.to_nat (gridCount (c + CONSTANTS.WIND_FETCH_INTERVAL) e)
               + Z.to_nat 1)%nat
        with (S (Z.to_nat
                   (gridCount (c + CONSTANTS.WIND_FETCH_INTERVAL) e)))
        by lia.
      cbn [seq map]. f_equal.
      * f_equal; [f_equal; lia | f_equal; lia].
      * rewrite IH by (rewrite interval_value; lia).
        rewrite <- seq_shift, map_map.
        apply map_ext. intros j.
        f_equal; [f_equal; lia | f_equal; lia].
    + unfold gridCount. rewrite Hle. reflexivity.
Qed.

Lemma getWindDataEvery30Min_steps (first : Point) (rest : list Point) :
  let startTime := JS.time_value (time first) in
  let endTime := JS.time_value (time (last (first :: rest) first)) in
  let totalSteps :=
    ceilDiv (endTime - startTime) CONSTANTS.WIND_FETCH_INTERVAL in
  let n := Z.to_nat (gridCount startTime endTime) in
  getWindDataEvery30Min fetchArchive (first :: rest) =
  inr (map (fun j => sampleAt fetchArchive first (first :: rest)
                       (startTime +
                        Z.of_nat j * CONSTANTS.WIND_FETCH_INTERVAL)%Z)
           (seq 0 n),
       [(0, 1)%Z] ++
       map (fun j => ((1 + Z.of_nat j)%Z, totalSteps)) (seq 0 n) ++
       [(totalSteps, totalSteps)]).
Proof.
  cbv zeta. unfold getWindDataEvery30Min. cbv zeta.
  rewrite (samplingLoop_steps first (first :: rest) _ _ _ _ _ (le_n _)).
  rewrite !map_map. cbn [fst snd]. reflexivity.
Qed.

Lemma sampleAt_place (first : Point) (gpxData : list Point) (t : Z) :
  samplePlace (sampleAt fetchArchive first gpxData t) =
  (t, lat (closestFrom first gpxData t), lon (closestFrom first gpxData t)).
Proof.
  unfold sampleAt. cbv zeta.
  destruct (getHistoricalWeatherOpenMeteo fetchArchive _ _ t); reflexivity.
Qed.

End WindSamplingProperties.

Lemma nth_error_map_seq {A : Type} (g : nat -> A) (n k : nat) (x : A) :
  nth_error (map g (seq 0 n)) k = Some x -> (k < n)%nat /\ x = g k.
Proof.
  intros H. rewrite nth_error_map in H.
  destruct (nth_error (seq 0 n) k) as [j |] eqn:Hj; [| discriminate].
  assert (Hk : (k < n)%nat).
  { assert (Hlen : (k < List.length (seq 0 n))%nat)
      by (apply nth_error_Some; congruence).
    rewrite length_seq in Hlen. exact Hlen. }
  rewrite nth_error_nth' with (d := 0%nat) in Hj by (rewrite length_seq; lia).
  rewrite seq_nth in Hj by lia.
  injection Hj as Hj. subst j. cbn in H. injection H as H.
  split; [exact Hk | symmetry; exact H].
Qed.

Lemma grid_sorted (g : nat -> WindSample) (s : Z) :
  (forall j, w_time (g j) = (s + Z.of_nat j * 1800000)%Z) ->
  forall n a, Sorted earlier (map g (seq a n)).
Proof.
  intros Hg. induction n as [| n IH]; intros a; [constructor |].
  cbn [seq map]. constructor; [apply IH |].
  destruct n as [| n']; [constructor |].
  cbn [seq map]. constructor. unfold earlier. rewrite !Hg. lia.
Qed.

Lemma sampleAt_time (fetchArchive : R -> R -> Z -> option WeatherData)
    (first : Point) (gpxData : list Point) (t : Z) :
  w_time (sampleAt fetchArchive first gpxData t) = t.
Proof.
  pose proof (sampleAt_place fetchArchive first gpxData t) as H.
  unfold samplePlace in H. injection H as Ht _ _. exact Ht.
Qed.

Lemma gridCount_value (s e : Z) :
  (s <= e)%Z -> gridCount s e = ((e - s) / 1800000 + 1)%Z.
Proof.
  intros Hle. unfold gridCount. rewrite interval_value.
  replace (s <=? e)%Z with true by (symmetry; apply Z.leb_le; exact Hle).
  reflexivity.
Qed.

Lemma wind_grid_facts
    (fetchArchive : R -> R -> Z -> option WeatherData)
    (first : Point) (rest : list Point) :
  let gpxData := first :: rest in
  let startTime := JS.time_value (time first) in
  let endTime := JS.time_value (time (last gpxData first)) in
  (startTime <= endTime)%Z ->
  exists windData progress,
    getWindDataEvery30Min fetchArchive gpxData = inr (windData, progress) /\
    Z.of_nat (List.length windData) =
      ((endTime - startTime) / 1800000 + 1)%Z /\
    (forall k w, nth_error windData k = Some w ->
       w_time w = (startTime + Z.of_nat k * 1800000)%Z /\
       (w_time w <= endTime)%Z /\
       exists p, findClosestGPXPoint gpxData (w_time w) = inr p /\
                 w_lat w = lat p /\ w_lon w = lon p) /\
    Sorted earlier windData.
Proof.
  intros gpxData startTime endTime Hle.
  pose proof (getWindDataEvery30Min_steps fetchArchive first rest) as Hrun.
  cbv zeta in Hrun. fold gpxData startTime endTime in Hrun.
  rewrite interval_value in Hrun.
  eexists. eexists. split; [exact Hrun |].
  pose proof (gridCount_nonneg startTime endTime) as Hpos.
  rewrite (gridCount_value _ _ Hle) in *.
  split; [rewrite length_map, length_seq; lia |].
  split.
  - intros k w Hk. apply nth_error_map_seq in Hk. destruct Hk as [Hk ->].
    pose proof (sampleAt_place fetchArchive first gpxData
                  (startTime + Z.of_nat k * 1800000)) as Hplace.
    unfold samplePlace in Hplace. injection Hplace as Ht Hlat Hlon.
    rewrite Ht. split; [reflexivity |]. split.
    + assert (Z.of_nat k <= (endTime - startTime) / 1800000)%Z by lia.
      pose proof (Z.mul_div_le (endTime - startTime) 1800000 ltac:(lia)).
      nia.
    + eexists. split; [reflexivity |]. split; assumption.
  - apply (grid_sorted _ startTime). intros j. apply sampleAt_time.
Qed.

(** X13: for a track whose first time is not after its last, wind
    sampling takes one sample every 30 minutes from the time of the
    first track point, as long as the grid time is not after the last
    track point: floor(duration / 30 min) + 1 samples in strictly
    ascending time order, each located at the track point nearest in
    time to its grid time. *)
Theorem wind_grid_shape
    (fetchArchive : R -> R -> Z -> option WeatherData)
    (first : Point) (rest : list Point) :
  let gpxData := first :: rest in
  let startTime := JS.time_value (time first) in
  let endTime := JS.time_value (time (last gpxData first)) in
  (startTime <= endTime)%Z ->
  exists windData progress,
    getWindDataEvery30Min fetchArchive gpxData = inr (windData, progress) /\
    Z.of_nat (List.length windData) =
      ((endTime - startTime) / 1800000 + 1)%Z /\
    (forall k w, nth_error windData k = Some w ->
       w_time w = (startTime + Z.of_nat k * 1800000)%Z /\
       (w_time w <= endTime)%Z /\
       exists p, findClosestGPXPoint gpxData (w_time w) = inr p /\
                 w_lat w = lat p /\ w_lon w = lon p) /\
    Sorted earlier windData.
Proof. exact (wind_grid_facts fetchArchive first rest). Qed.

(** X14: failed requests never stop the sampling run and never change
    the grid: whatever the archive service answers, an empty track
    apart, the run ends with the same sample times and places and the
    same progress calls as a run in which every request fails, and in
    that run every sample carries the default wind of 10 km/h from
    180 degrees. *)
Theorem wind_grid_survives_failures
    (fetchArchive : R -> R -> Z -> option WeatherData)
    (first : Point) (rest : list Point) :
  exists windData failing progress,
    getWindDataEvery30Min fetchArchive (first :: rest) =
      inr (windData, progress) /\
    getWindDataEvery30Min (fun _ _ _ => None) (first :: rest) =
      inr (failing, progress) /\
    map samplePlace windData = map samplePlace failing /\
    Forall (fun w => w_wind_speed w = 10 /\ w_wind_direction w = 180)
           failing.
Proof.
  pose proof (getWindDataEvery30Min_steps fetchArchive first rest) as Hrun.
  pose proof (getWindDataEvery30Min_steps (fun _ _ _ => None) first rest)
    as Hfail.
  cbv zeta in Hrun, Hfail.
  eexists. eexists. eexists.
  split; [exact Hrun |]. split; [exact Hfail |]. split.
  - rewrite !map_map. apply map_ext. intros j.
    rewrite !sampleAt_place. reflexivity.
  - apply Forall_map. apply Forall_forall. intros j _.
    split; reflexivity.
Qed.

Lemma wind_grid_shape_witness :
  exists windData progress,
    getWindDataEvery30Min service_down short_ride = inr (windData, progress) /\
    Z.of_nat (List.length windData) = 2%Z /\
    Sorted earlier windData.
Proof.
  destruct (wind_grid_shape service_down point_at_start [point_after_samples])
    as (windData & progress & Hrun & Hlen & _ & Hsorted).
  - cbn. lia.
  - exists windData, progress. repeat split; assumption.
Defined.

Lemma ceilDiv_cases (a b : Z) :
  (0 < b)%Z ->
  (a mod b <> 0 -> ceilDiv a b = a / b + 1)%Z /\
  (a mod b = 0 -> ceilDiv a b = a / b)%Z.
Proof.
  intros Hb. unfold ceilDiv. split; intros Hmod.
  - rewrite Z.div_opp_l_nz by lia. lia.
  - rewrite Z.div_opp_l_z by lia. lia.
Qed.

(** X15: the progress calls of a sampling run are (0, 1), then
    (k, totalSteps) after the k-th sample, then (totalSteps,
    totalSteps), with totalSteps = ceil(duration / 30 min).  The number
    of samples equals totalSteps when the duration is not a whole
    number of half hours, and exceeds it by one when it is: the last
    in-loop call then reports more steps done than steps in total. *)
Theorem wind_grid_progress
    (fetchArchive : R -> R -> Z -> option WeatherData)
    (first : Point) (rest : list Point) :
  let gpxData := first :: rest in
  let startTime := JS.time_value (time first) in
  let endTime := JS.time_value (time (last gpxData first)) in
  let duration := (endTime - startTime)%Z in
  (startTime <= endTime)%Z ->
  exists windData progress totalSteps,
    getWindDataEvery30Min fetchArchive gpxData = inr (windData, progress) /\
    totalSteps = ceilDiv duration 1800000 /\
    progress =
      [(0, 1)%Z] ++
      map (fun j => ((1 + Z.of_nat j)%Z, totalSteps))
          (seq 0 (List.length windData)) ++
      [(totalSteps, totalSteps)] /\
    ((duration mod 1800000 <> 0)%Z ->
       Z.of_nat (List.length windData) = totalSteps) /\
    ((duration mod 1800000 = 0)%Z ->
       Z.of_nat (List.length windData) = (totalSteps + 1)%Z).
Proof.
  intros gpxData startTime endTime duration Hle.
  pose proof (getWindDataEvery30Min_steps fetchArchive first rest) as Hrun.
  cbv zeta in Hrun. fold gpxData startTime endTime duration in Hrun.
  rewrite interval_value in Hrun.
  eexists. eexists. exists (ceilDiv duration 1800000).
  split; [exact Hrun |]. split; [reflexivity |].
  rewrite length_map, length_seq.
  split; [reflexivity |].
  pose proof (gridCount_nonneg startTime endTime) as Hpos.
  rewrite (gridCount_value _ _ Hle) in *. fold duration in Hpos |- *.
  destruct (ceilDiv_cases duration 1800000 ltac:(lia)) as [Hnz Hz].
  split; intros Hmod; [rewrite (Hnz Hmod) | rewrite (Hz Hmod)]; lia.
Qed.

Lemma wind_grid_progress_witness :
  exists windData progress,
    getWindDataEvery30Min service_down hour_ride = inr (windData, progress) /\
    progress = [(0, 1); (1, 2); (2, 2); (3, 2); (2, 2)]%Z /\
    Z.of_nat (List.length windData) = 3%Z.
Proof.
  destruct (wind_grid_progress service_down point_at_start [point_after_hour])
    as (windData & progress & totalSteps & Hrun & HT & Hprog & _ & Hz).
  - cbn. lia.
  - cbn in HT, Hz.
    assert (Hlen : Z.of_nat (List.length windData) = 3%Z).
    { rewrite Hz; [subst totalSteps; reflexivity | reflexivity]. }
    exists windData, progress. split; [exact Hrun |]. split; [| exact Hlen].
    rewrite Hprog. replace (List.length windData) with 3%nat by lia.
    subst totalSteps. reflexivity.
Defined.

Lemma findSurroundingWindData_adjacent
    (windData : list WindSample) (targetTime : Z)
    (before after : WindSample) :
  findSurroundingWindData windData targetTime = (Some before, Some after) ->
  exists k, nth_error windData k = Some before /\
            nth_error windData (S k) = Some after.
Proof.
  induction windData as [| wi rest IH]; [discriminate |].
  destruct rest as [| wi1 rest']; [discriminate |].
  cbn [findSurroundingWindData].
  destruct ((w_time wi <=? targetTime)%Z && (w_time wi1 >=? targetTime)%Z).
  - intros H. injection H as <- <-. exists 0%nat. split; reflexivity.
  - intros H. destruct (IH H) as (k & Hb & Ha).
    exists (S k). split; assumption.
Qed.

(** X16: sampling followed by interpolation.  On a track that lasts at
    least 30 minutes, every track point whose time is between the time
    of the first point and the last grid time is interpolated between
    two neighbouring grid samples, half an hour apart, that bracket its
    time. *)
Theorem grid_brackets_track_points
    (fetchArchive : R -> R -> Z -> option WeatherData)
    (first : Point) (rest : list Point) (p : Point) :
  let gpxData := first :: rest in
  let startTime := JS.time_value (time first) in
  let endTime := JS.time_value (time (last gpxData first)) in
  let t := JS.time_value (time p) in
  (1800000 <= endTime - startTime)%Z ->
  (startTime <= t)%Z ->
  (t <= startTime + (endTime - startTime) / 1800000 * 1800000)%Z ->
  exists windData progress before after,
    getWindDataEvery30Min fetchArchive gpxData = inr (windData, progress) /\
    In before windData /\ In after windData /\
    w_time after = (w_time before + 1800000)%Z /\
    (w_time before <= t <= w_time after)%Z /\
    interpolateWindForPoint windData p =
      interpolateBetweenWindPoints before after t.
Proof.
  intros gpxData startTime endTime t Hlong Hstart Hgrid.
  assert (Hle : (startTime <= endTime)%Z) by lia.
  destruct (wind_grid_facts fetchArchive first rest Hle)
    as (windData & progress & Hrun & Hlen & Hnth & Hsorted).
  fold gpxData startTime endTime in Hrun, Hlen, Hnth.
  assert (Hcount : (2 <= (endTime - startTime) / 1800000 + 1)%Z).
  { assert (1 <= (endTime - startTime) / 1800000)%Z
      by (apply Z.div_le_lower_bound; lia). lia. }
  destruct windData as [| w0 [| w1 more]]; try (cbn in Hlen; lia).
  assert (Hw0 : w_time w0 = startTime).
  { destruct (Hnth 0%nat w0 eq_refl) as [H0 _]. rewrite H0. cbn. lia. }
  assert (Hlast : w_time (last (w0 :: w1 :: more) w0) =
                  (startTime + (endTime - startTime) / 1800000 * 1800000)%Z).
  { destruct (exists_last (l := w0 :: w1 :: more) ltac:(discriminate))
      as (l' & x & Heq).
    rewrite Heq, last_last.
    assert (Hx : nth_error (w0 :: w1 :: more) (List.length l') = Some x).
    { rewrite Heq, nth_error_app2 by lia. rewrite Nat.sub_diag. reflexivity. }
    destruct (Hnth _ _ Hx) as [Hxt _]. rewrite Hxt.
    assert (Hl : List.length (w0 :: w1 :: more) = S (List.length l')).
    { rewrite Heq, length_app. cbn. lia. }
    rewrite Hl in Hlen. lia. }
  assert (Hnl : Sorted notLater (w0 :: w1 :: more)).
  { clear - Hsorted. induction Hsorted as [| a l _ IH Hhd]; constructor.
    - exact IH.
    - destruct Hhd; constructor. unfold earlier, notLater in *. lia. }
  destruct (findSurroundingWindData_within_span _ Hnl w0 (w1 :: more) t
              eq_refl ltac:(discriminate)) as (before & after & Hfind).
  { rewrite Hw0, Hlast. lia. }
  destruct (findSurroundingWindData_members _ _ _ _ Hfind)
    as (Hin1 & Hin2 & Ht).
  destruct (findSurroundingWindData_adjacent _ _ _ _ Hfind)
    as (k & Hb & Ha).
  exists (w0 :: w1 :: more), progress, before, after.
  split; [exact Hrun |]. split; [exact Hin1 |]. split; [exact Hin2 |].
  split.
  { destruct (Hnth _ _ Hb) as [Hbt _]. destruct (Hnth _ _ Ha) as [Hat _].
    rewrite Hbt, Hat. lia. }
  split; [exact Ht |].
  apply interpolateWindForPoint_bracket. exact Hfind.
Qed.

Lemma grid_brackets_track_points_witness :
  exists windData progress before after,
    getWindDataEvery30Min service_down hour_ride = inr (windData, progress) /\
    In before windData /\ In after windData /\
    w_time after = (w_time before + 1800000)%Z /\
    (w_time before <= 1700001800000 <= w_time after)%Z /\
    interpolateWindForPoint windData point_at_half_hour =
      interpolateBetweenWindPoints before after 1700001800000.
Proof.
  apply (grid_brackets_track_points service_down point_at_start
           [point_after_hour] point_at_half_hour); cbn; lia.
Defined.

(** ** Wind sampling: reading the archive response *)

Lemma closestHourLoop_scan (ts : Z) (times : list (option Z)) :
  forall (i c : nat) (m : option Z),
    let r := closestHourLoop times ts i c m in
    (r = c /\
     forall j b, nth_error times j = Some (Some b) ->
       match m with
       | None => False
       | Some mv => (mv <= Z.abs (b - ts))%Z
       end) \/
    (exists k a,
       r = (i + k)%nat /\ nth_error times k = Some (Some a) /\
       match m with
       | None => True
       | Some mv => (Z.abs (a - ts) < mv)%Z
       end /\
       forall j b, nth_error times j = Some (Some b) ->
         (Z.abs (a - ts) <= Z.abs (b - ts))%Z /\
         ((j < k)%nat -> (Z.abs (a - ts) < Z.abs (b - ts))%Z)).
Proof.
  induction times as [| t0 rest IH]; intros i c m; cbv zeta.
  - left. split; [reflexivity |]. intros [| j] b H; discriminate.
  - cbn [closestHourLoop]. destruct t0 as [a0 |].
    + set (beats := match m with
                    | None => true
                    | Some mv => (Z.abs (a0 - ts) <? mv)%Z
                    end).
      destruct beats eqn:Hbeats; subst beats.
      * assert (Hm : match m with
                     | None => True
                     | Some mv => (Z.abs (a0 - ts) < mv)%Z
                     end).
        { destruct m as [mv |]; [apply Z.ltb_lt; exact Hbeats | exact I]. }
        right.
        destruct (IH (S i) i (Some (Z.abs (a0 - ts))))
          as [[Hr Hall] | (k & a & Hr & Hk & Ha & Hmin)].
        -- exists 0%nat, a0. rewrite Hr, Nat.add_0_r.
           split; [reflexivity |]. split; [reflexivity |].
           split; [exact Hm |].
           intros [| j] b Hb.
           ++ cbn in Hb. injection Hb as <-. split; [lia | lia].
           ++ cbn in Hb. split; [apply (Hall j b Hb) | lia].
        -- exists (S k), a. rewrite Hr.
           split; [lia |]. split; [exact Hk |].
           split; [destruct m as [mv |]; [lia | exact I] |].
           intros [| j] b Hb.
           ++ cbn in Hb. injection Hb as <-. split; lia.
           ++ cbn in Hb. destruct (Hmin j b Hb) as [Hle Hlt].
              split; [exact Hle | intros Hj; apply Hlt; lia].
      * destruct m as [mv |]; [| discriminate].
        apply Z.ltb_ge in Hbeats.
        destruct (IH (S i) c (Some mv))
          as [[Hr Hall] | (k & a & Hr & Hk & Ha & Hmin)].
        -- left. split; [exact Hr |].
           intros [| j] b Hb.
           ++ cbn in Hb. injection Hb as <-. exact Hbeats.
           ++ cbn in Hb. apply (Hall j b Hb).
        -- right. exists (S k), a. rewrite Hr.
           split; [lia |]. split; [exact Hk |]. split; [exact Ha |].
           intros [| j] b Hb.
           ++ cbn in Hb. injection Hb as <-. split; lia.
           ++ cbn in Hb. destruct (Hmin j b Hb) as [Hle Hlt].
              split; [exact Hle | intros Hj; apply Hlt; lia].
    + destruct (IH (S i) c m)
        as [[Hr Hall] | (k & a & Hr & Hk & Ha & Hmin)].
      * left. split; [exact Hr |].
        intros [| j] b Hb; [discriminate |]. cbn in Hb. apply (Hall j b Hb).
      * right. exists (S k), a. rewrite Hr.
        split; [lia |]. split; [exact Hk |]. split; [exact Ha |].
        intros [| j] b Hb; [discriminate |].
        cbn in Hb. destruct (Hmin j b Hb) as [Hle Hlt].
        split; [exact Hle | intros Hj; apply Hlt; lia].
Qed.

Lemma parseWeatherData_value (data : WeatherData) (h : Hourly)
    (times : list (option Z)) (speeds directions : list JS.num) (ts : Z) :
  hourly data = Some h ->
  h_time h = Some times -> times <> [] ->
  h_wind_speed_10m h = Some speeds ->
  h_wind_direction_10m h = Some directions ->
  parseWeatherData data ts =
  inr (mkWindValues
         (JS.or_num (at_index speeds (closestHourLoop times ts 0 0 None)) 0
          * 3.6 * (ln (1.5 / 0.1) / ln (10 / 0.1)))
         (JS.or_num
            (at_index directions (closestHourLoop times ts 0 0 None)) 0)).
Proof.
  intros Hh Ht Hne Hs Hd. unfold parseWeatherData.
  rewrite Hh, Ht. destruct times as [| t0 rest]; [contradiction |].
  rewrite Hs, Hd. reflexivity.
Qed.

(** X17: from a response whose hourly arrays are present and whose time
    array is not empty, [parseWeatherData] takes wind speed and
    direction at one index; if any entry of the time array is a valid
    date, that index is the entry nearest in time to the requested
    timestamp, the first one among equally near entries. *)
Theorem parseWeatherData_closest_hour (data : WeatherData) (h : Hourly)
    (times : list (option Z)) (speeds directions : list JS.num) (ts : Z) :
  hourly data = Some h ->
  h_time h = Some times -> times <> [] ->
  h_wind_speed_10m h = Some speeds ->
  h_wind_direction_10m h = Some directions ->
  exists idx,
    parseWeatherData data ts =
      inr (mkWindValues
             (JS.or_num (at_index speeds idx) 0 * 3.6 *
              (ln (1.5 / 0.1) / ln (10 / 0.1)))
             (JS.or_num (at_index directions idx) 0)) /\
    forall j b, nth_error times j = Some (Some b) ->
      exists a,
        nth_error times idx = Some (Some a) /\
        (Z.abs (a - ts) <= Z.abs (b - ts))%Z /\
        ((j < idx)%nat -> (Z.abs (a - ts) < Z.abs (b - ts))%Z).
Proof.
  intros Hh Ht Hne Hs Hd.
  exists (closestHourLoop times ts 0 0 None).
  split; [apply (parseWeatherData_value data h); assumption |].
  intros j b Hb.
  destruct (closestHourLoop_scan ts times 0 0 None)
    as [[_ Hall] | (k & a & Hr & Hk & _ & Hmin)].
  - destruct (Hall j b Hb).
  - cbn in Hr. rewrite Hr. exists a. split; [exact Hk |].
    apply (Hmin j b Hb).
Qed.

Lemma height_factor_bounds :
  1 / 2 < ln (1.5 / 0.1) / ln (10 / 0.1) < 2 / 3.
Proof.
  replace (1.5 / 0.1) with 15 by lra.
  replace (10 / 0.1) with 100 by lra.
  assert (H15 : ln 15 + ln 15 = ln 225).
  { rewrite <- ln_mult by lra. f_equal. lra. }
  assert (H3 : ln 15 + ln 225 = ln 3375).
  { rewrite <- ln_mult by lra. f_equal. lra. }
  assert (H100 : ln 100 + ln 100 = ln 10000).
  { rewrite <- ln_mult by lra. f_equal. lra. }
  assert (Hpos : 0 < ln 100)
    by (rewrite <- ln_1; apply ln_increasing; lra).
  assert (Hlo : ln 100 < ln 225) by (apply ln_increasing; lra).
  assert (Hhi : ln 3375 < ln 10000) by (apply ln_increasing; lra).
  split.
  - apply Rmult_lt_reg_r with (r := ln 100); [exact Hpos |].
    replace (ln 15 / ln 100 * ln 100) with (ln 15) by (field; lra). lra.
  - apply Rmult_lt_reg_r with (r := ln 100); [exact Hpos |].
    replace (ln 15 / ln 100 * ln 100) with (ln 15) by (field; lra). lra.
Qed.

(** X18: the wind speed that [parseWeatherData] returns is the 10 m
    speed of the response, read as 0 when it is missing, converted from
    m/s to km/h and reduced to rider height: for a non-negative 10 m
    speed it lies between one half and two thirds of that speed in
    km/h.  The direction is returned as it is, 0 when missing. *)
Theorem parseWeatherData_height_adjustment (data : WeatherData) (h : Hourly)
    (times : list (option Z)) (speeds directions : list JS.num) (ts : Z) :
  hourly data = Some h ->
  h_time h = Some times -> times <> [] ->
  h_wind_speed_10m h = Some speeds ->
  h_wind_direction_10m h = Some directions ->
  let idx := closestHourLoop times ts 0 0 None in
  let ms := JS.or_num (at_index speeds idx) 0 in
  exists v,
    parseWeatherData data ts = inr v /\
    wv_wind_direction v = JS.or_num (at_index directions idx) 0 /\
    (0 <= ms -> ms * 3.6 / 2 <= wv_wind_speed v <= ms * 3.6 * 2 / 3) /\
    (at_index speeds idx = None -> wv_wind_speed v = 0).
Proof.
  intros Hh Ht Hne Hs Hd idx ms.
  eexists. split; [apply (parseWeatherData_value data h); eassumption |].
  cbn [wv_wind_speed wv_wind_direction]. fold idx. fold ms.
  split; [reflexivity |].
  pose proof height_factor_bounds as [Hlo Hhi].
  set (c := ln (1.5 / 0.1) / ln (10 / 0.1)) in *.
  split.
  - intros Hms. split; nra.
  - intros Hnone. unfold ms. rewrite Hnone. cbn [JS.or_num]. ring.
Qed.

Lemma parseWeatherData_closest_hour_witness :
  exists idx,
    parseWeatherData evening_response 1700000000000 =
      inr (mkWindValues
             (JS.or_num (at_index [Some 5; Some 8] idx) 0 * 3.6 *
              (ln (1.5 / 0.1) / ln (10 / 0.1)))
             (JS.or_num (at_index [Some 270; Some 300] idx) 0)) /\
    nth_error [Some 1699999200000%Z; Some 1700002800000%Z] idx
      = Some (Some 1699999200000%Z).
Proof.
  destruct (parseWeatherData_closest_hour evening_response evening_hours
              [Some 1699999200000%Z; Some 1700002800000%Z]
              [Some 5; Some 8] [Some 270; Some 300] 1700000000000
              eq_refl eq_refl ltac:(discriminate) eq_refl eq_refl)
    as (idx & Hparse & Hmin).
  exists idx. split; [exact Hparse |].
  destruct (Hmin 0%nat 1699999200000%Z eq_refl) as (a & Ha & Hle & _).
  destruct idx as [| [| idx]]; cbn in Ha |- *.
  - reflexivity.
  - injection Ha as <-. cbn in Hle. lia.
  - destruct idx; discriminate.
Defined.

Lemma parseWeatherData_height_adjustment_witness :
  exists v,
    parseWeatherData evening_response 1700000000000 = inr v /\
    wv_wind_direction v = 270 /\
    9 <= wv_wind_speed v <= 12.
Proof.
  destruct (parseWeatherData_height_adjustment evening_response evening_hours
              [Some 1699999200000%Z; Some 1700002800000%Z]
              [Some 5; Some 8] [Some 270; Some 300] 1700000000000
              eq_refl eq_refl ltac:(discriminate) eq_refl eq_refl)
    as (v & Hparse & Hdir & Hspeed & _).
  change (closestHourLoop [Some 1699999200000%Z; Some 1700002800000%Z]
            1700000000000 0 0 None) with 0%nat in Hdir, Hspeed.
  cbn [at_index nth_error JS.or_num] in Hdir, Hspeed.
  destruct (Req_dec_T 270 0) as [H270 |]; [lra |].
  destruct (Req_dec_T 5 0) as [H5 |]; [lra |].
  exists v. split; [exact Hparse |]. split; [exact Hdir |].
  assert (H : 0 <= 5) by lra. specialize (Hspeed H). lra.
Defined.

(** ** Ingestion: what a loaded track looks like *)

Lemma insertByTime_perm (p : Point) (l : list Point) :
  Permutation (insertByTime p l) (p :: l).
Proof.
  induction l as [| q rest IH]; [reflexivity |].
  cbn [insertByTime]. destruct (compareTime q p <? 0)%Z; [| reflexivity].
  rewrite IH. apply perm_swap.
Qed.

Lemma sortByTime_perm (l : list Point) : Permutation (sortByTime l) l.
Proof.
  induction l as [| p rest IH]; [reflexivity |].
  cbn [sortByTime fold_right]. fold (sortByTime rest).
  rewrite insertByTime_perm. constructor. exact IH.
Qed.

Lemma insertByTime_sorted (p : Point) (l : list Point) :
  Sorted Z.le (map timeKey l) ->
  Sorted Z.le (map timeKey (insertByTime p l)).
Proof.
  induction l as [| q rest IH]; intros Hsorted.
  - cbn. constructor; constructor.
  - cbn [insertByTime]. unfold compareTime. fold (timeKey q) (timeKey p).
    destruct (timeKey q - timeKey p <? 0)%Z eqn:Hlt.
    + apply Z.ltb_lt in Hlt.
      inversion Hsorted as [| ? ? Hrest Hhd]; subst.
      cbn [map]. constructor; [apply IH; exact Hrest |].
      destruct rest as [| r rest'].
      * cbn. constructor. lia.
      * cbn [insertByTime]. destruct (compareTime r p <? 0)%Z.
        -- cbn [map]. constructor. inversion Hhd; subst. assumption.
        -- cbn [map]. constructor. lia.
    + apply Z.ltb_ge in Hlt. cbn [map].
      constructor; [exact Hsorted |]. constructor. lia.
Qed.

Lemma sortByTime_sorted (l : list Point) :
  Sorted Z.le (map timeKey (sortByTime l)).
Proof.
  induction l as [| p rest IH]; [constructor |].
  cbn [sortByTime fold_right]. fold (sortByTime rest).
  apply insertByTime_sorted. exact IH.
Qed.

Lemma calculateSpeedAndBearing_keptFields (gpxData : list Point) :
  map keptFields (calculateSpeedAndBearing gpxData) = map keptFields gpxData.
Proof.
  destruct gpxData as [| first rest]; [reflexivity |].
  cbn [calculateSpeedAndBearing map]. rewrite kinematicsLoop_keptFields.
  reflexivity.
Qed.

Lemma map_through_keptFields {A : Type}
    (f : R * R * R * option Z * JS.num * JS.num * JS.num -> A)
    (l l' : list Point) :
  map keptFields l = map keptFields l' ->
  map (fun p => f (keptFields p)) l = map (fun p => f (keptFields p)) l'.
Proof.
  intros H. rewrite <- !(map_map keptFields f). rewrite H. reflexivity.
Qed.

Lemma calculateSpeedAndBearing_fixOf (gpxData : list Point) :
  map fixOf (calculateSpeedAndBearing gpxData) = map fixOf gpxData.
Proof.
  apply (map_through_keptFields
           (fun k => match k with
                     | (la, lo, el, t, _, _, _) => (la, lo, el, t)
                     end)).
  apply calculateSpeedAndBearing_keptFields.
Qed.

Lemma calculateSpeedAndBearing_timeKey (gpxData : list Point) :
  map timeKey (calculateSpeedAndBearing gpxData) = map timeKey gpxData.
Proof.
  apply (map_through_keptFields
           (fun k => match k with
                     | (_, _, _, t, _, _, _) => JS.time_value t
                     end)).
  apply calculateSpeedAndBearing_keptFields.
Qed.

Lemma last_of_map {A B : Type} (f : A -> B) (l : list A) (d : A) :
  last (map f l) (f d) = f (last l d).
Proof.
  induction l as [| a l IH]; [reflexivity |].
  destruct l as [| b l']; [reflexivity |].
  change (last (map f (a :: b :: l')) (f d))
    with (last (map f (b :: l')) (f d)).
  rewrite IH. reflexivity.
Qed.

Lemma keptFields_time (l l' : list Point) :
  map keptFields l = map keptFields l' -> map time l = map time l'.
Proof.
  apply (map_through_keptFields
           (fun k => match k with (_, _, _, t, _, _, _) => t end)).
Qed.

Section LoadedTrack.

Variable Date_parse : string -> option Z.
Variable getFullYear : Z -> Z.
Variable trim : string -> string.

(** What [readGPXFile] has done when it returns. *)
Lemma readGPXFile_success (xmlDoc : XmlDoc) (gpxData : list Point) :
  readGPXFile Date_parse getFullYear trim xmlDoc = inr gpxData ->
  let points := extractLoop Date_parse trim (selectTrackPoints xmlDoc) in
  points <> [] /\
  existsb (hasValidTime getFullYear) points = true /\
  gpxData = calculateSpeedAndBearing (sortByTime points) /\
  exists first rest,
    sortByTime points = first :: rest /\
    time first <> None /\ time (last (first :: rest) first) <> None.
Proof.
  cbv zeta. unfold readGPXFile, extractGPXPoints.
  destruct (selectTrackPoints xmlDoc) as [| r0 raws]; [discriminate |].
  destruct (extractLoop Date_parse trim (r0 :: raws)) as [| p0 ps] eqn:Hpts;
    [discriminate |].
  unfold validateTimestamps.
  destruct (existsb (hasValidTime getFullYear) (p0 :: ps)) eqn:Hex;
    [| discriminate].
  cbn [negb].
  destruct (sortByTime (p0 :: ps)) as [| f fs] eqn:Hsort; [discriminate |].
  destruct (time f) eqn:Hf; [| discriminate].
  destruct (time (last (f :: fs) f)) eqn:Hl; [| discriminate].
  intros H. injection H as <-.
  split; [discriminate |]. split; [reflexivity |]. split; [reflexivity |].
  exists f, fs. split; [reflexivity |].
  rewrite Hf, Hl. split; discriminate.
Qed.

(** X19: a track that [readGPXFile] has loaded is in ascending order
    of time, it is not empty, its first and its last point have a
    time, and at least one of its points is dated in a year after
    2000. *)
Theorem loaded_track_is_time_ordered
    (xmlDoc : XmlDoc) (gpxData : list Point) :
  readGPXFile Date_parse getFullYear trim xmlDoc = inr gpxData ->
  Sorted Z.le (map timeKey gpxData) /\
  (exists first rest,
     gpxData = first :: rest /\
     time first <> None /\ time (last gpxData first) <> None) /\
  Exists (fun p => hasValidTime getFullYear p = true) gpxData.
Proof.
  intros Hread.
  destruct (readGPXFile_success _ _ Hread)
    as (Hne & Hex & -> & f & fs & Hsort & Hf & Hl).
  set (points := extractLoop Date_parse trim (selectTrackPoints xmlDoc)) in *.
  split.
  - rewrite calculateSpeedAndBearing_timeKey. apply sortByTime_sorted.
  - pose proof (calculateSpeedAndBearing_keptFields (sortByTime points))
      as Hkept.
    rewrite Hsort in *.
    cbn [calculateSpeedAndBearing] in *.
    set (f' := setKinematics f (Some 0) (Some 0) (Some 0)) in *.
    split.
    + exists f', (kinematicsLoop f' (Some 0) fs).
      split; [reflexivity |]. split; [exact Hf |].
      rewrite last_cons in Hl |- *.
      assert (Htime : map time (kinematicsLoop f' (Some 0) fs) = map time fs).
      { apply keptFields_time. apply kinematicsLoop_keptFields. }
      rewrite <- (last_of_map time _ f'), Htime.
      change (time f') with (time f).
      rewrite (last_of_map time fs f). exact Hl.
    + apply Exists_exists.
      apply existsb_exists in Hex. destruct Hex as (p & Hin & Hvalid).
      assert (Hin' : In p (f :: fs)).
      { rewrite <- Hsort. apply (Permutation_in _ (Permutation_sym
                                   (sortByTime_perm points))). exact Hin. }
      apply (in_map keptFields) in Hin'. rewrite <- Hkept in Hin'.
      apply in_map_iff in Hin'. destruct Hin' as (q & Hq & Hinq).
      exists q. split; [exact Hinq |].
      unfold hasValidTime in *.
      assert (Ht : time q = time p).
      { unfold keptFields in Hq. injection Hq as _ _ _ Ht _ _ _. exact Ht. }
      rewrite Ht. exact Hvalid.
Qed.

End LoadedTrack.

Lemma isValidCoordinate_accepts (a b : R) :
  isValidCoordinate (Some a) (Some b) = true ->
  -90 <= a <= 90 /\ a <> 0 /\ -180 <= b <= 180 /\ b <> 0.
Proof.
  unfold isValidCoordinate, truthy, Rleb. intros H.
  destruct (Req_dec_T a 0); [discriminate |].
  destruct (Req_dec_T b 0); [discriminate |].
  destruct (Rle_dec (-90) a); [| discriminate].
  destruct (Rle_dec a 90); [| discriminate].
  destruct (Rle_dec (-180) b); [| discriminate].
  destruct (Rle_dec b 180); [| discriminate].
  repeat split; assumption.
Qed.

Section LoadedTrackPoints.

Variable Date_parse : string -> option Z.
Variable getFullYear : Z -> Z.
Variable trim : string -> string.

Lemma extractLoop_cons_valid (r : RawPoint) (rest : list RawPoint) :
  coordinateValid r = true ->
  exists la lo,
    raw_lat r = Some la /\ raw_lon r = Some lo /\
    extractLoop Date_parse trim (r :: rest) =
      newPoint Date_parse trim r la lo :: extractLoop Date_parse trim rest.
Proof.
  unfold coordinateValid. intros Hv. cbn [extractLoop]. rewrite Hv.
  destruct (isValidCoordinate_numbers _ _ Hv) as (a & b & Ha & Hb & _).
  exists a, b. rewrite Ha, Hb. repeat split.
Qed.

Lemma extractLoop_madeFrom (l : list RawPoint) :
  Forall2 (madeFrom Date_parse trim)
          (extractLoop Date_parse trim l) (filter coordinateValid l).
Proof.
  induction l as [| r rest IH]; [constructor |].
  cbn [filter]. destruct (coordinateValid r) eqn:Hv.
  - destruct (extractLoop_cons_valid r rest Hv) as (la & lo & Hla & Hlo & ->).
    constructor; [| exact IH].
    unfold madeFrom. cbn [newPoint lat lon elevation time].
    repeat split; assumption.
  - rewrite (extractLoop_skip Date_parse trim r rest Hv). exact IH.
Qed.

Lemma extractLoop_accepted (l : list RawPoint) :
  Forall coordinatesAccepted (extractLoop Date_parse trim l).
Proof.
  induction l as [| r rest IH]; [constructor |].
  destruct (coordinateValid r) eqn:Hv.
  - destruct (extractLoop_cons_valid r rest Hv) as (la & lo & Hla & Hlo & ->).
    constructor; [| exact IH].
    unfold coordinateValid in Hv. rewrite Hla, Hlo in Hv.
    unfold coordinatesAccepted. cbn [newPoint lat lon].
    apply isValidCoordinate_accepts. exact Hv.
  - rewrite (extractLoop_skip Date_parse trim r rest Hv). exact IH.
Qed.

Lemma coordinatesAccepted_fixOf (l l' : list Point) :
  Permutation (map fixOf l) (map fixOf l') ->
  Forall coordinatesAccepted l' -> Forall coordinatesAccepted l.
Proof.
  intros Hperm Hall.
  set (Q := fun k : R * R * R * option Z =>
              match k with
              | (la, lo, _, _) =>
                  -90 <= la <= 90 /\ la <> 0 /\ -180 <= lo <= 180 /\ lo <> 0
              end).
  assert (HQ : forall m, Forall coordinatesAccepted m <->
                         Forall Q (map fixOf m)).
  { intros m. rewrite Forall_map. reflexivity. }
  apply HQ. apply (Permutation_Forall (Permutation_sym Hperm)).
  apply HQ. exact Hall.
Qed.

(** X20: the track that [readGPXFile] has loaded consists of exactly
    the point elements that pass the coordinate check, each one read
    once (position, elevation with 0 as default, parsed time) and the
    whole reordered by time; every loaded point has a latitude within
    [-90, 90] and a longitude within [-180, 180], neither equal to 0. *)
Theorem loaded_track_points (xmlDoc : XmlDoc) (gpxData : list Point) :
  readGPXFile Date_parse getFullYear trim xmlDoc = inr gpxData ->
  Forall coordinatesAccepted gpxData /\
  exists points,
    Forall2 (madeFrom Date_parse trim) points
            (filter coordinateValid (selectTrackPoints xmlDoc)) /\
    Permutation (map fixOf gpxData) (map fixOf points).
Proof.
  intros Hread.
  destruct (readGPXFile_success Date_parse getFullYear trim _ _ Hread)
    as (_ & _ & -> & _).
  set (points := extractLoop Date_parse trim (selectTrackPoints xmlDoc)).
  assert (Hperm : Permutation
                    (map fixOf (calculateSpeedAndBearing (sortByTime points)))
                    (map fixOf points)).
  { rewrite calculateSpeedAndBearing_fixOf.
    apply Permutation_map. apply sortByTime_perm. }
  split.
  - apply (coordinatesAccepted_fixOf _ points Hperm).
    apply extractLoop_accepted.
  - exists points. split; [apply extractLoop_madeFrom | exact Hperm].
Qed.

End LoadedTrackPoints.

Section PartlyTimedTrack.

Variable Date_parse : string -> option Z.
Variable getFullYear : Z -> Z.
Variable trim : string -> string.

Lemma extractLoop_of_raw (l : list RawPoint) (r : RawPoint) :
  In r l -> coordinateValid r = true ->
  exists p, In p (extractLoop Date_parse trim l) /\
            time p = extractTimestamp Date_parse trim r.
Proof.
  induction l as [| r0 rest IH]; intros Hin Hv; [destruct Hin |].
  destruct (coordinateValid r0) eqn:Hv0.
  - destruct (extractLoop_cons_valid Date_parse trim r0 rest Hv0)
      as (la & lo & _ & _ & ->).
    destruct Hin as [<- | Hin].
    + eexists. split; [left; reflexivity | reflexivity].
    + destruct (IH Hin Hv) as (p & Hp & Ht).
      exists p. split; [right; exact Hp | exact Ht].
  - rewrite (extractLoop_skip Date_parse trim r0 rest Hv0).
    destruct Hin as [<- | Hin]; [congruence |].
    apply IH; assumption.
Qed.

Lemma extractLoop_to_raw (l : list RawPoint) (p : Point) :
  In p (extractLoop Date_parse trim l) ->
  exists r, In r l /\ coordinateValid r = true /\
            time p = extractTimestamp Date_parse trim r.
Proof.
  induction l as [| r0 rest IH]; intros Hin; [destruct Hin |].
  destruct (coordinateValid r0) eqn:Hv0.
  - destruct (extractLoop_cons_valid Date_parse trim r0 rest Hv0)
      as (la & lo & _ & _ & Heq).
    rewrite Heq in Hin. destruct Hin as [<- | Hin].
    + exists r0. split; [left; reflexivity |]. split; [exact Hv0 |].
      reflexivity.
    + destruct (IH Hin) as (r & Hr & Hv & Ht).
      exists r. split; [right; exact Hr |]. split; assumption.
  - rewrite (extractLoop_skip Date_parse trim r0 rest Hv0) in Hin.
    destruct (IH Hin) as (r & Hr & Hv & Ht).
    exists r. split; [right; exact Hr |]. split; assumption.
Qed.

(** X21: a document in which one coordinate-valid point has a usable
    timestamp and another coordinate-valid point has no parseable time
    at all is not loaded, provided no time is at or before the epoch:
    the time-less point sorts to the front and the log line that reads
    the first time throws a TypeError. *)
Theorem partly_timed_track_fails (xmlDoc : XmlDoc) (r1 r2 : RawPoint) :
  In r1 (selectTrackPoints xmlDoc) -> coordinateValid r1 = true ->
  usableTimestamp Date_parse getFullYear trim r1 = true ->
  In r2 (selectTrackPoints xmlDoc) -> coordinateValid r2 = true ->
  extractTimestamp Date_parse trim r2 = None ->
  (forall r t, In r (selectTrackPoints xmlDoc) -> coordinateValid r = true ->
               extractTimestamp Date_parse trim r = Some t -> (0 < t)%Z) ->
  readGPXFile Date_parse getFullYear trim xmlDoc = inl TypeError.
Proof.
  intros Hin1 Hv1 Hu1 Hin2 Hv2 Hnone Hpos.
  set (points := extractLoop Date_parse trim (selectTrackPoints xmlDoc)).
  destruct (extractLoop_of_raw _ _ Hin2 Hv2) as (p2 & Hp2 & Ht2).
  fold points in Hp2. rewrite Hnone in Ht2.
  assert (Hex : existsb (hasValidTime getFullYear) points = true).
  { unfold points. rewrite extractLoop_hasValidTime.
    apply existsb_exists. exists r1. split; [exact Hin1 |].
    rewrite Hv1, Hu1. reflexivity. }
  unfold readGPXFile, extractGPXPoints.
  destruct (selectTrackPoints xmlDoc) as [| r0 raws] eqn:Hsel;
    [destruct Hin1 |].
  fold points. destruct points as [| p0 ps] eqn:Hpts; [destruct Hp2 |].
  unfold validateTimestamps. rewrite Hex. cbn [negb].
  pose proof (sortByTime_perm (p0 :: ps)) as Hperm.
  pose proof (sortByTime_sorted (p0 :: ps)) as Hsorted.
  destruct (sortByTime (p0 :: ps)) as [| f fs].
  { apply Permutation_nil in Hperm. discriminate. }
  destruct (time f) as [t |] eqn:Hf; [| reflexivity].
  exfalso.
  assert (Hfin : In f (p0 :: ps))
    by (apply (Permutation_in _ Hperm); left; reflexivity).
  assert (Hp2in : In p2 (f :: fs))
    by (apply (Permutation_in _ (Permutation_sym Hperm)); exact Hp2).
  assert (Ht : (0 < t)%Z).
  { rewrite <- Hpts in Hfin. unfold points in Hfin.
    destruct (extractLoop_to_raw _ _ Hfin) as (r & Hr & Hv & Htr).
    rewrite Hf in Htr.
    apply (Hpos r t); auto. }
  assert (Hss : StronglySorted Z.le (map timeKey (f :: fs))).
  { apply Sorted_StronglySorted; [| exact Hsorted].
    intros a b c. lia. }
  cbn [map] in Hss. inversion Hss as [| ? ? _ Hall]; subst.
  destruct Hp2in as [<- | Hp2in]; [congruence |].
  rewrite Forall_forall in Hall.
  specialize (Hall (timeKey p2) (in_map timeKey _ _ Hp2in)).
  unfold timeKey in Hall. rewrite Hf, Ht2 in Hall. cbn in Hall. lia.
Qed.

End PartlyTimedTrack.

Lemma timed_point_valid : coordinateValid timed_point = true.
Proof.
  unfold coordinateValid, isValidCoordinate, truthy, Rleb.
  cbn [raw_lat raw_lon timed_point].
  decide_reals.
Qed.

Lemma partly_timed_track_fails_witness :
  readGPXFile host_Date_parse host_getFullYear host_trim partly_timed_doc
    = inl TypeError.
Proof.
  apply (partly_timed_track_fails host_Date_parse host_getFullYear host_trim
           partly_timed_doc timed_point (untimed_point 46.001 7.001)).
  - left. reflexivity.
  - exact timed_point_valid.
  - reflexivity.
  - right. left. reflexivity.
  - apply untimed_point_valid; lra.
  - reflexivity.
  - intros r t [<- | [<- | []]] _ Ht.
    + cbn in Ht. injection Ht as <-. lia.
    + discriminate.
Defined.

Lemma timed_point_next_valid : coordinateValid timed_point_next = true.
Proof.
  unfold coordinateValid, isValidCoordinate, truthy, Rleb.
  cbn [raw_lat raw_lon timed_point_next].
  decide_reals.
Qed.

Lemma timed_doc_loads :
  readGPXFile host_Date_parse host_getFullYear host_trim timed_doc
    = inr timed_track.
Proof.
  unfold readGPXFile, extractGPXPoints.
  cbn [selectTrackPoints timed_doc trkpt].
  destruct (extractLoop_cons_valid host_Date_parse host_trim timed_point
              [timed_point_next] timed_point_valid)
    as (la & lo & Hla & Hlo & ->).
  destruct (extractLoop_cons_valid host_Date_parse host_trim timed_point_next
              [] timed_point_next_valid)
    as (la' & lo' & Hla' & Hlo' & ->).
  cbn in Hla, Hlo, Hla', Hlo'.
  injection Hla as <-. injection Hlo as <-.
  injection Hla' as <-. injection Hlo' as <-.
  reflexivity.
Qed.

Lemma loaded_track_is_time_ordered_witness :
  Sorted Z.le (map timeKey timed_track) /\
  (exists first rest,
     timed_track = first :: rest /\
     time first <> None /\ time (last timed_track first) <> None) /\
  Exists (fun p => hasValidTime host_getFullYear p = true) timed_track.
Proof.
  apply (loaded_track_is_time_ordered host_Date_parse host_getFullYear
           host_trim timed_doc timed_track).
  exact timed_doc_loads.
Defined.

Lemma loaded_track_points_witness :
  Forall coordinatesAccepted timed_track /\
  exists points,
    Forall2 (madeFrom host_Date_parse host_trim) points
            (filter coordinateValid (selectTrackPoints timed_doc)) /\
    Permutation (map fixOf timed_track) (map fixOf points).
Proof.
  apply (loaded_track_points host_Date_parse host_getFullYear host_trim
           timed_doc timed_track).
  exact timed_doc_loads.
Defined.

(** ** Timestamp repair *)

Lemma digit_differs (a c : ascii) :
  is_digit a = true -> is_digit c = false -> Ascii.eqb a c = false.
Proof.
  intros Ha Hc. destruct (Ascii.eqb a c) eqn:Heq; [| reflexivity].
  apply Ascii.eqb_eq in Heq. subst. congruence.
Qed.

Lemma matches_pattern_avoids (c : ascii) (pat : list (option ascii)) :
  is_digit c = false ->
  Forall (fun o => o <> Some c) pat ->
  forall s, matches_pattern pat s = true -> includes c s = false.
Proof.
  intros Hc. induction pat as [| o pat' IH]; intros Hall s Hm.
  - destruct s; [reflexivity | discriminate].
  - inversion Hall as [| ? ? Ho Hrest]; subst.
    destruct s as [| a s']; [destruct o; discriminate |].
    cbn [includes]. destruct o as [l |]; cbn [matches_pattern] in Hm;
      apply andb_true_iff in Hm; destruct Hm as [Ha Hm'].
    + apply Ascii.eqb_eq in Ha. subst a.
      replace (Ascii.eqb l c) with false.
      * cbn. apply IH; assumption.
      * symmetry. apply Ascii.eqb_neq. intros ->. apply Ho. reflexivity.
    + rewrite (digit_differs a c Ha Hc). cbn. apply IH; assumption.
Qed.

Lemma matches_pattern_length (pat : list (option ascii)) :
  forall s, matches_pattern pat s = true ->
            String.length s = List.length pat.
Proof.
  induction pat as [| o pat' IH]; intros s Hm.
  - destruct s; [reflexivity | discriminate].
  - destruct s as [| a s']; [destruct o; discriminate |].
    destruct o; cbn [matches_pattern] in Hm;
      apply andb_true_iff in Hm; destruct Hm as [_ Hm'];
      cbn; f_equal; apply IH; exact Hm'.
Qed.

Lemma matches_pattern_split (c d : ascii) (p1 p2 : list (option ascii)) :
  is_digit c = false ->
  Forall (fun o => o <> Some c) p1 ->
  forall s, matches_pattern (p1 ++ Some c :: p2) s = true ->
    exists s1 s2,
      s = (s1 ++ String c s2)%string /\
      String.length s1 = List.length p1 /\
      replace_first c d s = (s1 ++ String d s2)%string /\
      matches_pattern p2 s2 = true.
Proof.
  intros Hc. induction p1 as [| o p1' IH]; intros Hall s Hm.
  - cbn [app] in Hm. destruct s as [| a s']; [discriminate |].
    cbn [matches_pattern] in Hm. apply andb_true_iff in Hm.
    destruct Hm as [Ha Hm']. apply Ascii.eqb_eq in Ha. subst a.
    exists EmptyString, s'. cbn. rewrite Ascii.eqb_refl.
    repeat split. exact Hm'.
  - inversion Hall as [| ? ? Ho Hrest]; subst.
    cbn [app] in Hm. destruct s as [| a s']; [destruct o; discriminate |].
    assert (Hne : Ascii.eqb a c = false /\
                  matches_pattern (p1' ++ Some c :: p2) s' = true).
    { destruct o as [l |]; cbn [matches_pattern] in Hm;
        apply andb_true_iff in Hm; destruct Hm as [Ha Hm']; split;
        try exact Hm'.
      - apply Ascii.eqb_eq in Ha. subst a. apply Ascii.eqb_neq.
        intros ->. apply Ho. reflexivity.
      - apply digit_differs; assumption. }
    destruct Hne as [Hac Hm'].
    destruct (IH Hrest s' Hm') as (s1 & s2 & -> & Hlen & Hrep & Hp2).
    exists (String a s1), s2. cbn [String.append String.length replace_first].
    rewrite Hac, Hrep, Hlen. repeat split. exact Hp2.
Qed.

Section TimestampRepair.

Variable Date_parse : string -> option Z.
Variable trim : string -> string.

(** X22: a time text of the form "YYYY-MM-DD HH:MM:SS" is handed to the
    date parser a second time as the ISO-8601 UTC text made of the same
    date and clock, "YYYY-MM-DDTHH:MM:SSZ"; [extractTimestamp] returns
    that second reading when the first reading of the trimmed text
    fails. *)
Theorem space_separated_time_is_repaired (s : string) :
  matches_pattern space_separated_pattern s = true ->
  exists date clock,
    s = (date ++ String " " clock)%string /\
    String.length date = 10%nat /\ String.length clock = 8%nat /\
    parseAlternativeTimeFormats Date_parse s =
      Date_parse ((date ++ String "T" clock) ++ "Z")%string /\
    forall r text,
      raw_time r = Some text -> text <> EmptyString -> trim text = s ->
      Date_parse s = None ->
      extractTimestamp Date_parse trim r =
        Date_parse ((date ++ String "T" clock) ++ "Z")%string.
Proof.
  intros Hm.
  assert (HT : includes "T" s = false).
  { apply (matches_pattern_avoids "T" space_separated_pattern);
      [reflexivity | | exact Hm].
    repeat constructor; discriminate. }
  set (datePattern := [None; None; None; None; Some "-"; None; None;
                       Some "-"; None; None]%char).
  set (clockPattern := [None; None; Some ":"; None; None; Some ":";
                        None; None]%char).
  destruct (matches_pattern_split " " "T" datePattern clockPattern)
    with (s := s) as (date & clock & Hs & Hlen & Hrep & Hclock).
  { reflexivity. }
  { repeat constructor; discriminate. }
  { exact Hm. }
  exists date, clock.
  assert (Hparse : parseAlternativeTimeFormats Date_parse s =
                   Date_parse ((date ++ String "T" clock) ++ "Z")%string).
  { unfold parseAlternativeTimeFormats. rewrite HT. cbn [andb].
    rewrite Hm, Hrep. reflexivity. }
  split; [exact Hs |]. split; [exact Hlen |].
  split; [apply (matches_pattern_length clockPattern); exact Hclock |].
  split; [exact Hparse |].
  intros r text Hraw Hne Htrim Hfail.
  unfold extractTimestamp. rewrite Hraw.
  destruct text as [| a text']; [contradiction |].
  rewrite Htrim, Hfail. exact Hparse.
Qed.

End TimestampRepair.

Lemma append_same_length (d1 d2 x1 x2 : string) :
  (d1 ++ x1)%string = (d2 ++ x2)%string ->
  String.length d1 = String.length d2 ->
  d1 = d2 /\ x1 = x2.
Proof.
  revert d2. induction d1 as [| a d1 IH]; intros [| b d2] Heq Hlen;
    try discriminate.
  - split; [reflexivity | exact Heq].
  - cbn in Heq, Hlen. injection Heq as -> Heq. injection Hlen as Hlen.
    destruct (IH d2 Heq Hlen) as [-> ->]. split; reflexivity.
Qed.

Lemma space_separated_time_is_repaired_witness :
  extractTimestamp host_Date_parse host_trim space_timed_point
    = Some 1700000000000%Z.
Proof.
  destruct (space_separated_time_is_repaired host_Date_parse host_trim
              "2023-11-14 22:13:20" eq_refl)
    as (date & clock & Hs & Hdate & _ & _ & Hextract).
  rewrite (Hextract space_timed_point "2023-11-14 22:13:20"%string
             eq_refl ltac:(discriminate) eq_refl eq_refl).
  destruct (append_same_length "2023-11-14" date
              (String " " "22:13:20") (String " " clock) Hs)
    as [<- Hclock].
  - rewrite Hdate. reflexivity.
  - injection Hclock as <-. reflexivity.
Defined.

(** ** Statistics of a processed track *)









(** ** Route rendering: the smoothed route *)

Lemma collect_results {A : Type} (calls : list (Error + A)) :
  forall results,
    collect calls = inr results ->
    List.length results = List.length calls /\
    (forall a, In a results -> In (inr a) calls).
Proof.
  induction calls as [| [e | a] calls IH]; intros results H; cbn in H.
  - injection H as <-. split; [reflexivity | intros a []].
  - discriminate.
  - destruct (collect calls) as [e | others]; [discriminate |].
    injection H as <-. destruct (IH others eq_refl) as [Hlen Hin].
    split; [cbn; f_equal; exact Hlen |].
    intros x [<- | Hx]; [left; reflexivity | right; apply Hin; exact Hx].
Qed.

Lemma collect_error {A : Type} (calls : list (Error + A)) (e : Error) :
  collect calls = inl e -> In (inl e) calls.
Proof.
  induction calls as [| [e' | a] calls IH]; intros H; cbn in H.
  - discriminate.
  - injection H as <-. left. reflexivity.
  - destruct (collect calls) as [e' | others]; [| discriminate].
    injection H as <-. right. apply IH. reflexivity.
Qed.

Lemma interpolatePoint_error (current next : Point) (ratio : R) (e : Error) :
  interpolatePoint current next ratio = inl e ->
  e = TypeError /\ time current = None.
Proof.
  unfold interpolatePoint. destruct (time current); [discriminate |].
  intros H. injection H as <-. split; reflexivity.
Qed.

Lemma interpolatedBetween_results
    (current next : Point) (steps : Z) (added : list RoutePoint) :
  interpolatedBetween current next steps = inr added ->
  List.length added = (Z.to_nat steps - 1)%nat /\
  forall v, In v added ->
    exists step q,
      (1 <= step < Z.to_nat steps)%nat /\
      interpolatePoint current next (INR step / IZR steps) = inr q /\
      v = Interpolated q.
Proof.
  unfold interpolatedBetween. intros H.
  destruct (collect_results _ _ H) as [Hlen Hin].
  rewrite length_map, length_seq in Hlen. split; [exact Hlen |].
  intros v Hv. specialize (Hin v Hv). apply in_map_iff in Hin.
  destruct Hin as (step & Hcall & Hstep). apply in_seq in Hstep.
  cbv zeta in Hcall.
  destruct (interpolatePoint current next (INR step / IZR steps))
    as [e | q] eqn:Hq; [discriminate |].
  injection Hcall as <-. exists step, q.
  split; [lia | split; [exact Hq | reflexivity]].
Qed.

Lemma interpolatedBetween_error
    (current next : Point) (steps : Z) (e : Error) :
  interpolatedBetween current next steps = inl e ->
  e = TypeError /\ time current = None.
Proof.
  unfold interpolatedBetween. intros H. apply collect_error in H.
  apply in_map_iff in H. destruct H as (step & Hcall & _).
  cbv zeta in Hcall.
  destruct (interpolatePoint current next (INR step / IZR steps))
    as [e' | q] eqn:Hq; [| discriminate].
  injection Hcall as <-. exact (interpolatePoint_error _ _ _ _ Hq).
Qed.

Lemma interpolatedBetween_single_step (current next : Point) (steps : Z) :
  (steps <= 1)%Z -> interpolatedBetween current next steps = inr [].
Proof.
  intros Hsteps. unfold interpolatedBetween.
  replace (Z.to_nat steps - 1)%nat with 0%nat by lia. reflexivity.
Qed.

Lemma interpolatedBetween_untimed (current next : Point) (steps : Z) :
  (2 <= steps)%Z -> time current = None ->
  interpolatedBetween current next steps = inl TypeError.
Proof.
  intros Hsteps Hnone. unfold interpolatedBetween.
  destruct (Z.to_nat steps - 1)%nat as [| n] eqn:Hn; [lia |].
  cbn [seq map collect]. cbv zeta. unfold interpolatePoint.
  rewrite Hnone. reflexivity.
Qed.

Lemma steps_of_short_gap (distance : R) :
  distance < 100 -> (Z.min 5 (Zfloor (distance / 50)) <= 1)%Z.
Proof.
  intros Hd. pose proof (Zfloor_bound (distance / 50)) as [Hlo _].
  assert (Hlt : IZR (Zfloor (distance / 50)) < IZR 2) by lra.
  apply lt_IZR in Hlt. lia.
Qed.

Lemma steps_of_long_gap (distance : R) :
  100 <= distance -> (2 <= Z.min 5 (Zfloor (distance / 50)))%Z.
Proof.
  intros Hd.
  assert (H2 : (2 <= Zfloor (distance / 50))%Z) by (apply Zfloor_lub; lra).
  lia.
Qed.

Lemma long_gap_of_steps (distance : R) :
  (2 <= Z.min 5 (Zfloor (distance / 50)))%Z -> 100 <= distance.
Proof.
  intros Hsteps. pose proof (Zfloor_bound (distance / 50)) as [Hlo _].
  assert (H2 : IZR 2 <= IZR (Zfloor (distance / 50))) by (apply IZR_le; lia).
  lra.
Qed.

Lemma trackPointsOf_app (l1 l2 : list RoutePoint) :
  trackPointsOf (l1 ++ l2) = trackPointsOf l1 ++ trackPointsOf l2.
Proof.
  induction l1 as [| [p | q] l1 IH]; cbn; [reflexivity | f_equal |]; exact IH.
Qed.

Lemma trackPointsOf_interpolated (added : list RoutePoint) :
  (forall v, In v added -> exists q, v = Interpolated q) ->
  trackPointsOf added = [].
Proof.
  induction added as [| v added IH]; intros H; [reflexivity |].
  destruct (H v (or_introl eq_refl)) as (q & ->). cbn.
  apply IH. intros w Hw. apply H. right. exact Hw.
Qed.

Lemma createSmoothedRoutePoints_cons
    (current : Point) (following : list Point) (smoothed : list RoutePoint) :
  createSmoothedRoutePoints (current :: following) = inr smoothed ->
  exists added others,
    smoothed = TrackPoint current :: added ++ others /\
    createSmoothedRoutePoints following = inr others /\
    (List.length added <= 4)%nat /\
    (following = [] -> added = []) /\
    forall v, In v added ->
      exists next rest step q,
        following = next :: rest /\
        (2 <= Z.min 5 (Zfloor (distanceBetween current next / 50)))%Z /\
        (1 <= step <
           Z.to_nat (Z.min 5 (Zfloor (distanceBetween current next / 50))))%nat /\
        interpolatePoint current next
          (INR step /
           IZR (Z.min 5 (Zfloor (distanceBetween current next / 50))))
          = inr q /\
        v = Interpolated q.
Proof.
  cbn [createSmoothedRoutePoints]. cbv zeta. intros H.
  destruct following as [| next rest].
  - cbn in H. injection H as <-. exists [], [].
    repeat split; try reflexivity; [cbn; lia | intros v []].
  - fold (distanceBetween current next) in H.
    set (d := distanceBetween current next) in *.
    destruct (Rgt_dec d 50) as [Hfar | Hnear].
    + destruct (interpolatedBetween current next
                  (Z.min 5 (Zfloor (d / 50)))) as [e | added] eqn:Hadded;
        [discriminate |].
      destruct (createSmoothedRoutePoints (next :: rest))
        as [e | others]; [discriminate |].
      injection H as <-. exists added, others.
      destruct (interpolatedBetween_results _ _ _ _ Hadded) as [Hlen Hin].
      split; [reflexivity |]. split; [reflexivity |].
      split; [lia |]. split; [discriminate |].
      intros v Hv. destruct (Hin v Hv) as (step & q & Hstep & Hq & ->).
      exists next, rest, step, q. fold d.
      split; [reflexivity |]. split; [lia |].
      split; [exact Hstep |]. split; [exact Hq | reflexivity].
    + destruct (createSmoothedRoutePoints (next :: rest))
        as [e | others]; [discriminate |].
      injection H as <-. exists [], others.
      split; [reflexivity |]. split; [reflexivity |].
      split; [cbn; lia |]. split; [reflexivity |]. intros v [].
Qed.

Lemma last_after {A : Type} (l1 l2 : list A) (x d : A) :
  last (l1 ++ x :: l2) d = last (x :: l2) d.
Proof.
  induction l1 as [| a l1 IH]; [reflexivity |].
  change ((a :: l1) ++ x :: l2) with (a :: (l1 ++ x :: l2)).
  destruct (l1 ++ x :: l2) as [| b m] eqn:E; [destruct l1; discriminate |].
  change (last (a :: b :: m) d) with (last (b :: m) d). exact IH.
Qed.

Lemma smoothed_route_structure (gpxData : list Point) :
  forall smoothed,
    createSmoothedRoutePoints gpxData = inr smoothed ->
    trackPointsOf smoothed = gpxData /\
    (List.length gpxData <= List.length smoothed
       <= 5 * List.length gpxData - 4)%nat /\
    hd_error smoothed = option_map TrackPoint (hd_error gpxData) /\
    forall d, last smoothed (TrackPoint d) = TrackPoint (last gpxData d).
Proof.
  induction gpxData as [| current following IH]; intros smoothed H.
  - cbn in H. injection H as <-. cbn. repeat split; lia.
  - destruct (createSmoothedRoutePoints_cons _ _ _ H)
      as (added & others & -> & Hothers & Hlen & Hnil & Hadded).
    destruct (IH others Hothers) as (Htrack & Hsize & Hhd & Hlast).
    split; [| split; [| split]].
    + cbn [trackPointsOf]. rewrite trackPointsOf_app, Htrack.
      rewrite trackPointsOf_interpolated; [reflexivity |].
      intros v Hv. destruct (Hadded v Hv) as (? & ? & ? & q & _ & _ & _ & _ & ->).
      exists q. reflexivity.
    + cbn [List.length]. rewrite length_app.
      destruct following as [| next rest].
      * rewrite (Hnil eq_refl). cbn in Hsize |- *. lia.
      * cbn [List.length] in Hsize |- *. lia.
    + reflexivity.
    + intros d. destruct following as [| next rest].
      * rewrite (Hnil eq_refl). cbn in Hothers. injection Hothers as <-.
        reflexivity.
      * destruct others as [| o others'];
          [cbn [List.length] in Hsize; lia |].
        change (TrackPoint current :: added ++ o :: others')
          with ((TrackPoint current :: added) ++ o :: others').
        rewrite last_after, (Hlast d). reflexivity.
Qed.

(** X25: when the smoothed route is built, it contains every track point
    once and in the track's order, it starts with the first and ends with
    the last track point, and the added points number at most four for
    each gap of the track: its length is at least the track's and at most
    five times the track's minus four. *)
Theorem smoothing_keeps_track_points
    (gpxData : list Point) (smoothed : list RoutePoint) :
  createSmoothedRoutePoints gpxData = inr smoothed ->
  trackPointsOf smoothed = gpxData /\
  (List.length gpxData <= List.length smoothed
     <= 5 * List.length gpxData - 4)%nat /\
  hd_error smoothed = option_map TrackPoint (hd_error gpxData) /\
  forall d, last smoothed (TrackPoint d) = TrackPoint (last gpxData d).
Proof. exact (smoothed_route_structure gpxData smoothed). Qed.

Lemma createSmoothedRoutePoints_step
    (current next : Point) (rest : list Point) :
  createSmoothedRoutePoints (current :: next :: rest) =
  match (if Rgt_dec (distanceBetween current next) 50
         then interpolatedBetween current next
                (Z.min 5 (Zfloor (distanceBetween current next / 50)))
         else inr [])
  with
  | inl e => inl e
  | inr added =>
      match createSmoothedRoutePoints (next :: rest) with
      | inl e => inl e
      | inr others => inr (TrackPoint current :: added ++ others)
      end
  end.
Proof. reflexivity. Qed.

Lemma neighbours_later (p : Point) (gpxData : list Point) (a b : Point) :
  neighbours gpxData a b -> neighbours (p :: gpxData) a b.
Proof. intros (i & Ha & Hb). exists (S i). split; assumption. Qed.

Lemma neighbours_first (current next : Point) (rest : list Point) :
  neighbours (current :: next :: rest) current next.
Proof. exists 0%nat. split; reflexivity. Qed.

Lemma neighbours_cases (p : Point) (gpxData : list Point) (a b : Point) :
  neighbours (p :: gpxData) a b ->
  (a = p /\ exists rest, gpxData = b :: rest) \/ neighbours gpxData a b.
Proof.
  intros ([| i] & Ha & Hb).
  - left. cbn in Ha, Hb. injection Ha as <-.
    destruct gpxData as [| n rest]; [discriminate |].
    cbn in Hb. injection Hb as <-. split; [reflexivity |].
    exists rest. reflexivity.
  - right. exists i. split; assumption.
Qed.

Lemma createSmoothedRoutePoints_error (gpxData : list Point) (e : Error) :
  createSmoothedRoutePoints gpxData = inl e -> e = TypeError.
Proof.
  induction gpxData as [| current following IH]; [discriminate |].
  destruct following as [| next rest]; [discriminate |].
  rewrite createSmoothedRoutePoints_step.
  destruct (Rgt_dec (distanceBetween current next) 50).
  - destruct (interpolatedBetween current next _) as [e' | added] eqn:Hadded.
    + intros H. injection H as <-.
      exact (proj1 (interpolatedBetween_error _ _ _ _ Hadded)).
    + destruct (createSmoothedRoutePoints (next :: rest)); [| discriminate].
      intros H. injection H as <-. apply IH. reflexivity.
  - destruct (createSmoothedRoutePoints (next :: rest)); [| discriminate].
    intros H. injection H as <-. apply IH. reflexivity.
Qed.

Lemma smoothing_failure (gpxData : list Point) :
  createSmoothedRoutePoints gpxData = inl TypeError <->
  exists a b,
    neighbours gpxData a b /\ time a = None /\ 100 <= distanceBetween a b.
Proof.
  induction gpxData as [| current following IH].
  - split; [discriminate |].
    intros (a & b & ([| i] & Ha & _) & _); discriminate.
  - destruct following as [| next rest].
    + split; [discriminate |].
      intros (a & b & ([| i] & Ha & Hb) & _); [discriminate |].
      destruct i; discriminate.
    + rewrite createSmoothedRoutePoints_step.
      set (d := distanceBetween current next).
      split.
      * intros H.
        assert (Hlater : createSmoothedRoutePoints (next :: rest)
                         = inl TypeError ->
                         exists a b,
                           neighbours (current :: next :: rest) a b /\
                           time a = None /\ 100 <= distanceBetween a b).
        { intros Hrest. apply IH in Hrest.
          destruct Hrest as (a & b & Hn & Ht & Hd).
          exists a, b. split; [apply neighbours_later; exact Hn |].
          split; assumption. }
        destruct (Rgt_dec d 50) as [Hfar | Hnear].
        -- destruct (interpolatedBetween current next _)
             as [e | added] eqn:Hadded.
           ++ destruct (interpolatedBetween_error _ _ _ _ Hadded)
                as [_ Hnone].
              exists current, next.
              split; [apply neighbours_first |]. split; [exact Hnone |].
              apply long_gap_of_steps.
              destruct (Z_le_gt_dec (Z.min 5 (Zfloor (d / 50))) 1)
                as [Hone |]; [| fold d; lia].
              rewrite (interpolatedBetween_single_step _ _ _ Hone)
                in Hadded.
              discriminate.
           ++ destruct (createSmoothedRoutePoints (next :: rest))
                as [e |]; [| discriminate].
              injection H as ->. apply Hlater. reflexivity.
        -- destruct (createSmoothedRoutePoints (next :: rest))
             as [e |]; [| discriminate].
           injection H as ->. apply Hlater. reflexivity.
      * intros (a & b & Hn & Hnone & Hd).
        destruct (neighbours_cases _ _ _ _ Hn)
          as [[-> (rest' & Hrest)] | Hlater].
        -- injection Hrest as <- _. fold d in Hd.
           destruct (Rgt_dec d 50) as [_ | Hnear]; [| lra].
           rewrite (interpolatedBetween_untimed _ _ _
                      (steps_of_long_gap d Hd) Hnone).
           reflexivity.
        -- assert (Hfail : createSmoothedRoutePoints (next :: rest)
                           = inl TypeError).
           { apply IH. exists a, b. split; [exact Hlater |].
             split; assumption. }
           rewrite Hfail.
           destruct (Rgt_dec d 50); [| reflexivity].
           destruct (interpolatedBetween current next _)
             as [e | added] eqn:Hadded; [| reflexivity].
           f_equal. exact (proj1 (interpolatedBetween_error _ _ _ _ Hadded)).
Qed.

Lemma jump_distance : 100 <= haversineDistance 46 7 46.001 7 < 150.
Proof.
  rewrite haversineDistance_meridian by lra.
  assert (Hlo : 3 < PI) by (pose proof PI2_3_2; lra).
  pose proof PI_4 as Hhi. unfold toRadians. lra.
Qed.

(** X26: a track in which every point is less than 100 m from the next
    one is drawn as it is: no point is added, although the code asks for
    a gap of more than 50 m only, because a gap below 100 m gives a
    single step. *)
Theorem close_points_not_smoothed (gpxData : list Point) :
  (forall a b, neighbours gpxData a b -> distanceBetween a b < 100) ->
  createSmoothedRoutePoints gpxData = inr (map TrackPoint gpxData).
Proof.
  induction gpxData as [| current following IH]; intros Hclose;
    [reflexivity |].
  destruct following as [| next rest]; [reflexivity |].
  rewrite createSmoothedRoutePoints_step.
  rewrite IH by (intros a b Hn; apply Hclose, neighbours_later, Hn).
  pose proof (Hclose current next (neighbours_first _ _ _)) as Hd.
  destruct (Rgt_dec (distanceBetween current next) 50); [| reflexivity].
  rewrite (interpolatedBetween_single_step _ _ _
             (steps_of_short_gap _ Hd)).
  reflexivity.
Qed.

Lemma close_points_not_smoothed_witness :
  createSmoothedRoutePoints waiting_track =
  inr [TrackPoint fix_before_jump; TrackPoint fix_waiting].
Proof.
  apply (close_points_not_smoothed waiting_track).
  intros a b Hn.
  destruct (neighbours_cases _ _ _ _ Hn) as [[-> (rest & Hrest)] | Hlater].
  - injection Hrest as <- _.
    change (distanceBetween fix_before_jump fix_waiting)
      with (haversineDistance 46 7 46 7).
    rewrite haversineDistance_same_point. lra.
  - destruct Hlater as ([| i] & Ha & Hb); [discriminate |].
    destruct i; discriminate.
Defined.

(** X27: building the smoothed route fails, with a type error, exactly
    when some track point without a time is followed by a point 100 m or
    more away (a point has to be made up between them and the time of
    the first one is read); it never fails in another way. *)
Theorem smoothing_fails_on_untimed_gap (gpxData : list Point) :
  (createSmoothedRoutePoints gpxData = inl TypeError <->
   exists a b,
     neighbours gpxData a b /\ time a = None /\
     100 <= distanceBetween a b) /\
  (forall e, createSmoothedRoutePoints gpxData = inl e -> e = TypeError).
Proof.
  split.
  - exact (smoothing_failure gpxData).
  - intros e. exact (createSmoothedRoutePoints_error gpxData e).
Qed.

Lemma smoothing_fails_on_untimed_gap_witness :
  createSmoothedRoutePoints untimed_jump_track = inl TypeError.
Proof.
  apply (proj1 (smoothing_fails_on_untimed_gap untimed_jump_track)).
  exists fix_untimed, fix_after_jump.
  split; [exists 0%nat; split; reflexivity |].
  split; [reflexivity |].
  change (distanceBetween fix_untimed fix_after_jump)
    with (haversineDistance 46 7 46.001 7).
  exact (proj1 jump_distance).
Defined.

Lemma trunc_between (lo hi : Z) (x : R) :
  IZR lo <= x <= IZR hi -> (lo <= JS.trunc x <= hi)%Z.
Proof.
  intros [Hlo Hhi]. unfold JS.trunc. destruct (Rle_dec 0 x).
  - pose proof (Zfloor_bound x) as [Hfloor _].
    split; [apply Zfloor_lub; exact Hlo | apply le_IZR; lra].
  - pose proof (Zceil_bound x) as [Hbelow Hceil].
    split; [apply le_IZR; lra |].
    assert (Hlt : IZR (Zceil x) < IZR (hi + 1))
      by (rewrite plus_IZR; lra).
    apply lt_IZR in Hlt. lia.
Qed.

Lemma step_ratio_range (step : nat) (steps : Z) :
  (1 <= step < Z.to_nat steps)%nat -> 0 < INR step / IZR steps < 1.
Proof.
  intros Hstep.
  assert (Hpos : 0 < INR step) by (apply lt_0_INR; lia).
  assert (Hlt : INR step < IZR steps).
  { rewrite INR_IZR_INZ. apply IZR_lt. lia. }
  assert (Hinv : 0 < / IZR steps) by (apply Rinv_0_lt_compat; lra).
  split.
  - apply Rmult_lt_0_compat; assumption.
  - apply Rmult_lt_reg_r with (r := IZR steps); [lra |].
    replace (INR step / IZR steps * IZR steps) with (INR step)
      by (field; lra).
    lra.
Qed.

Lemma interpolatePoint_between
    (current next : Point) (ratio : R) (q : InterpolatedPoint) :
  0 <= ratio <= 1 ->
  interpolatePoint current next ratio = inr q ->
  exists t,
    time current = Some t /\
    between (lat current) (lat next) (i_lat q) /\
    between (lon current) (lon next) (i_lon q) /\
    ((t <= JS.time_value (time next))%Z ->
     (t <= i_time q <= JS.time_value (time next))%Z) /\
    (forall x y,
        wind_faced current = Some x -> wind_faced next = Some y ->
        exists w, i_wind_faced q = Some w /\ between x y w).
Proof.
  intros Hr. unfold interpolatePoint.
  destruct (time current) as [t |]; [| discriminate].
  intros H. injection H as <-. exists t.
  cbn [i_lat i_lon i_time i_wind_faced].
  split; [reflexivity |].
  split; [apply between_endpoints; exact Hr |].
  split; [apply between_endpoints; exact Hr |].
  split.
  - intros Horder. apply trunc_between.
    assert (Hgap : 0 <= IZR (JS.time_value (time next) - t))
      by (apply IZR_le; lia).
    split; [nra |].
    replace (IZR (JS.time_value (time next)))
      with (IZR t + IZR (JS.time_value (time next) - t))
      by (rewrite minus_IZR; lra).
    nra.
  - intros x y -> ->. eexists. split; [reflexivity |].
    apply between_endpoints. exact Hr.
Qed.

Lemma added_points_between (gpxData : list Point) :
  forall smoothed q,
    createSmoothedRoutePoints gpxData = inr smoothed ->
    In (Interpolated q) smoothed ->
    exists a b t,
      neighbours gpxData a b /\
      100 <= distanceBetween a b /\
      time a = Some t /\
      between (lat a) (lat b) (i_lat q) /\
      between (lon a) (lon b) (i_lon q) /\
      ((t <= JS.time_value (time b))%Z ->
       (t <= i_time q <= JS.time_value (time b))%Z) /\
      (forall x y,
          wind_faced a = Some x -> wind_faced b = Some y ->
          exists w, i_wind_faced q = Some w /\ between x y w).
Proof.
  induction gpxData as [| current following IH]; intros smoothed q H Hq.
  - cbn in H. injection H as <-. destruct Hq.
  - destruct (createSmoothedRoutePoints_cons _ _ _ H)
      as (added & others & -> & Hothers & _ & _ & Hadded).
    destruct Hq as [Hq | Hq]; [discriminate |].
    apply in_app_or in Hq. destruct Hq as [Hq | Hq].
    + destruct (Hadded _ Hq)
        as (next & rest & step & q' & -> & Hsteps & Hstep & Hmade & Heq).
      injection Heq as <-.
      pose proof (step_ratio_range _ _ Hstep) as Hratio.
      destruct (interpolatePoint_between current next _ q
                  (conj (Rlt_le _ _ (proj1 Hratio))
                        (Rlt_le _ _ (proj2 Hratio))) Hmade)
        as (t & Ht & Hrest).
      exists current, next, t.
      split; [apply neighbours_first |].
      split; [apply long_gap_of_steps; exact Hsteps |].
      split; [exact Ht | exact Hrest].
    + destruct (IH others q Hothers Hq) as (a & b & t & Hn & Hrest).
      exists a, b, t. split; [apply neighbours_later; exact Hn |].
      exact Hrest.
Qed.

(** The smoothed route of the two fixes about 111 m apart: one point is
    added, half way in place and in time. *)
Lemma jump_track_smoothed :
  exists q,
    createSmoothedRoutePoints gps_jump_track =
      inr [TrackPoint fix_before_jump; Interpolated q;
           TrackPoint fix_after_jump] /\
    i_lat q = 46.0005 /\ i_lon q = 7 /\ i_time q = 1700000000500%Z.
Proof.
  pose proof jump_distance as [Hlo Hhi].
  unfold gps_jump_track. rewrite createSmoothedRoutePoints_step.
  change (distanceBetween fix_before_jump fix_after_jump)
    with (haversineDistance 46 7 46.001 7).
  set (d := haversineDistance 46 7 46.001 7) in *.
  destruct (Rgt_dec d 50) as [_ |]; [| lra].
  assert (Hfloor : Zfloor (d / 50) = 2%Z).
  { apply Zfloor_eq. lra. }
  rewrite Hfloor.
  change (Z.min 5 2) with 2%Z.
  unfold interpolatedBetween.
  change (seq 1 (Z.to_nat 2 - 1)) with [1%nat].
  cbn [map collect createSmoothedRoutePoints app]. cbv zeta.
  unfold interpolatePoint.
  change (time fix_before_jump) with (Some 1700000000000%Z).
  eexists. split; [reflexivity |].
  cbn [i_lat i_lon i_time lat lon time fix_before_jump fix_after_jump
       JS.time_value INR].
  split; [lra |]. split; [lra |].
  replace (1700000001000 - 1700000000000)%Z with 1000%Z by reflexivity.
  replace (1700000000000 + 1000 * (1 / 2)) with (IZR 1700000000500)
    by lra.
  unfold JS.trunc. destruct (Rle_dec 0 (IZR 1700000000500)); [| lra].
  apply ZfloorZ.
Qed.

(** X28: every point added to the smoothed route lies between two
    neighbouring track points that are 100 m or more apart: its latitude
    and longitude are between theirs, its wind component is between
    theirs when both have one, and its time is between theirs when the
    first is not later than the second. *)
Theorem added_points_lie_between_neighbours
    (gpxData : list Point) (smoothed : list RoutePoint)
    (q : InterpolatedPoint) :
  createSmoothedRoutePoints gpxData = inr smoothed ->
  In (Interpolated q) smoothed ->
  exists a b t,
    neighbours gpxData a b /\
    100 <= distanceBetween a b /\
    time a = Some t /\
    between (lat a) (lat b) (i_lat q) /\
    between (lon a) (lon b) (i_lon q) /\
    ((t <= JS.time_value (time b))%Z ->
     (t <= i_time q <= JS.time_value (time b))%Z) /\
    (forall x y,
        wind_faced a = Some x -> wind_faced b = Some y ->
        exists w, i_wind_faced q = Some w /\ between x y w).
Proof. exact (added_points_between gpxData smoothed q). Qed.

Lemma smoothing_keeps_track_points_witness :
  exists smoothed,
    createSmoothedRoutePoints gps_jump_track = inr smoothed /\
    trackPointsOf smoothed = gps_jump_track /\
    (2 <= List.length smoothed <= 6)%nat.
Proof.
  destruct jump_track_smoothed as (q & Hsmoothed & _).
  eexists. split; [exact Hsmoothed |].
  destruct (smoothing_keeps_track_points gps_jump_track _ Hsmoothed)
    as (Htrack & Hlen & _).
  split; [exact Htrack | exact Hlen].
Defined.

Lemma added_points_lie_between_neighbours_witness :
  exists q a b,
    i_time q = 1700000000500%Z /\
    neighbours gps_jump_track a b /\
    100 <= distanceBetween a b /\
    between (lat a) (lat b) (i_lat q).
Proof.
  destruct jump_track_smoothed as (q & Hsmoothed & _ & _ & Htime).
  destruct (added_points_lie_between_neighbours gps_jump_track _ q
              Hsmoothed (or_intror (or_introl eq_refl)))
    as (a & b & t & Hn & Hd & _ & Hlat & _).
  exists q, a, b.
  split; [exact Htime |]. split; [exact Hn |].
  split; [exact Hd | exact Hlat].
Defined.

(** ** Chart interaction: the datum under the pointer *)

Lemma closestIndexLoop_nearest (t : R) (rest : list R) :
  forall (prefix : list R) (ci : nat) (x_ci : R),
    nth_error prefix ci = Some x_ci ->
    (forall j x_j, nth_error prefix j = Some x_j ->
       Rabs (x_ci - t) <= Rabs (x_j - t) /\
       ((j < ci)%nat -> Rabs (x_ci - t) < Rabs (x_j - t))) ->
    exists k x_k,
      closestIndexLoop (map Some rest) (Some t) (List.length prefix) ci
                       (Some (Rabs (x_ci - t))) = k /\
      nth_error (prefix ++ rest) k = Some x_k /\
      forall j x_j, nth_error (prefix ++ rest) j = Some x_j ->
        Rabs (x_k - t) <= Rabs (x_j - t) /\
        ((j < k)%nat -> Rabs (x_k - t) < Rabs (x_j - t)).
Proof.
  induction rest as [| x rest IH]; intros prefix ci x_ci Hci Hmin.
  - exists ci, x_ci. rewrite app_nil_r.
    split; [reflexivity |]. split; [exact Hci | exact Hmin].
  - assert (Hbound : (ci < List.length prefix)%nat).
    { apply nth_error_Some. rewrite Hci. discriminate. }
    assert (Hlast : forall j x_j,
               nth_error (prefix ++ [x]) j = Some x_j ->
               (j < List.length prefix)%nat /\
               nth_error prefix j = Some x_j \/
               j = List.length prefix /\ x_j = x).
    { intros j x_j Hj.
      destruct (Nat.lt_ge_cases j (List.length prefix)) as [Hlt | Hge].
      - left. rewrite nth_error_app1 in Hj by exact Hlt.
        split; assumption.
      - right.
        assert (Hj' : (j < List.length (prefix ++ [x]))%nat).
        { apply nth_error_Some. rewrite Hj. discriminate. }
        rewrite length_app in Hj'. cbn [List.length] in Hj'.
        assert (Heq : j = List.length prefix) by lia. subst j.
        rewrite nth_error_app2, Nat.sub_diag in Hj by lia.
        injection Hj as <-. split; reflexivity. }
    cbn [map closestIndexLoop]. cbv zeta.
    unfold distanceTo. cbn [JS.lift2 option_map lt_num].
    replace (prefix ++ x :: rest) with ((prefix ++ [x]) ++ rest)
      by (rewrite <- app_assoc; reflexivity).
    replace (S (List.length prefix)) with (List.length (prefix ++ [x]))
      by (rewrite length_app; cbn [List.length]; lia).
    destruct (Rlt_dec (Rabs (x - t)) (Rabs (x_ci - t))) as [Hlt | Hge].
    + apply IH.
      * rewrite nth_error_app2, Nat.sub_diag by lia. reflexivity.
      * intros j x_j Hj.
        destruct (Hlast j x_j Hj) as [[Hjlt Hj'] | [-> ->]].
        -- destruct (Hmin j x_j Hj') as [Hle _]. split; [lra |].
           intros _. lra.
        -- split; [lra | lia].
    + apply IH.
      * rewrite nth_error_app1 by exact Hbound. exact Hci.
      * intros j x_j Hj.
        destruct (Hlast j x_j Hj) as [[Hjlt Hj'] | [-> ->]].
        -- exact (Hmin j x_j Hj').
        -- split; [lra | lia].
Qed.

Lemma closestValueIndex_nearest (x0 : R) (xs : list R) (relativeX : R) :
  exists k x_k,
    closestValueIndex (Some x0) (map Some xs) relativeX = k /\
    nth_error (x0 :: xs) k = Some x_k /\
    forall j x_j, nth_error (x0 :: xs) j = Some x_j ->
      Rabs (x_k - axisTarget x0 xs relativeX)
        <= Rabs (x_j - axisTarget x0 xs relativeX) /\
      ((j < k)%nat ->
       Rabs (x_k - axisTarget x0 xs relativeX)
         < Rabs (x_j - axisTarget x0 xs relativeX)).
Proof.
  unfold closestValueIndex, min_num, max_num. cbv zeta.
  change (Some x0 :: map Some xs) with (map Some (x0 :: xs)).
  rewrite allNumbers_map_Some. cbn [JS.lift2].
  fold (axisTarget x0 xs relativeX).
  unfold distanceTo. cbn [JS.lift2 option_map].
  apply (closestIndexLoop_nearest (axisTarget x0 xs relativeX) xs [x0]
           0%nat x0 eq_refl).
  intros [| j] x_j Hj.
  - cbn in Hj. injection Hj as <-. split; [lra | lia].
  - destruct j; discriminate.
Qed.

Lemma dates_getTime (others : list XValue) :
  Forall isDate others ->
  exists times,
    collect (map getTime others) = inr times /\
    map (fun t => Some (IZR t)) times = map toNumber others.
Proof.
  induction 1 as [| d others Hd _ (times & Hc & Hmap)].
  - exists []. split; reflexivity.
  - destruct d as [ms | |]; try destruct Hd.
    exists (ms :: times). cbn [map getTime collect toNumber].
    rewrite Hc, Hmap. split; reflexivity.
Qed.

Lemma not_dates_getTime (others : list XValue) :
  ~ Forall isDate others -> collect (map getTime others) = inl TypeError.
Proof.
  induction others as [| d others IH]; intros Hnot.
  - exfalso. apply Hnot. constructor.
  - destruct d as [ms | x |]; try reflexivity.
    cbn [map getTime collect]. rewrite IH; [reflexivity |].
    intros Hall. apply Hnot. constructor; [exact I | exact Hall].
Qed.

Lemma allNumbers_unset (values : list JS.num) :
  In None values -> allNumbers values = None.
Proof.
  induction values as [| [v |] values IH]; intros Hin.
  - destruct Hin.
  - destruct Hin as [Hv | Hin]; [discriminate |].
    cbn [allNumbers]. rewrite (IH Hin). reflexivity.
  - reflexivity.
Qed.

Lemma closestIndexLoop_no_target (values : list JS.num) :
  forall i closestIndex minDistance,
    closestIndexLoop values None i closestIndex minDistance = closestIndex.
Proof.
  induction values as [| x values IH]; intros i ci md; [reflexivity |].
  cbn [closestIndexLoop]. cbv zeta. unfold distanceTo.
  destruct x; cbn [JS.lift2 option_map lt_num]; apply IH.
Qed.

(** X29: on a chart axis whose values all count as numbers (numbers,
    dates by their time, with only dates after a first date), the index
    found for a relative position is a valid index of the data, and its
    value is nearest to the place the position stands for (the smallest
    value plus that share of the range); of several equally near values
    the first is taken. *)
Theorem findClosestDataIndex_nearest
    (first : XValue) (others : list XValue)
    (x0 : R) (xs : list R) (relativeX : R) :
  uniformAxis (first :: others) ->
  map toNumber (first :: others) = map Some (x0 :: xs) ->
  exists k x_k,
    findClosestDataIndex (Some (first :: others)) relativeX
      = inr (Z.of_nat k) /\
    nth_error (x0 :: xs) k = Some x_k /\
    forall j x_j, nth_error (x0 :: xs) j = Some x_j ->
      Rabs (x_k - axisTarget x0 xs relativeX)
        <= Rabs (x_j - axisTarget x0 xs relativeX) /\
      ((j < k)%nat ->
       Rabs (x_k - axisTarget x0 xs relativeX)
         < Rabs (x_j - axisTarget x0 xs relativeX)).
Proof.
  intros Haxis Hvalues. cbn [map] in Hvalues.
  injection Hvalues as Hfirst Hothers.
  destruct (closestValueIndex_nearest x0 xs relativeX)
    as (k & x_k & Hk & Hnth & Hnear).
  exists k, x_k. split; [| split; [exact Hnth | exact Hnear]].
  destruct first as [ms | x |]; cbn [findClosestDataIndex].
  - cbn [uniformAxis] in Haxis.
    destruct (dates_getTime others Haxis) as (times & -> & Htimes).
    rewrite Htimes, Hothers. cbn [toNumber] in Hfirst.
    rewrite Hfirst, Hk. reflexivity.
  - rewrite Hfirst, Hothers, Hk. reflexivity.
  - rewrite Hfirst, Hothers, Hk. reflexivity.
Qed.

Lemma findClosestDataIndex_nearest_witness :
  exists k x_k,
    findClosestDataIndex
      (Some [XNumber (Some 0); XNumber (Some 10); XNumber (Some 4)]) (1 / 2)
      = inr (Z.of_nat k) /\
    nth_error [0; 10; 4] k = Some x_k /\
    Rabs (x_k - axisTarget 0 [10; 4] (1 / 2))
      <= Rabs (4 - axisTarget 0 [10; 4] (1 / 2)).
Proof.
  destruct (findClosestDataIndex_nearest
              (XNumber (Some 0)) [XNumber (Some 10); XNumber (Some 4)]
              0 [10; 4] (1 / 2) I eq_refl)
    as (k & x_k & Hk & Hnth & Hnear).
  exists k, x_k. split; [exact Hk |]. split; [exact Hnth |].
  exact (proj1 (Hnear 2%nat 4 eq_refl)).
Defined.

(** X30: the lookup gives -1 when there is no data or the data is empty;
    it fails with a type error when the first value is a date and a later
    one is not; and when the first value is not a date and some value is
    not a number, it gives index 0 wherever the pointer is. *)
Theorem findClosestDataIndex_edge_cases (relativeX : R) :
  findClosestDataIndex None relativeX = inr (-1)%Z /\
  findClosestDataIndex (Some []) relativeX = inr (-1)%Z /\
  (forall ms others,
      ~ Forall isDate others ->
      findClosestDataIndex (Some (XDate ms :: others)) relativeX
        = inl TypeError) /\
  (forall first others,
      ~ isDate first ->
      In None (map toNumber (first :: others)) ->
      findClosestDataIndex (Some (first :: others)) relativeX = inr 0%Z).
Proof.
  split; [reflexivity |]. split; [reflexivity |]. split.
  - intros ms others Hnot. cbn [findClosestDataIndex].
    rewrite (not_dates_getTime others Hnot). reflexivity.
  - intros first others Hfirst Hunset.
    assert (Hindex : closestValueIndex (toNumber first)
                       (map toNumber others) relativeX = 0%nat).
    { unfold closestValueIndex, min_num, max_num. cbv zeta.
      change (toNumber first :: map toNumber others)
        with (map toNumber (first :: others)).
      rewrite (allNumbers_unset _ Hunset). cbn [JS.lift2].
      apply closestIndexLoop_no_target. }
    destruct first as [ms | x |]; [destruct Hfirst; exact I | |];
      cbn [findClosestDataIndex]; rewrite Hindex; reflexivity.
Qed.

Lemma findClosestDataIndex_edge_cases_witness :
  findClosestDataIndex (Some [XDate 1700000000000; XNull]) (1 / 2)
    = inl TypeError /\
  findClosestDataIndex
    (Some [XNumber (Some 3); XNumber None; XNumber (Some 5)]) 1
    = inr 0%Z.
Proof.
  split.
  - apply (proj1 (proj2 (proj2 (findClosestDataIndex_edge_cases (1 / 2))))).
    intros Hall. inversion Hall as [| ? ? Hd _]. exact Hd.
  - apply (proj2 (proj2 (proj2 (findClosestDataIndex_edge_cases 1)))).
    + intros Hd. exact Hd.
    + right. left. reflexivity.
Defined.
